(** * summarize_journal.py: a shallow embedding and its verified properties

    The development follows the single source file of the repository.
    Definitions come first:

    - [Text]: Python [str] values as lists of code points, [str.strip],
      [os.path.basename] and [os.path.splitext];
    - [Re]: the fragment of Python's [re] module that the patterns of the
      program use (a backtracking matcher, [finditer], [search], [sub]);
    - [Journal]: [parse_org_journal], [parse_journal_summary_file],
      [summarize_with_ollama], [append_summary_to_markdown],
      [test_ollama_connection] and [main], over an explicit file system,
      an inference-service oracle and a trace of effects;
    - [Direct], [Shapes], [Stated], [Examples]: first-order readings of
      the patterns, well-formed inputs, the specification's own wording
      where it differs from the code, and concrete runs.

    The facts follow: the matcher and the scanner ([ReFacts]), the
    patterns against their direct readings ([DirectFacts], [ParseFacts]),
    the parsers ([SummaryFacts], [ThinkFacts], [FilenameFacts],
    [OrgFacts]), the runs ([RunFacts], [ProcessFacts], [RoundTripFacts]),
    whole runs and what is read back from the output document
    ([BatchFacts], [LoopFacts], [EntryFacts], [PartFacts], [RecordFacts],
    [ResumeFacts]), and the properties of the specification ([Claims],
    [Further]). *)

From Stdlib Require Import List Bool Arith NArith Lia.
From Stdlib Require String Ascii.
Import ListNotations String.StringSyntax.
Delimit Scope string_scope with string.

Set Implicit Arguments.

(* ================================================================== *)
(** * Text: Python strings *)
(* ================================================================== *)

Module Text.

(** A Python [str] is a sequence of Unicode code points. *)
Definition char := N.
Definition str := list char.

Definition char_eqb (a b : char) : bool := N.eqb a b.
Arguments char_eqb : simpl never.

Fixpoint str_eqb (a b : str) : bool :=
  match a, b with
  | [], [] => true
  | x :: a', y :: b' => char_eqb x y && str_eqb a' b'
  | _, _ => false
  end.

Definition str_eq_dec : forall a b : str, {a = b} + {a <> b} :=
  list_eq_dec N.eq_dec.

(** String literals of the source, as code points. *)
Definition lit (s : String.string) : str :=
  map Ascii.N_of_ascii (String.list_ascii_of_string s).
Arguments lit s%_string.

Definition nl : char := 10%N.          (* "\n" *)
Definition sp : char := 32%N.          (* " " *)
Definition dot : char := 46%N.         (* "." *)
Definition slash : char := 47%N.       (* "/" *)
Definition gt : char := 62%N.          (* ">" *)
Definition lbr : char := 91%N.         (* "[" *)
Definition rbr : char := 93%N.         (* "]" *)

(** [str.isspace] on one code point: the characters [str.strip()] removes. *)
Definition is_space (c : char) : bool :=
  ((9 <=? c) && (c <=? 13) || (28 <=? c) && (c <=? 32)
   || (c =? 133) || (c =? 160) || (c =? 5760)
   || (8192 <=? c) && (c <=? 8202)
   || (c =? 8232) || (c =? 8233) || (c =? 8239) || (c =? 8287)
   || (c =? 12288))%N.
Arguments is_space : simpl never.

Fixpoint lstrip (s : str) : str :=
  match s with
  | [] => []
  | c :: s' => if is_space c then lstrip s' else s
  end.

Definition rstrip (s : str) : str := rev (lstrip (rev s)).

(** [s.strip()] *)
Definition strip (s : str) : str := rstrip (lstrip s).

(** [w] is a prefix of [s] ([s.startswith(w)]). *)
Fixpoint starts_with (w s : str) : bool :=
  match w, s with
  | [], _ => true
  | a :: w', b :: s' => char_eqb a b && starts_with w' s'
  | _ :: _, [] => false
  end.

(** [w in s] for strings: [w] occurs somewhere in [s]. *)
Fixpoint occurs (w s : str) : bool :=
  starts_with w s ||
  match s with
  | [] => false
  | _ :: s' => occurs w s'
  end.

(** [x in xs] for a collection of strings. *)
Definition mem (x : str) (xs : list str) : bool := existsb (str_eqb x) xs.

(** ** [os.path] (POSIX flavour) *)

(** [os.path.basename(p)]: what follows the last "/" of [p]. *)
Fixpoint basename_aux (acc p : str) : str :=
  match p with
  | [] => acc
  | c :: p' => if char_eqb c slash then basename_aux p' p' else basename_aux acc p'
  end.

Definition basename (p : str) : str := basename_aux p p.

(** [p.rfind(c)] as the text before the last [c] and the text from it on. *)
Fixpoint rsplit_at (c : char) (p : str) : option (str * str) :=
  match p with
  | [] => None
  | x :: p' =>
      match rsplit_at c p' with
      | Some (a, b) => Some (x :: a, b)
      | None => if char_eqb x c then Some ([], p) else None
      end
  end.

(** [os.path.splitext(p)[0]] for a [p] without "/" (a base name): the last
    dot splits, unless only dots come before it. *)
Definition splitext_root (p : str) : str :=
  match rsplit_at dot p with
  | Some (a, _) => if forallb (fun c => char_eqb c dot) a then p else a
  | None => p
  end.

End Text.

(* ================================================================== *)
(** * Re: the fragment of Python's [re] used by the program *)
(* ================================================================== *)

Module Re.
Import Text.

(** Pattern syntax.  The three patterns of the program are built from
    literal characters, the lazy wildcard [.*?], capture groups, a
    lookahead [(?=...)], alternation, [^] and [\Z]. *)
Inductive regex : Type :=
| Eps : regex                          (* the empty pattern *)
| Lit : char -> regex                  (* a literal character *)
| AnyLazy : regex                      (* .*? *)
| Seq : regex -> regex -> regex        (* r1 r2 *)
| Alt : regex -> regex -> regex        (* r1|r2 *)
| Group : nat -> regex -> regex        (* (r), the n-th group *)
| Ahead : regex -> regex               (* (?=r) *)
| Bol : regex                          (* ^ *)
| Eos : regex.                         (* \Z *)

Notation "r1 >> r2" := (Seq r1 r2) (at level 61, right associativity).

(** A literal word, character by character. *)
Fixpoint word (w : str) : regex :=
  match w with
  | [] => Eps
  | c :: w' => Seq (Lit c) (word w')
  end.

(** [re.DOTALL] and [re.MULTILINE]. *)
Record flags : Type := Flags { dotall : bool; multiline : bool }.

(** A position in the subject: the character before it (if any), the text
    from it on, and the groups captured so far (latest first). *)
Record mstate : Type := MState {
  prev : option char;
  rest : str;
  caps : list (nat * str)
}.

Definition start_of (s : str) : mstate := MState None s [].

(** One character forward. *)
Definition step (c : char) (s' : str) (st : mstate) : mstate :=
  MState (Some c) s' (caps st).

(** The text between two positions of one subject, [st] before [st']. *)
Definition consumed (st st' : mstate) : str :=
  firstn (length (rest st) - length (rest st')) (rest st).

Definition set_group (n : nat) (v : str) (st : mstate) : mstate :=
  MState (prev st) (rest st) ((n, v) :: caps st).

(** [^]: the start of the subject and, under MULTILINE, after a newline. *)
Definition at_bol (fl : flags) (st : mstate) : bool :=
  match prev st with
  | None => true
  | Some c => multiline fl && char_eqb c nl
  end.

(** [.*?] followed by the continuation [k]: the continuation is tried
    first, and one more character is taken only when it fails.  Without
    DOTALL the wildcard does not cross a newline. *)
Fixpoint lazy_dots (da : bool) (k : mstate -> option mstate)
    (p : option char) (s : str) (cs : list (nat * str)) : option mstate :=
  match k (MState p s cs) with
  | Some e => Some e
  | None =>
      match s with
      | [] => None
      | c :: s' =>
          if da || negb (char_eqb c nl)
          then lazy_dots da k (Some c) s' cs
          else None
      end
  end.

(** The backtracking matcher, in continuation-passing style:
    [rmatch fl r k st] matches [r] at [st] and hands the position reached
    to [k]; when [k] fails the next alternative of [r] is tried, in the
    order of Python's engine. *)
Fixpoint rmatch (fl : flags) (r : regex) (k : mstate -> option mstate)
    (st : mstate) : option mstate :=
  match r with
  | Eps => k st
  | Lit c =>
      match rest st with
      | c' :: s' => if char_eqb c' c then k (step c' s' st) else None
      | [] => None
      end
  | AnyLazy => lazy_dots (dotall fl) k (prev st) (rest st) (caps st)
  | Seq r1 r2 => rmatch fl r1 (rmatch fl r2 k) st
  | Alt r1 r2 =>
      match rmatch fl r1 k st with
      | Some e => Some e
      | None => rmatch fl r2 k st
      end
  | Group n r1 =>
      rmatch fl r1 (fun st' => k (set_group n (consumed st st') st')) st
  | Ahead r1 =>
      match rmatch fl r1 (fun st' => Some st') st with
      | Some _ => k st
      | None => None
      end
  | Bol => if at_bol fl st then k st else None
  | Eos =>
      match rest st with
      | [] => k st
      | _ :: _ => None
      end
  end.

(** The end of a match: an empty match is refused where the scanner must
    advance (just after an empty match). *)
Definition accept (must_advance : bool) (st : mstate) (e : mstate)
    : option mstate :=
  if must_advance && (length (rest e) =? length (rest st)) then None
  else Some e.

Definition match_at (fl : flags) (r : regex) (must_advance : bool)
    (st : mstate) : option mstate :=
  rmatch fl r (accept must_advance st) st.

Definition is_empty_match (st e : mstate) : bool :=
  length (rest e) =? length (rest st).

(** The scanner starts every attempt with no group set. *)
Definition restart (e : mstate) : mstate := MState (prev e) (rest e) [].

(** A match: where it starts and where it ends. *)
Definition rematch : Type := (mstate * mstate)%type.

(** [m.group(n)] for a group that took part in the match. *)
Fixpoint lookup (n : nat) (cs : list (nat * str)) : option str :=
  match cs with
  | [] => None
  | (i, v) :: cs' => if Nat.eqb i n then Some v else lookup n cs'
  end.

Definition group (n : nat) (m : rematch) : str :=
  match lookup n (caps (snd m)) with
  | Some v => v
  | None => []
  end.

(** The scanner of [finditer]: the leftmost match from the current
    position on, then on from its end.  Every round either consumes a
    character or turns [must_advance] on, so [budget] rounds suffice. *)
Fixpoint scan_fuel (fuel : nat) (fl : flags) (r : regex)
    (must_advance : bool) (st : mstate) : list rematch :=
  match fuel with
  | 0 => []
  | S fuel' =>
      match match_at fl r must_advance st with
      | Some e =>
          (st, e) :: scan_fuel fuel' fl r (is_empty_match st e) (restart e)
      | None =>
          match rest st with
          | [] => []
          | c :: s' => scan_fuel fuel' fl r false (MState (Some c) s' [])
          end
      end
  end.

Definition budget (must_advance : bool) (st : mstate) : nat :=
  2 * length (rest st) + (if must_advance then 1 else 2).

Definition scan (fl : flags) (r : regex) (must_advance : bool)
    (st : mstate) : list rematch :=
  scan_fuel (budget must_advance st) fl r must_advance st.

(** [pattern.finditer(s)] *)
Definition finditer (fl : flags) (r : regex) (s : str) : list rematch :=
  scan fl r false (start_of s).

(** [re.search(pattern, s)] *)
Definition search (fl : flags) (r : regex) (s : str) : option rematch :=
  hd_error (finditer fl r s).

(** [re.sub(pattern, repl, s)]: the text between the matches, with [repl]
    in place of every match.  [cur] is the text from the end of the
    previous match on. *)
Fixpoint splice (repl cur : str) (ms : list rematch) : str :=
  match ms with
  | [] => cur
  | (b, e) :: ms' =>
      firstn (length cur - length (rest b)) cur ++ repl
        ++ splice repl (rest e) ms'
  end.

Definition sub (fl : flags) (r : regex) (repl s : str) : str :=
  splice repl s (finditer fl r s).

End Re.

(* ================================================================== *)
(** * Journal: the program *)
(* ================================================================== *)

Module Journal.
Import Text Re.

(** ** Data model *)

(** [class JournalEntry(TypedDict)] *)
Record JournalEntry : Type := Entry {
  heading : option str;
  filename : option str;
  content : str
}.

(** Truth value of a [str | None]. *)
Definition truthy (o : option str) : bool :=
  match o with
  | Some (_ :: _) => true
  | _ => false
  end.

(** Truth value of a [str]. *)
Definition nonempty (s : str) : bool :=
  match s with
  | [] => false
  | _ :: _ => true
  end.

(** ** The patterns *)

Definition multi : flags := Flags true true.      (* re.DOTALL | re.MULTILINE *)
Definition dotall_only : flags := Flags true false.
Definition no_flags : flags := Flags false false.

Definition org_marker : str := Eval cbv in lit "** Journal Entry <".
Definition org_stop : str := Eval cbv in lit "** ".
Definition md_marker : str := Eval cbv in lit "# ".
Definition think_open : str := Eval cbv in lit "<think>".
Definition think_close : str := Eval cbv in lit "</think>".
Definition md_suffix : str := Eval cbv in lit ".md".

(** [r'^\*\* Journal Entry <(.*?)>\n(.*?)(?=\n^\*\* |\Z)'] *)
Definition org_pattern : regex :=
  Bol >> word org_marker >> Group 1 AnyLazy >> Lit gt >> Lit nl
      >> Group 2 AnyLazy
      >> Ahead (Alt (Lit nl >> Bol >> word org_stop) Eos).

(** [r'^# (.*?)\n(.*?)(?=\n^# |\Z)'] *)
Definition summary_pattern : regex :=
  Bol >> word md_marker >> Group 1 AnyLazy >> Lit nl
      >> Group 2 AnyLazy
      >> Ahead (Alt (Lit nl >> Bol >> word md_marker) Eos).

(** [r'\[\[(.*?)\]\]'] *)
Definition filename_pattern : regex :=
  Lit lbr >> Lit lbr >> Group 1 AnyLazy >> Lit rbr >> Lit rbr.

(** [r'<think>.*?</think>'] *)
Definition think_pattern : regex :=
  word think_open >> AnyLazy >> word think_close.

(** ** The parsers, on the text read from the file *)

(** The loop of [parse_org_journal] over [pattern.finditer(content)]. *)
Fixpoint org_loop (ms : list rematch) : list JournalEntry :=
  match ms with
  | [] => []
  | m :: ms' =>
      let date_str := strip (group 1 m) in
      let entry_content := strip (group 2 m) in
      if nonempty entry_content
      then Entry (Some date_str) None entry_content :: org_loop ms'
      else org_loop ms'
  end.

Definition org_entries (text : str) : list JournalEntry :=
  org_loop (finditer multi org_pattern text).

(** [[filename]] inside a heading. *)
Definition heading_filename (h : str) : option str :=
  match search no_flags filename_pattern h with
  | Some m => Some (strip (group 1 m))
  | None => None
  end.

(** The loop of [parse_journal_summary_file]. *)
Fixpoint summary_loop (ms : list rematch) : list JournalEntry :=
  match ms with
  | [] => []
  | m :: ms' =>
      let h := strip (group 1 m) in
      let entry_content := strip (group 2 m) in
      let fname := heading_filename h in
      if nonempty entry_content
      then Entry (Some h) fname entry_content :: summary_loop ms'
      else summary_loop ms'
  end.

Definition summary_entries (text : str) : list JournalEntry :=
  summary_loop (finditer multi summary_pattern text).

(** [{entry['filename'] + '.md' for entry in existing_summaries
      if entry['filename']}] *)
Fixpoint files_already_summarized (existing : list JournalEntry) : list str :=
  match existing with
  | [] => []
  | e :: more =>
      match filename e with
      | Some (c :: f) => ((c :: f) ++ md_suffix) :: files_already_summarized more
      | _ => files_already_summarized more
      end
  end.

(** [[p for p in input_entry_md if os.path.basename(p) not in done]] *)
Definition files_to_summarize (paths done : list str) : list str :=
  filter (fun p => negb (mem (basename p) done)) paths.

(** The cleaning of the generated text in [summarize_with_ollama]:
    [strip], [re.sub] of the reasoning spans, [strip]. *)
Definition clean (generated : str) : str :=
  strip (sub dotall_only think_pattern [] (strip generated)).

(** What [append_summary_to_markdown] writes. *)
Definition record_text (h summary : str) : str :=
  md_marker ++ h ++ [nl; nl] ++ summary ++ [nl; nl].

(** ** The world: files, the inference service, the operator *)

Inductive exn : Type :=
| ConnectionError          (* requests: refused, unreachable host *)
| ConnectTimeout           (* requests: a ConnectionError and a Timeout *)
| ReadTimeout              (* requests: a Timeout *)
| HTTPError                (* requests: raise_for_status on 4xx/5xx *)
| OtherRequestException    (* requests: any other RequestException *)
| RequestsJSONDecodeError  (* requests: a RequestException and a json.JSONDecodeError *)
| JSONDecodeError          (* json.JSONDecodeError *)
| AttributeError
| FormatError              (* KeyError, IndexError, ValueError of str.format *)
| OtherError.

Definition is_ConnectionError (e : exn) : bool :=
  match e with ConnectionError | ConnectTimeout => true | _ => false end.

Definition is_Timeout (e : exn) : bool :=
  match e with ConnectTimeout | ReadTimeout => true | _ => false end.

Definition is_RequestException (e : exn) : bool :=
  match e with
  | ConnectionError | ConnectTimeout | ReadTimeout | HTTPError
  | OtherRequestException | RequestsJSONDecodeError => true
  | _ => false
  end.

Definition is_JSONDecodeError (e : exn) : bool :=
  match e with RequestsJSONDecodeError | JSONDecodeError => true | _ => false end.

(** The value under the key "response" of the decoded body. *)
Inductive jfield : Type :=
| FStr : str -> jfield
| FOther : jfield.            (* a number, null, a list, an object *)

(** [response.json()] *)
Inductive json : Type :=
| JObject : option jfield -> json   (* an object, with its "response" if any *)
| JOther : json.                    (* any other JSON value *)

Inductive body : Type :=
| BodyJson : json -> body
| BodyNotJson : exn -> body.  (* what [response.json()] raises on it *)

(** What [requests.post] does. *)
Inductive post_outcome : Type :=
| PostRaises : exn -> post_outcome
| PostResponse : bool -> body -> post_outcome.   (* status below 400, body *)

Inductive file : Type :=
| Missing : file
| Denied : file                      (* opening it fails, to read or to write *)
| File : str -> bool -> file.        (* content, writable *)

Inductive message : Type :=
| MsgStarting | MsgOutputFile (p : str) | MsgModel (m : str) | MsgUrl (u : str)
| MsgBothInputs
| MsgNotFound (p : str) | MsgReadError (p : str)
| MsgReading (p : str)
| MsgNoEntries
| MsgFound (n : nat)
| MsgWillProcess | MsgItem (s : str) | MsgItemNone
| MsgExitWithoutProcessing
| MsgProbeFailed (u : str) | MsgProbeDetails
| MsgProcessing (i total : nat) (h : option str)
| MsgSkipEmpty
| MsgSending (m : str) | MsgSummaryReceived
| MsgCannotConnect (u : str) | MsgEnsureRunning
| MsgTimedOut | MsgRequestError (e : exn)
| MsgCannotDecode | MsgResponseText
| MsgUnexpected (e : exn)
| MsgAppended (p : str) | MsgWriteError (p : str)
| MsgFailed (h : option str)
| MsgComplete (processed total : nat) | MsgAppendedTo (p : str).

Inductive event : Type :=
| Print : message -> event
| OpenRead : str -> event                 (* open(path, 'r') *)
| OpenAppend : str -> event               (* open(path, 'a') *)
| HttpPost : str -> str -> str -> event   (* url, model, prompt *)
| HttpGet : str -> event
| Input : event.

(** What the run does not control. *)
Record env : Type := Env {
  format : str -> str -> exn + str;   (* prompt_template.format(entry_text=text) *)
  service : nat -> str -> str -> str -> post_outcome;
                                      (* the n-th generation request: url, model, prompt *)
  probe : str -> bool;                (* GET url answers below 400 *)
  operator : str                      (* the operator's reply to the prompt *)
}.

(** What the run changes. *)
Record sys : Type := Sys {
  files : str -> file;
  posts : nat;                        (* generation requests issued so far *)
  trace : list event                  (* effects, latest first *)
}.

Definition M (A : Type) : Type := sys -> A * sys.

Definition ret {A : Type} (x : A) : M A := fun s => (x, s).

Definition bind {A B : Type} (m : M A) (f : A -> M B) : M B :=
  fun s => let (x, s') := m s in f x s'.

Notation "x <- m ;; k" := (bind m (fun x => k))
  (at level 62, m at next level, right associativity).
Notation "m ;; k" := (bind m (fun _ => k))
  (at level 62, right associativity).

Definition emit (ev : event) : M unit :=
  fun s => (tt, Sys (files s) (posts s) (ev :: trace s)).

Definition print (m : message) : M unit := emit (Print m).

Inductive read_result : Type :=
| ReadOk : str -> read_result
| ReadNotFound : read_result          (* FileNotFoundError *)
| ReadFails : read_result.            (* any other exception *)

(** [with open(path, 'r', encoding='utf-8') as f: f.read()] *)
Definition read_text (path : str) : M read_result :=
  emit (OpenRead path);;
  fun s =>
    (match files s path with
     | File c _ => ReadOk c
     | Missing => ReadNotFound
     | Denied => ReadFails
     end, s).

Definition write_to (fs : str -> file) (path data : str) : str -> file :=
  fun q =>
    if str_eqb q path then
      match fs path with
      | File c w => File (c ++ data) w
      | Missing => File data true
      | Denied => Denied
      end
    else fs q.

Definition can_append (f : file) : bool :=
  match f with
  | File _ w => w
  | Missing => true
  | Denied => false
  end.

(** [with open(path, 'a', encoding='utf-8') as f: f.write(...)]: [true]
    when the text was appended, [false] when an exception was raised. *)
Definition append_text (path data : str) : M bool :=
  emit (OpenAppend path);;
  fun s =>
    if can_append (files s path)
    then (true, Sys (write_to (files s) path data) (posts s) (trace s))
    else (false, s).

(** [requests.post(url, json=payload, headers=headers, timeout=120)] *)
Definition http_post (E : env) (url model prompt : str) : M post_outcome :=
  emit (HttpPost url model prompt);;
  fun s =>
    (service E (posts s) url model prompt,
     Sys (files s) (S (posts s)) (trace s)).

(** ** The functions of the program *)

Definition read_and_parse (parse : str -> list JournalEntry) (file_path : str)
    : M (list JournalEntry) :=
  r <- read_text file_path;;
  match r with
  | ReadOk text => ret (parse text)
  | ReadNotFound => print (MsgNotFound file_path);; ret []
  | ReadFails => print (MsgReadError file_path);; ret []
  end.

Definition parse_org_journal (file_path : str) : M (list JournalEntry) :=
  read_and_parse org_entries file_path.

Definition parse_journal_summary_file (file_path : str)
    : M (list JournalEntry) :=
  read_and_parse summary_entries file_path.

(** The [try] block of [summarize_with_ollama], from the reply on. *)
Definition generated_summary (o : post_outcome) : exn + str :=
  match o with
  | PostRaises e => inl e
  | PostResponse false _ => inl HTTPError
  | PostResponse true (BodyNotJson e) => inl e
  | PostResponse true (BodyJson JOther) => inl AttributeError
  | PostResponse true (BodyJson (JObject None)) => inr (clean [])
  | PostResponse true (BodyJson (JObject (Some (FStr generated)))) =>
      inr (clean generated)
  | PostResponse true (BodyJson (JObject (Some FOther))) => inl AttributeError
  end.

(** The [except] clauses of [summarize_with_ollama], in their order. *)
Definition handler (ollama_url : str) (e : exn) : list message :=
  if is_ConnectionError e then [MsgCannotConnect ollama_url; MsgEnsureRunning]
  else if is_Timeout e then [MsgTimedOut]
  else if is_RequestException e then [MsgRequestError e]
  else if is_JSONDecodeError e then [MsgCannotDecode; MsgResponseText]
  else [MsgUnexpected e].

Fixpoint print_all (ms : list message) : M unit :=
  match ms with
  | [] => ret tt
  | m :: ms' => print m;; print_all ms'
  end.

(** A call either returns or lets an exception through. *)
Inductive result (A : Type) : Type :=
| Returned : A -> result A
| Raised : exn -> result A.
Arguments Returned {A} _.
Arguments Raised {A} _.

Definition api_generate : str := Eval cbv in lit "/api/generate".

Definition summarize_with_ollama (E : env)
    (text model ollama_url prompt_template : str) : M (result (option str)) :=
  match format E prompt_template text with
  | inl e => ret (Raised e)
  | inr full_prompt =>
      print (MsgSending model);;
      o <- http_post E (ollama_url ++ api_generate) model full_prompt;;
      match generated_summary o with
      | inr summary => print MsgSummaryReceived;; ret (Returned (Some summary))
      | inl e => print_all (handler ollama_url e);; ret (Returned None)
      end
  end.

Definition append_summary_to_markdown (output_file h summary : str)
    : M unit :=
  ok <- append_text output_file (record_text h summary);;
  if ok then print (MsgAppended output_file)
  else print (MsgWriteError output_file).

Definition test_ollama_connection (E : env) (url : str) : M bool :=
  emit (HttpGet url);;
  if probe E url then ret true
  else print (MsgProbeFailed url);; print MsgProbeDetails;; ret false.

(** ** [main] *)

Record args : Type := Args {
  input_journal_org : option str;
  input_entry_md : option (list str);
  output_md : str;
  model : str;
  url : str;
  prompt : str
}.

Inductive outcome : Type :=
| ConfigError : outcome                  (* both input modes *)
| NothingToDo : outcome
| Declined : outcome
| Unreachable : outcome
| Aborted : nat -> nat -> outcome        (* processed_count, len(entries) *)
| Complete : nat -> nat -> outcome       (* processed_count, len(entries) *)
| Crashed : exn -> outcome.              (* an exception left main *)

Definition given (o : option (list str)) : bool :=
  match o with
  | Some (_ :: _) => true
  | _ => false
  end.

Definition paths_of (o : option (list str)) : list str :=
  match o with
  | Some ps => ps
  | None => []
  end.

(** The loop that reads the per-file entries. *)
Fixpoint read_entries (paths : list str) : M (list JournalEntry) :=
  match paths with
  | [] => ret []
  | md_file_path :: more =>
      print (MsgReading md_file_path);;
      r <- read_text md_file_path;;
      match r with
      | ReadOk text =>
          es <- read_entries more;;
          ret (Entry None (Some (splitext_root (basename md_file_path))) text
                 :: es)
      | ReadNotFound => print (MsgNotFound md_file_path);; read_entries more
      | ReadFails => print (MsgReadError md_file_path);; read_entries more
      end
  end.

(** The listing shown before the confirmation. *)
Fixpoint list_entries (entries : list JournalEntry) : M unit :=
  match entries with
  | [] => ret tt
  | e :: more =>
      (if truthy (filename e)
       then print (MsgItem (match filename e with
                            | Some f => f ++ md_suffix
                            | None => []
                            end))
       else match heading e with
            | Some (c :: h) => print (MsgItem (c :: h))
            | _ => print MsgItemNone
            end);;
      list_entries more
  end.

Definition none_text : str := Eval cbv in lit "None".

(** [f'{x}'] for a [str | None]. *)
Definition fstr (o : option str) : str :=
  match o with
  | Some s => s
  | None => none_text
  end.

Definition entry_heading (e : JournalEntry) : option str :=
  match filename e with
  | Some (c :: f) => Some ([lbr; lbr] ++ (c :: f) ++ [rbr; rbr])
  | _ => heading e
  end.

(** The processing loop, from entry number [i] on. *)
Fixpoint process (E : env) (a : args) (total i processed : nat)
    (entries : list JournalEntry) : M outcome :=
  match entries with
  | [] =>
      print (MsgComplete processed total);;
      print (MsgAppendedTo (output_md a));;
      ret (Complete processed total)
  | entry :: more =>
      let h := entry_heading entry in
      print (MsgProcessing (i + 1) total h);;
      if negb (nonempty (content entry)) then
        print MsgSkipEmpty;;
        process E a total (S i) processed more
      else
        r <- summarize_with_ollama E (content entry) (model a) (url a)
               (prompt a);;
        match r with
        | Raised e => ret (Crashed e)
        | Returned (Some (c :: summary)) =>
            append_summary_to_markdown (output_md a) (fstr h) (c :: summary);;
            process E a total (S i) (S processed) more
        | Returned _ =>
            print (MsgFailed (heading entry));;
            ret (Aborted processed total)
        end
  end.

(** [input(...).strip().lower() == 'y'] *)
Definition affirmative (reply : str) : bool :=
  let r := strip reply in
  str_eqb r [121%N] || str_eqb r [89%N].

Definition main (E : env) (a : args) : M outcome :=
  print MsgStarting;;
  print (MsgOutputFile (output_md a));;
  print (MsgModel (model a));;
  print (MsgUrl (url a));;
  if truthy (input_journal_org a) && given (input_entry_md a) then
    print MsgBothInputs;; ret ConfigError
  else
    existing_summaries <- parse_journal_summary_file (output_md a);;
    let done := files_already_summarized existing_summaries in
    entries <-
      (if given (input_entry_md a) then
         read_entries (files_to_summarize (paths_of (input_entry_md a)) done)
       else
         match input_journal_org a with
         | Some (c :: p) => parse_org_journal (c :: p)
         | _ => ret []
         end);;
    match entries with
    | [] => print MsgNoEntries;; ret NothingToDo
    | _ :: _ =>
        print (MsgFound (length entries));;
        print MsgWillProcess;;
        list_entries entries;;
        emit Input;;
        if negb (affirmative (operator E)) then
          print MsgExitWithoutProcessing;; ret Declined
        else
          up <- test_ollama_connection E (url a);;
          if negb up then ret Unreachable
          else process E a (length entries) 0 0 entries
    end.

End Journal.

(* ================================================================== *)
(** * Direct: first-order readings of the patterns *)
(* ================================================================== *)

(** The functions below say, without a regular-expression engine, what the
    patterns of the program match.  They are proved equal to the engine on
    every input further down, and the properties of the parsers are then
    derived from them. *)

Module Direct.
Import Text Re.

(** The character before the position reached after reading [w]. *)
Definition last_char (w : str) (p : option char) : option char :=
  fold_left (fun _ c => Some c) w p.

(** [st'] is a later position of the subject of [st]. *)
Definition reach (st st' : mstate) : Prop :=
  exists w, rest st = w ++ rest st' /\ prev st' = last_char w (prev st).

(** The text before the first occurrence of [w] in [s], and the text after
    that occurrence. *)
Fixpoint split_at (w s : str) {struct s} : option (str * str) :=
  if starts_with w s then Some ([], skipn (length w) s)
  else
    match s with
    | [] => None
    | c :: s' =>
        match split_at w s' with
        | Some (a, b) => Some (c :: a, b)
        | None => None
        end
    end.

(** Where a block body may end: at the end of the text, or before a
    newline that is followed by [stop]. *)
Definition stops (stop s : str) : bool :=
  match s with
  | [] => true
  | _ :: _ => starts_with (nl :: stop) s
  end.

(** The shortest body, and what follows it. *)
Fixpoint until_stop (stop s : str) {struct s} : str * str :=
  if stops stop s then ([], s)
  else
    match s with
    | [] => ([], [])
    | c :: s' => let (b, r) := until_stop stop s' in (c :: b, r)
    end.

(** The shape shared by the two block patterns:
    [^marker(.*?)term(.*?)(?=\n^stop|\Z)]. *)
Definition block_pattern (marker term stop : str) : regex :=
  Bol >> word marker >> Group 1 AnyLazy >> word term
      >> Group 2 AnyLazy
      >> Ahead (Alt (Lit nl >> Bol >> word stop) Eos).

(** What a block pattern matches at a position. *)
Definition block_match (fl : flags) (marker term stop : str) (st : mstate)
    : option mstate :=
  if at_bol fl st && starts_with marker (rest st) then
    match split_at term (skipn (length marker) (rest st)) with
    | Some (h, r2) =>
        let (b, r3) := until_stop stop r2 in
        Some (MState (last_char (marker ++ h ++ term ++ b) (prev st)) r3
                ((2, b) :: (1, h) :: caps st))
    | None => None
    end
  else None.

(** What [open.*?close] matches at a position. *)
Definition span_match (open close : str) (st : mstate) : option mstate :=
  if starts_with open (rest st) then
    match split_at close (skipn (length open) (rest st)) with
    | Some (h, r) =>
        Some (MState (last_char (open ++ h ++ close) (prev st)) r (caps st))
    | None => None
    end
  else None.

(** Removing every span that runs from an opening tag to the nearest
    closing tag after it, left to right.  [skip] counts the characters of
    the current span still to drop. *)
Fixpoint drop_spans (open close : str) (skip : nat) (s : str) : str :=
  match s with
  | [] => []
  | c :: s' =>
      match skip with
      | S n => drop_spans open close n s'
      | 0 =>
          if starts_with open s then
            match split_at close (skipn (length open) s) with
            | Some (h, _) =>
                drop_spans open close
                  (length open + length h + length close - 1) s'
            | None => c :: drop_spans open close 0 s'
            end
          else c :: drop_spans open close 0 s'
      end
  end.

(** A document of the Output Writer either is empty or ends with the blank
    line that closes a record. *)
Definition blank_terminated (d : str) : Prop :=
  d = [] \/ exists d', d = d' ++ [nl; nl].

(** A text that is empty or ends with a newline. *)
Definition line_closed (u : str) : Prop :=
  u = [] \/ exists u', u = u' ++ [nl].

End Direct.

(* ================================================================== *)
(** * Shapes: well-formed inputs *)
(* ================================================================== *)

Module Shapes.
Import Text Re Direct Journal.

(** An outline block as it stands in the document: the marker line with
    its date, the body, and the newline that ends the body. *)
Definition render_block (blk : str * str) : str :=
  org_marker ++ fst blk ++ [gt; nl] ++ snd blk ++ [nl].

Definition render_outline (blocks : list (str * str)) : str :=
  concat (map render_block blocks).

(** The entry an outline block stands for. *)
Definition block_entry (blk : str * str) : JournalEntry :=
  Entry (Some (strip (fst blk))) None (strip (snd blk)).

(** A block the outline format can hold: the date is on one line, and no
    line of the body but the first starts a heading of the marker's level. *)
Definition plain_block (blk : str * str) : Prop :=
  ~ In nl (fst blk) /\ occurs (nl :: org_stop) (snd blk) = false.


(** The text of a file as the parsers see it: nothing when it cannot be
    read. *)
Definition file_text (f : file) : str :=
  match f with
  | File c _ => c
  | Missing | Denied => []
  end.

(** The completion set the run derives from the output document. *)
Definition completion_set (s : sys) (output_file : str) : list str :=
  files_already_summarized
    (summary_entries (file_text (files s output_file))).

(** The entry the per-file reader makes of a readable file. *)
Definition entry_of (fs : str -> file) (path : str) : JournalEntry :=
  Entry None (Some (splitext_root (basename path))) (file_text (fs path)).

(** [s'] differs from [s] by what was logged only. *)
Definition quiet (s s' : sys) : Prop :=
  files s' = files s /\ posts s' = posts s.

(** A file that can be opened and read. *)
Definition readable (f : file) : bool :=
  match f with
  | File _ _ => true
  | Missing | Denied => false
  end.

(** A file that can be read and is not empty. *)
Definition readable_nonempty (fs : str -> file) (path : str) : Prop :=
  exists c w, fs path = File c w /\ c <> [].



(** The generation requests of a trace, oldest first: url, model, prompt. *)
Fixpoint requests (tr : list event) : list (str * str * str) :=
  match tr with
  | [] => []
  | HttpPost u m p :: tr' => requests tr' ++ [(u, m, p)]
  | _ :: tr' => requests tr'
  end.

(** The files a trace opened, to read or to append. *)
Fixpoint opened (tr : list event) : list str :=
  match tr with
  | [] => []
  | OpenRead p :: tr' => opened tr' ++ [p]
  | OpenAppend p :: tr' => opened tr' ++ [p]
  | _ :: tr' => opened tr'
  end.

(** The processed/total reports of a trace. *)
Fixpoint reports (tr : list event) : list (nat * nat) :=
  match tr with
  | [] => []
  | Print (MsgComplete k t) :: tr' => reports tr' ++ [(k, t)]
  | _ :: tr' => reports tr'
  end.

(** The failure modes of a generation request that the client names. *)
Inductive failure_mode : post_outcome -> Prop :=
| ConnectionRefused : forall e,
    is_ConnectionError e = true -> failure_mode (PostRaises e)
| RequestTimeout : forall e,
    is_Timeout e = true -> failure_mode (PostRaises e)
| TransportFailure : forall e,
    is_RequestException e = true -> failure_mode (PostRaises e)
| ErrorStatus : forall b, failure_mode (PostResponse false b)
| MalformedBody : forall e,
    failure_mode (PostResponse true (BodyNotJson e)).

(** A reply with a JSON object whose "response" is the text [generated]. *)
Definition well_formed (generated : str) : post_outcome :=
  PostResponse true (BodyJson (JObject (Some (FStr generated)))).

(** The per-file paths a run selects: those whose base name is not in the
    completion set. *)
Definition selected (a : args) (s : sys) : list str :=
  files_to_summarize (paths_of (input_entry_md a))
    (completion_set s (output_md a)).

(** The input files a run opens after the output document. *)
Definition inputs (a : args) (s : sys) : list str :=
  if given (input_entry_md a) then selected a s
  else match input_journal_org a with
       | Some (c :: p) => [c :: p]
       | _ => []
       end.

(** The entries a run has in hand when it reaches the confirmation. *)
Definition batch (a : args) (s : sys) : list JournalEntry :=
  if given (input_entry_md a) then
    map (entry_of (files s))
      (filter (fun p => readable (files s p)) (selected a s))
  else
    match input_journal_org a with
    | Some (c :: p) => org_entries (file_text (files s (c :: p)))
    | _ => []
    end.

(** Both input modes at once. *)
Definition both_given (a : args) : bool :=
  truthy (input_journal_org a) && given (input_entry_md a).

(** The entries the loop sends to the service: those with content. *)
Definition with_content (entries : list JournalEntry) : list JournalEntry :=
  filter (fun e => nonempty (content e)) entries.

(** The records of entries and their summaries, as the Output Writer
    lays them out. *)
Definition records (done : list (JournalEntry * str)) : str :=
  concat (map (fun es => record_text (fstr (entry_heading (fst es))) (snd es))
            done).

(** [summ] is the summary the client made for [e]: the reply to a request
    with the prompt built from the content of [e], cleaned, and not
    empty. *)
Definition summary_of (E : env) (a : args) (e : JournalEntry) (summ : str)
    : Prop :=
  summ <> [] /\
  exists n p,
    format E (prompt a) (content e) = inr p /\
    generated_summary (service E n (url a ++ api_generate) (model a) p)
    = inr summ.

(** [s'] differs from [s] by what was printed and by the files [ps]
    opened to read, in that order. *)
Definition reads (ps : list str) (s s' : sys) : Prop :=
  files s' = files s /\ posts s' = posts s /\
  opened (trace s') = opened (trace s) ++ ps /\
  requests (trace s') = requests (trace s).

(** A record the output format can hold and give back: the heading on one
    line and stripped, the summary stripped and not empty, and no line of
    the summary starts with the heading marker. *)
Definition plain_record (hs : str * str) : Prop :=
  ~ In nl (fst hs) /\ strip (fst hs) = fst hs /\
  snd hs <> [] /\ strip (snd hs) = snd hs /\
  occurs (nl :: md_marker) (nl :: snd hs) = false.

(** The entry the Completion Tracker reads from such a record. *)
Definition record_entry (hs : str * str) : JournalEntry :=
  Entry (Some (fst hs)) (heading_filename (fst hs)) (snd hs).

(** The extent of a record with heading line [h] and body [body] in an
    output document [text]: the marker ["# "] stands at the start of a
    line, the heading runs to the end of that line, and the body runs
    from the next line to the first place where the text ends or a
    newline is followed by the marker. *)
Definition record_extent (text h body : str) : Prop :=
  exists pre post,
    text = pre ++ md_marker ++ h ++ [nl] ++ body ++ post /\
    line_closed pre /\ ~ In nl h /\
    stops md_marker post = true /\
    forall b1 c b2, body = b1 ++ c :: b2 ->
      stops md_marker (c :: b2 ++ post) = false.

(** The generation request for a prompt. *)
Definition request_for (a : args) (p : str) : str * str * str :=
  (url a ++ api_generate, model a, p).


(** The name a heading holds: the text between the first ["[["] and the
    first ["]]"] after it, stripped. *)
Definition bracket_name (h : str) : option str :=
  match split_at [lbr; lbr] h with
  | Some (_, r) =>
      match split_at [rbr; rbr] r with
      | Some (f, _) => Some (strip f)
      | None => None
      end
  | None => None
  end.

End Shapes.

(* ================================================================== *)
(** * The statements of the specification, and concrete runs *)
(* ================================================================== *)

Module Stated.
Import Text Re Direct Journal Shapes.




End Stated.

Module Examples.
Import Text Re Direct Journal Shapes.

Definition placeholder : str := Eval cbv in lit "{entry_text}".

Definition is_brace (c : char) : bool :=
  char_eqb c 123%N || char_eqb c 125%N.

(** [str.format] on the templates that hold no brace but those of one
    placeholder at their end; every other use of braces is reported as an
    error here. *)
Fixpoint format_plain (tpl text : str) : exn + str :=
  match tpl with
  | [] => inr []
  | c :: tpl' =>
      if str_eqb tpl placeholder then inr text
      else if is_brace c then inl FormatError
      else
        match format_plain tpl' text with
        | inr r => inr (c :: r)
        | inl e => inl e
        end
  end.

(** DEFAULT_PROMPT_TEMPLATE, DEFAULT_MODEL, DEFAULT_OLLAMA_URL *)
Definition default_prompt : str :=
  Eval cbv in
    lit "Write a concise, one to three sentence summary of the following journal entry I wrote /no_think:"
    ++ [nl; nl] ++ placeholder.
Definition default_model : str := Eval cbv in lit "llama3.2".
Definition default_url : str := Eval cbv in lit "http://localhost:11434".

Definition out_md : str := Eval cbv in lit "journal-summary.md".
Definition note1 : str := Eval cbv in lit "notes/note1.md".
Definition note2 : str := Eval cbv in lit "notes/note2.md".
Definition note3 : str := Eval cbv in lit "notes/note3.md".
Definition todo_txt : str := Eval cbv in lit "notes/todo.txt".
Definition journal_org : str := Eval cbv in lit "journal.org".

(** A service that answers every request with the same text. *)
Definition answering (generated : str) : nat -> str -> str -> str -> post_outcome :=
  fun _ _ _ _ => well_formed generated.


Definition yes : str := Eval cbv in lit "y".

Definition env_of (svc : nat -> str -> str -> str -> post_outcome) : env :=
  Env format_plain svc (fun _ => true) yes.

Definition fine_day : str := Eval cbv in lit "A fine day.".

Definition env_ok : env := env_of (answering fine_day).

(** Three notes, a text file and no output document yet. *)
Definition notes_fs : str -> file :=
  fun path =>
    if str_eqb path note1 then File (lit "Went hiking.") true
    else if str_eqb path note2 then File (lit "Read a book.") true
    else if str_eqb path note3 then File (lit "Cooked dinner.") true
    else if str_eqb path todo_txt then File (lit "Buy milk.") true
    else Missing.

Definition boot (fs : str -> file) : sys := Sys fs 0 [].

Definition per_file (paths : list str) : args :=
  Args None (Some paths) out_md default_model default_url default_prompt.

Definition both_modes : args :=
  Args (Some journal_org) (Some [note1]) out_md default_model default_url
    default_prompt.


(** A block whose body is blank, between two that are not. *)
Definition blank_middle : list (str * str) :=
  Eval cbv in
    [(lit "A", lit "first"); (lit "B", [sp; sp]); (lit "C", lit "third")].

(** Three blocks dated A, B, C. *)
Definition abc_blocks : list (str * str) :=
  Eval cbv in
    [(lit "A", lit "first"); (lit "B", lit "second"); (lit "C", lit "third")].

(** The service does not answer the probe. *)
Definition env_down : env :=
  Env format_plain (answering fine_day) (fun _ => false) yes.

(** A template with a field that [str.format] is not given. *)
Definition dated_prompt : str := Eval cbv in lit "{date}: {entry_text}".

Definition empty_md : str := Eval cbv in lit "notes/empty.md".

(** The notes and an empty file. *)
Definition notes_and_empty : str -> file :=
  fun path => if str_eqb path empty_md then File [] true else notes_fs path.

Definition outline_mode : args :=
  Args (Some journal_org) None out_md default_model default_url
    default_prompt.

(** An outline of three entries, and no output document yet. *)
Definition outline_fs : str -> file :=
  fun path =>
    if str_eqb path journal_org then File (render_outline abc_blocks) true
    else Missing.

End Examples.

(* ================================================================== *)
(** * Facts about texts *)
(* ================================================================== *)

Unset Implicit Arguments.

Module TextFacts.
Import Text.

Lemma char_eqb_eq (a b : char) : char_eqb a b = true <-> a = b.
Proof. apply N.eqb_eq. Qed.

Lemma char_eqb_refl (a : char) : char_eqb a a = true.
Proof. apply N.eqb_refl. Qed.


Lemma str_eqb_eq (a b : str) : str_eqb a b = true <-> a = b.
Proof.
  revert b; induction a as [|x a IH]; intros [|y b]; simpl; split;
    try congruence; auto.
  - rewrite andb_true_iff, char_eqb_eq, IH. intros [-> ->]; reflexivity.
  - intros E; injection E as -> ->.
    rewrite andb_true_iff, char_eqb_eq, IH; auto.
Qed.

Lemma str_eqb_refl (a : str) : str_eqb a a = true.
Proof. apply str_eqb_eq; reflexivity. Qed.


Lemma starts_with_iff (w s : str) :
  starts_with w s = true <-> exists t, s = w ++ t.
Proof.
  revert s; induction w as [|a w IH]; intros s; simpl.
  - split; [intros _; exists s; reflexivity | reflexivity].
  - destruct s as [|b s].
    + split; [discriminate | intros (t & E); discriminate].
    + rewrite andb_true_iff, char_eqb_eq, IH. split.
      * intros (-> & t & ->). exists t; reflexivity.
      * intros (t & E). injection E as -> ->. split; [reflexivity | exists t; reflexivity].
Qed.

Lemma starts_with_app (w t : str) : starts_with w (w ++ t) = true.
Proof. apply starts_with_iff. exists t; reflexivity. Qed.

Lemma starts_with_skipn (w s : str) :
  starts_with w s = true -> s = w ++ skipn (length w) s.
Proof.
  intros H. apply starts_with_iff in H. destruct H as (t & ->).
  rewrite skipn_app, skipn_all, Nat.sub_diag. reflexivity.
Qed.

Lemma skipn_exact {A : Type} (w t : list A) : skipn (length w) (w ++ t) = t.
Proof. rewrite skipn_app, skipn_all, Nat.sub_diag. reflexivity. Qed.

Lemma firstn_exact {A : Type} (w t : list A) : firstn (length w) (w ++ t) = w.
Proof.
  rewrite firstn_app, firstn_all, Nat.sub_diag. simpl. apply app_nil_r.
Qed.

End TextFacts.

Module StripFacts.
Import Text TextFacts.

Lemma lstrip_app (v w : str) :
  lstrip (v ++ w) = if forallb is_space v then lstrip w else lstrip v ++ w.
Proof.
  induction v as [|c v IH]; simpl; [reflexivity|].
  destruct (is_space c); simpl; [exact IH | reflexivity].
Qed.

Lemma lstrip_head (s : str) (c : char) (t : str) :
  lstrip s = c :: t -> is_space c = false.
Proof.
  induction s as [|x s IH]; simpl; [discriminate|].
  destruct (is_space x) eqn:E; [exact IH|].
  intros H; injection H as -> _. exact E.
Qed.

Lemma lstrip_keep (c : char) (s : str) :
  is_space c = false -> lstrip (c :: s) = c :: s.
Proof. intros H. simpl. rewrite H. reflexivity. Qed.

Lemma lstrip_snoc (x : str) (c : char) :
  is_space c = false -> exists y, lstrip (x ++ [c]) = y ++ [c].
Proof.
  intros H. induction x as [|a x IH]; simpl.
  - rewrite H. exists []. reflexivity.
  - destruct (is_space a); [exact IH|]. exists (a :: x). reflexivity.
Qed.

Lemma rstrip_cons (c : char) (t : str) :
  is_space c = false -> exists y, rstrip (c :: t) = c :: y.
Proof.
  intros H. unfold rstrip. simpl.
  destruct (lstrip_snoc (rev t) c H) as (y & E). rewrite E.
  rewrite rev_app_distr. simpl. exists (rev y). reflexivity.
Qed.

Lemma rstrip_snoc_space (v : str) (c : char) :
  is_space c = true -> rstrip (v ++ [c]) = rstrip v.
Proof.
  intros H. unfold rstrip. rewrite rev_app_distr. simpl. rewrite H.
  reflexivity.
Qed.

Lemma rstrip_snoc_keep (v : str) (c : char) :
  is_space c = false -> rstrip (v ++ [c]) = v ++ [c].
Proof.
  intros H. unfold rstrip. rewrite rev_app_distr. simpl. rewrite H.
  simpl. rewrite rev_involutive. reflexivity.
Qed.

Lemma lstrip_all_space (v : str) : forallb is_space v = true -> lstrip v = [].
Proof.
  induction v as [|c v IH]; simpl; [reflexivity|].
  destruct (is_space c); simpl; [exact IH | discriminate].
Qed.

(** A trailing whitespace character does not change the stripped text. *)
Lemma strip_snoc_space (v : str) (c : char) :
  is_space c = true -> strip (v ++ [c]) = strip v.
Proof.
  intros H. unfold strip. rewrite lstrip_app.
  destruct (forallb is_space v) eqn:A.
  - rewrite (lstrip_all_space v A). simpl. rewrite H. reflexivity.
  - apply rstrip_snoc_space. exact H.
Qed.

(** The stripped text starts with a character that is not whitespace. *)
Lemma strip_head (s : str) (c : char) (t : str) :
  strip s = c :: t -> is_space c = false.
Proof.
  unfold strip. destruct (lstrip s) as [|x u] eqn:L.
  - discriminate.
  - pose proof (lstrip_head _ _ _ L) as Hx.
    destruct (rstrip_cons x u Hx) as (y & E). rewrite E.
    intros H; injection H as <- _. exact Hx.
Qed.


(** A text that starts and ends with characters that are not whitespace is
    its own stripped text. *)
Lemma strip_fixed (a : char) (m : str) (z : char) :
  is_space a = false -> is_space z = false ->
  strip (a :: m ++ [z]) = a :: m ++ [z].
Proof.
  intros Ha Hz. unfold strip. rewrite lstrip_keep by exact Ha.
  change (a :: m ++ [z]) with ((a :: m) ++ [z]).
  apply rstrip_snoc_keep. exact Hz.
Qed.

End StripFacts.

(* ================================================================== *)
(** * Facts about the matcher and the scanner *)
(* ================================================================== *)

Module ReFacts.
Import Text Re Direct TextFacts.

Lemma last_char_app (w1 w2 : str) (p : option char) :
  last_char (w1 ++ w2) p = last_char w2 (last_char w1 p).
Proof. unfold last_char. apply fold_left_app. Qed.

Lemma reach_refl (st : mstate) : reach st st.
Proof. exists []. split; reflexivity. Qed.

Lemma reach_trans (a b c : mstate) : reach a b -> reach b c -> reach a c.
Proof.
  intros (w1 & E1 & P1) (w2 & E2 & P2). exists (w1 ++ w2). split.
  - rewrite E1, E2. apply app_assoc.
  - rewrite P2, P1. symmetry. apply last_char_app.
Qed.

Lemma reach_length (a b : mstate) :
  reach a b -> length (rest b) <= length (rest a).
Proof. intros (w & E & _). rewrite E, length_app. lia. Qed.

(** ** Where a match can end *)

Lemma lazy_dots_reach (da : bool) (k : mstate -> option mstate) (s : str) :
  forall p cs x,
    lazy_dots da k p s cs = Some x ->
    exists st', reach (MState p s cs) st' /\ k st' = Some x.
Proof.
  induction s as [|c s IH]; intros p cs x; simpl.
  - destruct (k (MState p [] cs)) eqn:K; [|discriminate].
    intros E; injection E as ->. eexists; split; [apply reach_refl | exact K].
  - destruct (k (MState p (c :: s) cs)) eqn:K.
    + intros E; injection E as ->. eexists; split; [apply reach_refl | exact K].
    + destruct (da || negb (char_eqb c nl)); [|discriminate].
      intros H. apply IH in H. destruct H as (st' & R & K').
      exists st'. split; [|exact K'].
      apply reach_trans with (b := MState (Some c) s cs); [|exact R].
      exists [c]. split; reflexivity.
Qed.

Lemma rmatch_reach (fl : flags) (r : regex) :
  forall k st x,
    rmatch fl r k st = Some x ->
    exists st', reach st st' /\ k st' = Some x.
Proof.
  induction r as [ |c| |r1 IH1 r2 IH2|r1 IH1 r2 IH2|n r1 IH1|r1 IH1| | ];
    intros k st x; simpl.
  - intros H. exists st. split; [apply reach_refl | exact H].
  - destruct (rest st) as [|c' s'] eqn:R; [discriminate|].
    destruct (char_eqb c' c); [|discriminate].
    intros H. eexists; split; [|exact H].
    exists [c']. split; [exact R | reflexivity].
  - intros H. destruct st as [p s cs]. simpl in H.
    apply lazy_dots_reach in H. exact H.
  - intros H. apply IH1 in H. destruct H as (st1 & R1 & H).
    apply IH2 in H. destruct H as (st2 & R2 & H).
    exists st2. split; [eapply reach_trans; eassumption | exact H].
  - destruct (rmatch fl r1 k st) eqn:M.
    + intros E; injection E as ->. apply IH1 in M. exact M.
    + apply IH2.
  - intros H. apply IH1 in H. destruct H as (st1 & R1 & H).
    eexists; split; [|exact H].
    destruct R1 as (w & E & P). exists w. split; assumption.
  - destruct (rmatch fl r1 (fun st' => Some st') st); [|discriminate].
    intros H. exists st. split; [apply reach_refl | exact H].
  - destruct (at_bol fl st); [|discriminate].
    intros H. exists st. split; [apply reach_refl | exact H].
  - destruct (rest st); [|discriminate].
    intros H. exists st. split; [apply reach_refl | exact H].
Qed.

Lemma match_at_reach (fl : flags) (r : regex) (ma : bool) (st e : mstate) :
  match_at fl r ma st = Some e ->
  reach st e /\ (ma = true -> length (rest e) < length (rest st)).
Proof.
  unfold match_at. intros H. apply rmatch_reach in H.
  destruct H as (st' & R & A). unfold accept in A.
  destruct (ma && (length (rest st') =? length (rest st))) eqn:C;
    [discriminate|].
  injection A as <-. split; [exact R|].
  intros ->. simpl in C. apply Nat.eqb_neq in C.
  apply reach_length in R. lia.
Qed.

(** ** The scanner does not run out of rounds *)

Lemma scan_fuel_enough (fl : flags) (r : regex) :
  forall f1 f2 ma st,
    budget ma st <= f1 -> budget ma st <= f2 ->
    scan_fuel f1 fl r ma st = scan_fuel f2 fl r ma st.
Proof.
  induction f1 as [|f1 IH]; intros f2 ma st B1 B2.
  - unfold budget in B1. destruct ma; lia.
  - destruct f2 as [|f2]; [unfold budget in B2; destruct ma; lia|].
    simpl. destruct (match_at fl r ma st) as [e|] eqn:M.
    + f_equal. apply match_at_reach in M. destruct M as (R & A).
      apply reach_length in R.
      assert (B : budget (is_empty_match st e) (restart e) < budget ma st).
      { unfold budget, is_empty_match, restart; simpl.
        destruct (length (rest e) =? length (rest st)) eqn:C.
        - apply Nat.eqb_eq in C. destruct ma; [specialize (A eq_refl)|]; lia.
        - apply Nat.eqb_neq in C. destruct ma; lia. }
      apply IH; lia.
    + destruct (rest st) as [|c s'] eqn:R; [reflexivity|].
      assert (B : budget false (MState (Some c) s' []) < budget ma st).
      { unfold budget; simpl. rewrite R; simpl. destruct ma; lia. }
      apply IH; lia.
Qed.

(** The scanner, one round at a time. *)
Lemma scan_eq (fl : flags) (r : regex) (ma : bool) (st : mstate) :
  scan fl r ma st =
  match match_at fl r ma st with
  | Some e => (st, e) :: scan fl r (is_empty_match st e) (restart e)
  | None =>
      match rest st with
      | [] => []
      | c :: s' => scan fl r false (MState (Some c) s' [])
      end
  end.
Proof.
  unfold scan at 1.
  assert (B : exists n, budget ma st = S n).
  { unfold budget. destruct ma; eexists; rewrite Nat.add_comm; reflexivity. }
  destruct B as (n & B). rewrite B. simpl.
  destruct (match_at fl r ma st) as [e|] eqn:M.
  - f_equal. unfold scan. apply scan_fuel_enough; [|lia].
    apply match_at_reach in M. destruct M as (R & A).
    apply reach_length in R.
    unfold budget, is_empty_match, restart in *; simpl.
    destruct (length (rest e) =? length (rest st)) eqn:C.
    + apply Nat.eqb_eq in C. destruct ma; [specialize (A eq_refl)|]; lia.
    + apply Nat.eqb_neq in C. destruct ma; lia.
  - destruct (rest st) as [|c s'] eqn:R; [reflexivity|].
    unfold scan. apply scan_fuel_enough; [|lia].
    unfold budget in *; simpl. rewrite R in B; simpl in B. destruct ma; lia.
Qed.

(** Every match the scanner reports starts at a position of the subject
    and is a match of the pattern there. *)
Lemma scan_fuel_sound (fl : flags) (r : regex) :
  forall fuel ma st m,
    In m (scan_fuel fuel fl r ma st) ->
    reach st (fst m) /\ exists ma', match_at fl r ma' (fst m) = Some (snd m).
Proof.
  induction fuel as [|fuel IH]; intros ma st m; simpl; [tauto|].
  destruct (match_at fl r ma st) as [e|] eqn:M.
  - intros [<- | H].
    + simpl. split; [apply reach_refl | exists ma; exact M].
    + apply IH in H. destruct H as (R & H). split; [|exact H].
      apply match_at_reach in M. destruct M as (R' & _).
      eapply reach_trans; [|exact R].
      destruct R' as (w & E & P). exists w. split; assumption.
  - destruct (rest st) as [|c s'] eqn:R; [intros []|].
    intros H. apply IH in H. destruct H as (R' & H). split; [|exact H].
    eapply reach_trans; [|exact R'].
    exists [c]. split; [exact R | reflexivity].
Qed.


(** ** Literal words and the lazy wildcard *)

Lemma rmatch_word (fl : flags) (w : str) :
  forall k st,
    rmatch fl (word w) k st =
    if starts_with w (rest st)
    then k (MState (last_char w (prev st)) (skipn (length w) (rest st))
              (caps st))
    else None.
Proof.
  induction w as [|a w IH]; intros k [p s cs]; simpl; [reflexivity|].
  destruct s as [|c s]; [reflexivity|].
  unfold char_eqb. rewrite (N.eqb_sym c a).
  destruct (N.eqb a c) eqn:E; [|reflexivity].
  apply N.eqb_eq in E. subst c.
  rewrite IH. simpl. reflexivity.
Qed.

Lemma lazy_dots_hit (da : bool) (k : mstate -> option mstate)
    (p : option char) (s : str) (cs : list (nat * str)) (e : mstate) :
  k (MState p s cs) = Some e -> lazy_dots da k p s cs = Some e.
Proof. intros H. destruct s; simpl; rewrite H; reflexivity. Qed.

Lemma lazy_dots_skip (da : bool) (k : mstate -> option mstate)
    (cs : list (nat * str)) (s : str) :
  forall w p,
    da = true \/ ~ In nl w ->
    (forall w1 c w2, w = w1 ++ c :: w2 ->
       k (MState (last_char w1 p) (c :: w2 ++ s) cs) = None) ->
    lazy_dots da k p (w ++ s) cs = lazy_dots da k (last_char w p) s cs.
Proof.
  induction w as [|c w IH]; intros p D H; [reflexivity|].
  simpl. pose proof (H [] c w eq_refl) as H0.
  change (last_char [] p) with p in H0. rewrite H0.
  assert (C : da || negb (char_eqb c nl) = true).
  { destruct D as [-> | D]; [reflexivity|].
    destruct (char_eqb c nl) eqn:E; [|apply orb_true_r].
    apply char_eqb_eq in E. exfalso. apply D. left. congruence. }
  rewrite C. apply IH.
  - destruct D as [D | D]; [left; exact D | right].
    intros I. apply D. right. exact I.
  - intros w1 c' w2 E. subst w. exact (H (c :: w1) c' w2 eq_refl).
Qed.

Lemma lazy_dots_none (da : bool) (k : mstate -> option mstate)
    (cs : list (nat * str)) :
  forall s p,
    (forall w1 w2, s = w1 ++ w2 -> k (MState (last_char w1 p) w2 cs) = None) ->
    lazy_dots da k p s cs = None.
Proof.
  induction s as [|c s IH]; intros p H; simpl.
  - pose proof (H [] [] eq_refl) as H0.
    change (last_char [] p) with p in H0. rewrite H0. reflexivity.
  - pose proof (H [] (c :: s) eq_refl) as H0.
    change (last_char [] p) with p in H0. rewrite H0.
    destruct (da || negb (char_eqb c nl)); [|reflexivity].
    apply IH. intros w1 w2 E. subst s. exact (H (c :: w1) w2 eq_refl).
Qed.

(** ** The first occurrence of a word, the first stop *)

Lemma split_at_some (w : str) :
  forall s a b,
    split_at w s = Some (a, b) ->
    s = a ++ w ++ b /\
    forall a1 c a2, a = a1 ++ c :: a2 ->
      starts_with w (c :: a2 ++ w ++ b) = false.
Proof.
  induction s as [|c s IH]; intros a b; simpl.
  - destruct (starts_with w []) eqn:S; [|discriminate].
    intros E; injection E as <- <-. split.
    + apply starts_with_skipn in S. exact S.
    + intros [|? ?] ? ? E; discriminate.
  - destruct (starts_with w (c :: s)) eqn:S.
    + intros E; injection E as <- <-. split.
      * apply starts_with_skipn in S. exact S.
      * intros [|? ?] ? ? E; discriminate.
    + destruct (split_at w s) as [[a' b']|] eqn:P; [|discriminate].
      intros E; injection E as <- <-.
      destruct (IH a' b' eq_refl) as (E & H). split.
      * simpl. rewrite <- E. reflexivity.
      * intros [|x a1] c' a2 E'; injection E' as -> ->.
        -- rewrite <- E. exact S.
        -- apply (H a1 c' a2 eq_refl).
Qed.

Lemma split_at_none (w : str) :
  forall s, split_at w s = None ->
    forall s1 s2, s = s1 ++ s2 -> starts_with w s2 = false.
Proof.
  induction s as [|c s IH]; simpl.
  - destruct (starts_with w []) eqn:S; [discriminate|].
    intros _ s1 s2 E. symmetry in E. apply app_eq_nil in E.
    destruct E as (_ & ->). exact S.
  - destruct (starts_with w (c :: s)) eqn:S; [discriminate|].
    destruct (split_at w s) as [[a b]|] eqn:P; [discriminate|].
    intros _ [|x s1] s2 E; simpl in E.
    + subst s2. exact S.
    + injection E as -> ->. apply (IH eq_refl s1 s2 eq_refl).
Qed.

(** The first occurrence is where the text is a word-free prefix followed
    by the word. *)
Lemma split_at_first (w a b : str) :
  (forall a1 c a2, a = a1 ++ c :: a2 ->
     starts_with w (c :: a2 ++ w ++ b) = false) ->
  split_at w (a ++ w ++ b) = Some (a, b).
Proof.
  induction a as [|c a IH]; intros H.
  - simpl. destruct (w ++ b) eqn:E; simpl.
    + rewrite <- E, starts_with_app. f_equal. f_equal.
      rewrite <- (skipn_exact w b) at 2. rewrite E. reflexivity.
    + rewrite <- E, starts_with_app. f_equal. f_equal. apply skipn_exact.
  - simpl. rewrite (H [] c a eq_refl). rewrite IH; [reflexivity|].
    intros a1 c' a2 E. subst a. exact (H (c :: a1) c' a2 eq_refl).
Qed.

Lemma until_stop_spec (stop : str) :
  forall s b r,
    until_stop stop s = (b, r) ->
    s = b ++ r /\ stops stop r = true /\
    forall b1 c b2, b = b1 ++ c :: b2 -> stops stop (c :: b2 ++ r) = false.
Proof.
  induction s as [|c s IH]; intros b r.
  - simpl. intros E; injection E as <- <-.
    repeat split. intros [|? ?] ? ? E; discriminate.
  - unfold until_stop; fold until_stop.
    destruct (stops stop (c :: s)) eqn:S.
    + intros E; injection E as <- <-.
      repeat split; [exact S|]. intros [|? ?] ? ? E; discriminate.
    + destruct (until_stop stop s) as [b' r'] eqn:U.
      intros E; injection E as <- <-.
      destruct (IH b' r' eq_refl) as (E & T & H).
      repeat split; [simpl; congruence | exact T |].
      intros [|x b1] c' b2 E'; injection E' as -> ->.
      * rewrite <- E. exact S.
      * apply (H b1 c' b2 eq_refl).
Qed.

Lemma until_stop_first (stop b r : str) :
  stops stop r = true ->
  (forall b1 c b2, b = b1 ++ c :: b2 -> stops stop (c :: b2 ++ r) = false) ->
  until_stop stop (b ++ r) = (b, r).
Proof.
  intros T. induction b as [|c b IH]; intros H.
  - simpl. destruct r; unfold until_stop; fold until_stop;
      rewrite T; reflexivity.
  - simpl app. unfold until_stop; fold until_stop.
    rewrite (H [] c b eq_refl). rewrite IH; [reflexivity|].
    intros b1 c' b2 E. subst b. exact (H (c :: b1) c' b2 eq_refl).
Qed.

End ReFacts.

(* ================================================================== *)
(** * The patterns match what their direct readings say *)
(* ================================================================== *)

Module DirectFacts.
Import Text Re Direct TextFacts ReFacts.

(** [.*?] followed by a literal word stops at the first occurrence of the
    word after which the rest of the pattern matches.  Without DOTALL the
    text before it must not hold a newline. *)
Lemma lazy_dots_word_hit (fl : flags) (term : str)
    (K : mstate -> option mstate)
    (G : mstate -> mstate) (p : option char) (s : str)
    (cs : list (nat * str)) (h r : str) (e : mstate) :
  dotall fl = true \/ ~ In nl h ->
  (forall x, prev (G x) = prev x /\ rest (G x) = rest x) ->
  split_at term s = Some (h, r) ->
  K (MState (last_char (h ++ term) p) r
       (caps (G (MState (last_char h p) (term ++ r) cs)))) = Some e ->
  lazy_dots (dotall fl) (fun st' => rmatch fl (word term) K (G st')) p s cs
  = Some e.
Proof.
  intros Hd HG S HK. apply split_at_some in S. destruct S as (-> & S).
  rewrite lazy_dots_skip.
  - apply lazy_dots_hit. rewrite rmatch_word.
    destruct (HG (MState (last_char h p) (term ++ r) cs)) as (P & R).
    rewrite R, P. simpl. rewrite starts_with_app, skipn_exact.
    rewrite <- last_char_app. exact HK.
  - exact Hd.
  - intros w1 c w2 E. rewrite rmatch_word.
    destruct (HG (MState (last_char w1 p) (c :: w2 ++ term ++ r) cs)) as (_ & R).
    rewrite R. simpl rest. rewrite (S w1 c w2 E). reflexivity.
Qed.

Lemma lazy_dots_word_none (fl : flags) (term : str)
    (K : mstate -> option mstate)
    (G : mstate -> mstate) (p : option char) (s : str)
    (cs : list (nat * str)) :
  (forall x, prev (G x) = prev x /\ rest (G x) = rest x) ->
  split_at term s = None ->
  lazy_dots (dotall fl) (fun st' => rmatch fl (word term) K (G st')) p s cs
  = None.
Proof.
  intros HG S. apply lazy_dots_none. intros w1 w2 E.
  rewrite rmatch_word.
  destruct (HG (MState (last_char w1 p) w2 cs)) as (_ & R). rewrite R.
  simpl rest. rewrite (split_at_none _ _ S w1 w2 E). reflexivity.
Qed.

Section Patterns.
Variable fl : flags.
Hypothesis Hdotall : dotall fl = true.

(** ** [open.*?close] *)

Lemma span_match_at (open close : str) (ma : bool) (st : mstate) :
  open <> [] ->
  match_at fl (word open >> AnyLazy >> word close) ma st
  = span_match open close st.
Proof.
  intros Hopen. unfold match_at, span_match.
  change (rmatch fl (word open >> AnyLazy >> word close) (accept ma st) st)
    with (rmatch fl (word open)
            (fun st1 => lazy_dots (dotall fl)
               (fun st' => rmatch fl (word close) (accept ma st) st')
               (prev st1) (rest st1) (caps st1)) st).
  rewrite rmatch_word.
  destruct (starts_with open (rest st)) eqn:S; [|reflexivity].
  cbn [prev rest caps].
  destruct (split_at close (skipn (length open) (rest st))) as [[h r]|] eqn:P.
  - apply (lazy_dots_word_hit fl close (accept ma st) (fun x => x)) with (h := h) (r := r).
    + left; exact Hdotall.
    + intros x; split; reflexivity.
    + exact P.
    + cbn [caps]. unfold accept. cbn [rest].
      apply starts_with_skipn in S. apply split_at_some in P.
      destruct P as (P & _).
      assert (L : length r < length (rest st)).
      { rewrite S, P. rewrite !length_app.
        destruct open; [congruence|]. simpl. lia. }
      replace (length r =? length (rest st)) with false
        by (symmetry; apply Nat.eqb_neq; lia).
      rewrite andb_false_r. rewrite !last_char_app. reflexivity.
  - apply (lazy_dots_word_none fl close (accept ma st) (fun x => x)).
    + intros x; split; reflexivity.
    + exact P.
Qed.

(** ** The block patterns *)

Hypothesis Hmultiline : multiline fl = true.

Lemma lookahead_stops (stop : str) (k : mstate -> option mstate)
    (st : mstate) :
  rmatch fl (Ahead (Alt (Lit nl >> Bol >> word stop) Eos)) k st
  = if stops stop (rest st) then k st else None.
Proof.
  destruct st as [p [|c s] cs]; [reflexivity|].
  change (rmatch fl (Ahead (Alt (Lit nl >> Bol >> word stop) Eos)) k
            (MState p (c :: s) cs))
    with (match
            match
              (if char_eqb c nl
               then if at_bol fl (MState (Some c) s cs)
                    then rmatch fl (word stop) (fun st' => Some st')
                           (MState (Some c) s cs)
                    else None
               else None)
            with
            | Some e => Some e
            | None => None
            end
          with
          | Some _ => k (MState p (c :: s) cs)
          | None => None
          end).
  cbn [stops starts_with rest]. unfold char_eqb at 2.
  rewrite (N.eqb_sym nl c). fold (char_eqb c nl).
  destruct (char_eqb c nl) eqn:E; [|reflexivity].
  apply char_eqb_eq in E. subst c.
  unfold at_bol. cbn [prev]. rewrite Hmultiline, char_eqb_refl.
  cbn [andb]. rewrite rmatch_word. cbn [rest].
  destruct (starts_with stop s); reflexivity.
Qed.

Lemma body_then_lookahead (stop : str) (k : mstate -> option mstate)
    (st : mstate) (b r : str) (e : mstate) :
  until_stop stop (rest st) = (b, r) ->
  k (MState (last_char b (prev st)) r ((2, b) :: caps st)) = Some e ->
  rmatch fl (Group 2 AnyLazy
             >> Ahead (Alt (Lit nl >> Bol >> word stop) Eos)) k st = Some e.
Proof.
  intros U HK.
  apply until_stop_spec in U. destruct U as (E & T & H).
  destruct st as [p s cs]. cbn [prev rest caps] in *. subst s.
  change (rmatch fl (Group 2 AnyLazy
                     >> Ahead (Alt (Lit nl >> Bol >> word stop) Eos)) k
            (MState p (b ++ r) cs))
    with (lazy_dots (dotall fl)
            (fun st' =>
               rmatch fl (Ahead (Alt (Lit nl >> Bol >> word stop) Eos)) k
                 (set_group 2 (consumed (MState p (b ++ r) cs) st') st'))
            p (b ++ r) cs).
  rewrite Hdotall. rewrite lazy_dots_skip.
  - apply lazy_dots_hit. rewrite lookahead_stops.
    cbn [set_group rest prev caps]. rewrite T.
    unfold consumed. cbn [rest].
    replace (length (b ++ r) - length r) with (length b)
      by (rewrite length_app; lia).
    rewrite firstn_exact. exact HK.
  - left; reflexivity.
  - intros b1 c b2 Eb. rewrite lookahead_stops.
    cbn [set_group rest]. rewrite (H b1 c b2 Eb). reflexivity.
Qed.

Lemma block_match_at (marker term stop : str) (ma : bool) (st : mstate) :
  marker <> [] ->
  match_at fl (block_pattern marker term stop) ma st
  = block_match fl marker term stop st.
Proof.
  intros Hm. unfold match_at, block_pattern, block_match.
  set (tail := Group 2 AnyLazy
               >> Ahead (Alt (Lit nl >> Bol >> word stop) Eos)).
  change (rmatch fl (Bol >> word marker >> Group 1 AnyLazy >> word term >> tail)
            (accept ma st) st)
    with (if at_bol fl st
          then rmatch fl (word marker)
                 (fun st1 =>
                    lazy_dots (dotall fl)
                      (fun st' =>
                         rmatch fl (word term) (rmatch fl tail (accept ma st))
                           (set_group 1 (consumed st1 st') st'))
                      (prev st1) (rest st1) (caps st1)) st
          else None).
  destruct (at_bol fl st); [|reflexivity].
  rewrite rmatch_word. cbn [andb].
  destruct (starts_with marker (rest st)) eqn:S; [|reflexivity].
  cbn [prev rest caps].
  set (st1 := MState (last_char marker (prev st))
                (skipn (length marker) (rest st)) (caps st)).
  destruct (split_at term (skipn (length marker) (rest st)))
    as [[h r2]|] eqn:P.
  - destruct (until_stop stop r2) as [b r3] eqn:U.
    apply (lazy_dots_word_hit fl term (rmatch fl tail (accept ma st))
             (fun st' => set_group 1 (consumed st1 st') st'))
      with (h := h) (r := r2).
    + left; exact Hdotall.
    + intros x; split; reflexivity.
    + exact P.
    + cbn [set_group caps]. unfold consumed, st1. cbn [rest].
      pose proof (split_at_some _ _ _ _ P) as (Es & _).
      rewrite Es.
      replace (length (h ++ term ++ r2) - length (term ++ r2))
        with (length h) by (rewrite !length_app; lia).
      rewrite firstn_exact.
      apply body_then_lookahead with (b := b) (r := r3); [exact U|].
      cbn [prev rest caps]. unfold accept.
      apply starts_with_skipn in S.
      apply until_stop_spec in U. destruct U as (Eu & _ & _).
      assert (L : length r3 < length (rest st)).
      { rewrite S, Es, Eu. rewrite !length_app.
        destruct marker; [congruence|]. simpl. lia. }
      cbn [rest].
      replace (length r3 =? length (rest st)) with false
        by (symmetry; apply Nat.eqb_neq; lia).
      rewrite andb_false_r. rewrite !last_char_app. reflexivity.
  - apply (lazy_dots_word_none fl term (rmatch fl tail (accept ma st))
             (fun st' => set_group 1 (consumed st1 st') st')).
    + intros x; split; reflexivity.
    + exact P.
Qed.

End Patterns.

End DirectFacts.

(* ================================================================== *)
(** * The parsers *)
(* ================================================================== *)

Module ParseFacts.
Import Text Re Direct Journal TextFacts StripFacts ReFacts DirectFacts.

(** ** The three patterns *)

Lemma org_match_at (ma : bool) (st : mstate) :
  match_at multi org_pattern ma st
  = block_match multi org_marker [gt; nl] org_stop st.
Proof.
  rewrite <- (block_match_at multi eq_refl eq_refl org_marker [gt; nl]
                org_stop ma st) by discriminate.
  reflexivity.
Qed.

Lemma summary_match_at (ma : bool) (st : mstate) :
  match_at multi summary_pattern ma st
  = block_match multi md_marker [nl] md_marker st.
Proof.
  rewrite <- (block_match_at multi eq_refl eq_refl md_marker [nl]
                md_marker ma st) by discriminate.
  reflexivity.
Qed.

Lemma think_match_at (ma : bool) (st : mstate) :
  match_at dotall_only think_pattern ma st
  = span_match think_open think_close st.
Proof.
  rewrite <- (span_match_at dotall_only eq_refl think_open think_close ma st)
    by discriminate.
  reflexivity.
Qed.

(** ** Scanning for blocks *)

Lemma block_match_inv (fl : flags) (marker term stop : str)
    (st e : mstate) :
  block_match fl marker term stop st = Some e ->
  exists h b,
    at_bol fl st = true /\
    rest st = marker ++ h ++ term ++ b ++ rest e /\
    (forall a1 c a2, h = a1 ++ c :: a2 ->
       starts_with term (c :: a2 ++ term ++ b ++ rest e) = false) /\
    stops stop (rest e) = true /\
    (forall b1 c b2, b = b1 ++ c :: b2 ->
       stops stop (c :: b2 ++ rest e) = false) /\
    prev e = last_char (marker ++ h ++ term ++ b) (prev st) /\
    caps e = (2, b) :: (1, h) :: caps st.
Proof.
  unfold block_match.
  destruct (at_bol fl st) eqn:B; [|discriminate]. cbn [andb].
  destruct (starts_with marker (rest st)) eqn:S; [|discriminate].
  destruct (split_at term (skipn (length marker) (rest st)))
    as [[h r2]|] eqn:P; [|discriminate].
  destruct (until_stop stop r2) as [b r3] eqn:U.
  intros E; injection E as <-. cbn [rest prev caps].
  apply starts_with_skipn in S. apply split_at_some in P.
  destruct P as (P & Hh). apply until_stop_spec in U.
  destruct U as (U & T & Hb). subst r2.
  exists h, b. repeat split; try assumption.
  rewrite S at 1. rewrite P. reflexivity.
Qed.

Lemma block_match_shorter (fl : flags) (marker term stop : str)
    (st e : mstate) :
  marker <> [] ->
  block_match fl marker term stop st = Some e ->
  is_empty_match st e = false.
Proof.
  intros Hm H. apply block_match_inv in H.
  destruct H as (h & b & _ & E & _). unfold is_empty_match.
  apply Nat.eqb_neq. rewrite E, !length_app.
  destruct marker; [congruence|]. simpl. lia.
Qed.

Section BlockScan.
Variables (fl : flags) (r : regex) (marker term stop : str).
Hypothesis Hr : forall ma st,
  match_at fl r ma st = block_match fl marker term stop st.
Hypothesis Hmarker : marker <> [].

Lemma block_scan_eq (ma : bool) (st : mstate) :
  scan fl r ma st =
  match block_match fl marker term stop st with
  | Some e => (st, e) :: scan fl r false (restart e)
  | None =>
      match rest st with
      | [] => []
      | c :: s' => scan fl r false (MState (Some c) s' [])
      end
  end.
Proof.
  rewrite scan_eq, Hr.
  destruct (block_match fl marker term stop st) as [e|] eqn:M;
    [|reflexivity].
  rewrite (block_match_shorter _ _ _ _ _ _ Hmarker M). reflexivity.
Qed.

End BlockScan.

End ParseFacts.

Module SummaryFacts.
Import Text Re Direct Journal TextFacts StripFacts ReFacts DirectFacts ParseFacts.

(** ** Texts cut by a newline *)

Lemma starts_with_cut (w u x y : str) :
  ~ In nl w ->
  starts_with w (u ++ nl :: x) = starts_with w (u ++ nl :: y).
Proof.
  revert u. induction w as [|a w IH]; intros u H; [reflexivity|].
  destruct u as [|c u]; simpl.
  - destruct (char_eqb a nl) eqn:E; [|reflexivity].
    apply char_eqb_eq in E. exfalso. apply H. left. exact E.
  - rewrite (IH u); [reflexivity|]. intros I. apply H. right. exact I.
Qed.

Lemma line_closed_tail (c : char) (u : str) :
  line_closed (c :: u) -> line_closed u.
Proof.
  intros [E | (u' & E)]; [discriminate|].
  destruct u' as [|x u']; simpl in E; injection E as -> ->.
  - left; reflexivity.
  - right. exists u'. reflexivity.
Qed.

Lemma line_closed_suffix (a u : str) : line_closed (a ++ u) -> line_closed u.
Proof.
  induction a as [|c a IH]; intros H; [exact H|].
  apply IH. apply line_closed_tail with (c := c). exact H.
Qed.

Lemma line_closed_has_nl (u : str) :
  line_closed u -> u <> [] -> In nl u.
Proof.
  intros [-> | (u' & ->)] H; [congruence|].
  apply in_or_app. right. left. reflexivity.
Qed.

(** The first newline of a text. *)
Lemma split_first_nl (u : str) :
  In nl u -> exists h v, u = h ++ nl :: v /\ ~ In nl h.
Proof.
  induction u as [|c u IH]; intros H; [destruct H|].
  destruct (N.eq_dec c nl) as [-> | N].
  - exists [], u. split; [reflexivity | intros []].
  - destruct H as [H | H]; [congruence|].
    destruct (IH H) as (h & v & -> & Hh).
    exists (c :: h), v. split; [reflexivity|].
    intros [E | I]; [congruence | exact (Hh I)].
Qed.

Lemma split_at_nl (h t : str) :
  ~ In nl h -> split_at [nl] (h ++ nl :: t) = Some (h, t).
Proof.
  intros H. apply (split_at_first [nl] h t).
  intros a1 c a2 E. simpl.
  destruct (char_eqb nl c) eqn:C; [|reflexivity].
  apply char_eqb_eq in C. exfalso. apply H. subst h.
  apply in_or_app. right. left. symmetry. exact C.
Qed.

(** ** The body of a block, with and without the text after it *)

Lemma until_stop_extend (stop q : str) :
  stop <> [] -> ~ In nl stop -> starts_with stop q = true ->
  forall v, line_closed v ->
    exists b v',
      v = b ++ v' /\ line_closed v' /\
      until_stop stop (v ++ nl :: q) = (b, v' ++ nl :: q) /\
      until_stop stop (v ++ [nl])
      = match v' with
        | [] => (v ++ [nl], [])
        | _ :: _ => (b, v' ++ [nl])
        end.
Proof.
  intros Hs Hn Hq. induction v as [|c v IH]; intros L.
  - exists [], []. repeat split; [left; reflexivity | |].
    + simpl app. unfold until_stop. cbn [stops starts_with].
      rewrite char_eqb_refl, Hq. reflexivity.
    + simpl app. unfold until_stop. cbn [stops starts_with].
      rewrite char_eqb_refl. destruct stop; [congruence|]. reflexivity.
  - pose proof (line_closed_tail _ _ L) as L'.
    destruct (IH L') as (b & v' & E & Lv & U2 & U1).
    simpl app. unfold until_stop; fold until_stop.
    assert (S : stops stop (c :: v ++ nl :: q) = stops stop (c :: v ++ [nl])).
    { cbn [stops starts_with]. f_equal. apply starts_with_cut. exact Hn. }
    rewrite <- S.
    destruct (stops stop (c :: v ++ nl :: q)) eqn:T.
    + exists [], (c :: v). repeat split. exact L.
    + rewrite U2, U1. exists (c :: b), v'. repeat split.
      * simpl. congruence.
      * exact Lv.
      * destruct v'; reflexivity.
Qed.


(** ** The summary document, block by block *)

Local Abbreviation sblock p s :=
  (block_match multi md_marker [nl] md_marker (MState p s [])).
Local Abbreviation sscan p s :=
  (summary_loop (scan multi summary_pattern false (MState p s []))).

(** What one block of the summary document contributes. *)
Local Abbreviation sitem h b :=
  (if nonempty (strip b)
   then [Entry (Some (strip h)) (heading_filename (strip h)) (strip b)]
   else []).

Lemma sscan_some (p : option char) (s : str) (pe : option char)
    (r h b : str) :
  sblock p s = Some (MState pe r [(2, b); (1, h)]) ->
  sscan p s = sitem h b ++ sscan pe r.
Proof.
  intros M.
  rewrite (block_scan_eq multi summary_pattern md_marker [nl] md_marker
             summary_match_at ltac:(discriminate)).
  rewrite M. cbn [summary_loop]. unfold group. cbn [snd caps lookup Nat.eqb].
  unfold restart. cbn [prev rest].
  destruct (nonempty (strip b)); reflexivity.
Qed.

Lemma sscan_none (p : option char) (s : str) :
  sblock p s = None ->
  sscan p s = match s with
              | [] => []
              | c :: s' => sscan (Some c) s'
              end.
Proof.
  intros M.
  rewrite (block_scan_eq multi summary_pattern md_marker [nl] md_marker
             summary_match_at ltac:(discriminate)).
  rewrite M. cbn [rest]. destruct s; reflexivity.
Qed.

Lemma sscan_nil (p : option char) : sscan p [] = [].
Proof.
  rewrite sscan_none; [reflexivity|].
  unfold block_match. cbn [rest starts_with md_marker].
  rewrite andb_false_r. reflexivity.
Qed.

Lemma sscan_nl (p : option char) : sscan p [nl] = [].
Proof.
  rewrite sscan_none; [apply sscan_nil|].
  unfold block_match. cbn [rest].
  replace (starts_with md_marker [nl]) with false by reflexivity.
  rewrite andb_false_r. reflexivity.
Qed.

(** At the start of a line it does not matter which line it is. *)
Lemma sscan_bol (s : str) : sscan (Some nl) s = sscan None s.
Proof.
  destruct (sblock None s) as [[pe r cs]|] eqn:M.
  - pose proof M as M'. apply block_match_inv in M'.
    destruct M' as (h & b & _ & _ & _ & _ & _ & _ & C).
    cbn [caps] in C. subst cs.
    rewrite (sscan_some None s pe r h b M).
    apply sscan_some. etransitivity; [|exact M]. reflexivity.
  - rewrite (sscan_none None s M). apply sscan_none.
    etransitivity; [|exact M]. reflexivity.
Qed.

Lemma summary_block_cut (p : option char) (u q : str) :
  line_closed u -> starts_with md_marker q = true ->
  (sblock p (u ++ nl :: q) = None /\ sblock p (u ++ [nl]) = None)
  \/ exists h b v' pe,
       line_closed v' /\ length v' < length u /\
       sblock p (u ++ nl :: q)
       = Some (MState pe (v' ++ nl :: q) [(2, b); (1, h)]) /\
       match v' with
       | [] => exists pe1,
           sblock p (u ++ [nl])
           = Some (MState pe1 [] [(2, b ++ [nl]); (1, h)])
       | _ :: _ =>
           sblock p (u ++ [nl])
           = Some (MState pe (v' ++ [nl]) [(2, b); (1, h)])
       end.
Proof.
  intros L Hq. unfold block_match. cbn [rest prev caps].
  destruct (at_bol multi (MState p (u ++ nl :: q) [])) eqn:B.
  2:{ left. split; [reflexivity|].
      change (at_bol multi (MState p (u ++ [nl]) []))
        with (at_bol multi (MState p (u ++ nl :: q) [])).
      rewrite B. reflexivity. }
  change (at_bol multi (MState p (u ++ [nl]) []))
    with (at_bol multi (MState p (u ++ nl :: q) [])).
  rewrite B. cbn [andb].
  rewrite (starts_with_cut md_marker u q [])
    by (intros [E | [E | []]]; discriminate).
  destruct (starts_with md_marker (u ++ [nl])) eqn:S;
    [|left; split; reflexivity].
  right.
  destruct u as [|c1 [|c2 u2]].
  - discriminate.
  - destruct L as [E | (u' & E)]; [discriminate|].
    destruct u' as [|? [|? ?]]; try discriminate.
    injection E as ->. discriminate.
  - cbn [app starts_with md_marker] in S.
    apply andb_true_iff in S. destruct S as (S1 & S).
    apply andb_true_iff in S. destruct S as (S2 & _).
    apply char_eqb_eq in S1, S2. subst c1 c2.
    assert (L2 : line_closed u2).
    { apply (line_closed_suffix [35%N; 32%N]). exact L. }
    assert (N2 : u2 <> []).
    { intros ->. destruct L as [E | (u' & E)]; [discriminate|].
      destruct u' as [|? [|? [|? ?]]]; try discriminate. }
    destruct (split_first_nl u2 (line_closed_has_nl u2 L2 N2))
      as (h & v & -> & Hh).
    assert (Lv : line_closed v).
    { apply (line_closed_suffix (h ++ [nl])). rewrite <- app_assoc. exact L2. }
    destruct (until_stop_extend md_marker q ltac:(discriminate)
                ltac:(intros [E | [E | []]]; discriminate) Hq v Lv)
      as (b & v' & Ev & Lv' & U2 & U1).
    exists h, b, v'.
    change (skipn (length md_marker) ((35%N :: 32%N :: h ++ nl :: v) ++ nl :: q))
      with ((h ++ nl :: v) ++ nl :: q).
    change (skipn (length md_marker) ((35%N :: 32%N :: h ++ nl :: v) ++ [nl]))
      with ((h ++ nl :: v) ++ [nl]).
    rewrite <- !app_assoc. cbn [app].
    rewrite !split_at_nl by exact Hh.
    rewrite U2, U1.
    eexists. split; [exact Lv'|]. split.
    { rewrite Ev. cbn [length]. rewrite !length_app. cbn [length].
      rewrite length_app. lia. }
    split; [reflexivity|].
    destruct v' as [|x v'].
    + rewrite app_nil_r in Ev. subst b. eexists. reflexivity.
    + reflexivity.
Qed.

Lemma sscan_cut (q : str) :
  starts_with md_marker q = true ->
  forall n u p,
    length u <= n -> line_closed u ->
    sscan p (u ++ nl :: q) = sscan p (u ++ [nl]) ++ sscan (Some nl) q.
Proof.
  intros Hq. induction n as [|n IH]; intros u p Hn L.
  - destruct u; [|simpl in Hn; lia]. cbn [app].
    rewrite sscan_nl. cbn [app]. apply sscan_none.
    unfold block_match. cbn [rest].
    replace (starts_with md_marker (nl :: q)) with false by reflexivity.
    rewrite andb_false_r. reflexivity.
  - destruct (summary_block_cut p u q L Hq)
      as [(M2 & M1) | (h & b & v' & pe & Lv & Hv & M2 & M1)].
    + rewrite (sscan_none _ _ M2), (sscan_none _ _ M1).
      destruct u as [|c u]; cbn [app].
      * rewrite sscan_nil. reflexivity.
      * apply IH; [simpl in Hn; lia|].
        apply line_closed_tail with (c := c). exact L.
    + rewrite (sscan_some _ _ _ _ _ _ M2).
      rewrite (IH v' pe ltac:(lia) Lv).
      destruct v' as [|x v'].
      * destruct M1 as (pe1 & M1).
        rewrite (sscan_some _ _ _ _ _ _ M1).
        rewrite strip_snoc_space by reflexivity.
        cbn [app]. rewrite sscan_nl, sscan_nil, app_nil_r. reflexivity.
      * rewrite (sscan_some _ _ _ _ _ _ M1).
        rewrite <- app_assoc. reflexivity.
Qed.

(** Appending to a document of the Output Writer keeps its entries and
    adds those of the appended text. *)
Lemma summary_entries_app (d q : str) :
  blank_terminated d ->
  q = [] \/ starts_with md_marker q = true ->
  summary_entries (d ++ q) = summary_entries d ++ summary_entries q.
Proof.
  intros Hd Hq.
  change (sscan None (d ++ q) = sscan None d ++ sscan None q).
  destruct Hq as [-> | Hq].
  { rewrite app_nil_r, sscan_nil, app_nil_r. reflexivity. }
  destruct Hd as [-> | (d' & ->)].
  { rewrite sscan_nil. reflexivity. }
  replace ((d' ++ [nl; nl]) ++ q) with ((d' ++ [nl]) ++ nl :: q)
    by (rewrite <- !app_assoc; reflexivity).
  replace (d' ++ [nl; nl]) with ((d' ++ [nl]) ++ [nl])
    by (rewrite <- !app_assoc; reflexivity).
  rewrite (sscan_cut q Hq (length (d' ++ [nl])) (d' ++ [nl]) None (le_n _)).
  - rewrite sscan_bol. reflexivity.
  - right. exists d'. reflexivity.
Qed.


End SummaryFacts.

Module ThinkFacts.
Import Text Re Direct Journal TextFacts StripFacts ReFacts DirectFacts ParseFacts.

Local Abbreviation drop := (drop_spans think_open think_close).

Lemma drop_spans_skip (w s : str) : drop (length w) (w ++ s) = drop 0 s.
Proof.
  induction w as [|x w IH]; [reflexivity|]. simpl. exact IH.
Qed.

Lemma drop_spans_span (s h r : str) :
  starts_with think_open s = true ->
  split_at think_close (skipn (length think_open) s) = Some (h, r) ->
  drop 0 s = drop 0 r.
Proof.
  intros S P. pose proof (starts_with_skipn _ _ S) as E.
  pose proof (split_at_some _ _ _ _ P) as (E' & _).
  destruct s as [|x s]; [discriminate|].
  unfold drop_spans; fold drop_spans. rewrite S, P.
  rewrite E' in E. clear S P E'.
  set (w := tl think_open ++ h ++ think_close).
  assert (Es : s = w ++ r).
  { unfold w. rewrite <- !app_assoc. injection E as _ E. exact E. }
  replace (length think_open + length h + length think_close - 1)
    with (length w) by (unfold w; rewrite !length_app; simpl; lia).
  rewrite Es. apply drop_spans_skip.
Qed.

Lemma drop_spans_keep (x : char) (s : str) :
  span_match think_open think_close (MState None (x :: s) []) = None ->
  drop 0 (x :: s) = x :: drop 0 s.
Proof.
  unfold span_match. cbn [rest]. unfold drop_spans; fold drop_spans.
  destruct (starts_with think_open (x :: s)); [|reflexivity].
  destruct (split_at think_close (skipn (length think_open) (x :: s)))
    as [[h r]|]; [discriminate | reflexivity].
Qed.

Lemma span_match_prev (p q : option char) (s : str) (cs : list (nat * str)) :
  span_match think_open think_close (MState p s cs) = None ->
  span_match think_open think_close (MState q s []) = None.
Proof.
  unfold span_match. cbn [rest].
  destruct (starts_with think_open s); [|reflexivity].
  destruct (split_at think_close (skipn (length think_open) s)) as [[h r]|];
    [discriminate | reflexivity].
Qed.

Lemma splice_scan_think :
  forall n ma st w,
    length (rest st) <= n ->
    splice [] (w ++ rest st) (scan dotall_only think_pattern ma st)
    = w ++ drop 0 (rest st).
Proof.
  induction n as [|n IH]; intros ma st w Hn; rewrite scan_eq, think_match_at.
  - destruct (rest st) as [|x s] eqn:R; [|simpl in Hn; lia].
    unfold span_match. rewrite R. reflexivity.
  - destruct (span_match think_open think_close st) as [e|] eqn:M.
    + unfold span_match in M.
      destruct (starts_with think_open (rest st)) eqn:S; [|discriminate].
      destruct (split_at think_close (skipn (length think_open) (rest st)))
        as [[h r]|] eqn:P; [|discriminate].
      injection M as <-. cbn [splice fst snd rest].
      replace (length (w ++ rest st) - length (rest st)) with (length w)
        by (rewrite length_app; lia).
      rewrite firstn_exact. cbn [app]. f_equal.
      rewrite (drop_spans_span _ _ _ S P).
      assert (Hr : length r <= n).
      { pose proof (starts_with_skipn _ _ S) as E.
        pose proof (split_at_some _ _ _ _ P) as (E' & _).
        rewrite E' in E. rewrite E in Hn. rewrite !length_app in Hn.
        simpl in Hn. lia. }
      match goal with
      | |- context [scan _ _ ?m ?s] => exact (IH m s [] Hr)
      end.
    + destruct st as [p [|x s] cs]; cbn [rest] in *.
      * reflexivity.
      * rewrite (drop_spans_keep x s (span_match_prev _ _ _ _ M)).
        replace (w ++ x :: s) with ((w ++ [x]) ++ s)
          by (rewrite <- app_assoc; reflexivity).
        pose proof (IH false (MState (Some x) s []) (w ++ [x])) as H.
        cbn [rest] in H. rewrite H by (simpl in Hn; lia).
        rewrite <- app_assoc. reflexivity.
Qed.

(** [re.sub(r'<think>.*?</think>', '', s, flags=re.DOTALL)] removes the
    spans that [drop_spans] removes. *)
Lemma sub_think (s : str) :
  sub dotall_only think_pattern [] s = drop 0 s.
Proof.
  unfold sub, finditer.
  exact (splice_scan_think (length s) false (start_of s) [] (le_n _)).
Qed.

End ThinkFacts.


Module FilenameFacts.
Import Text Re Direct Journal TextFacts StripFacts ReFacts DirectFacts ParseFacts.

Lemma occurs_false (w : str) :
  forall s, occurs w s = false ->
    forall s1 s2, s = s1 ++ s2 -> starts_with w s2 = false.
Proof.
  induction s as [|c s IH]; simpl; intros H s1 s2 E.
  - symmetry in E. apply app_eq_nil in E. destruct E as (_ & ->).
    apply orb_false_iff in H. apply H.
  - apply orb_false_iff in H. destruct H as (H1 & H2).
    destruct s1 as [|x s1]; simpl in E.
    + subst s2. exact H1.
    + injection E as _ E. exact (IH H2 s1 s2 E).
Qed.


End FilenameFacts.

Module OrgFacts.
Import Text Re Direct Journal Shapes.
Import TextFacts StripFacts ReFacts DirectFacts ParseFacts SummaryFacts FilenameFacts.

Local Abbreviation oblock p s :=
  (block_match multi org_marker [gt; nl] org_stop (MState p s [])).
Local Abbreviation oscan p s :=
  (org_loop (scan multi org_pattern false (MState p s []))).
Local Abbreviation oitem d b :=
  (if nonempty (strip b) then [Entry (Some (strip d)) None (strip b)] else []).

Lemma oscan_some (p : option char) (s : str) (pe : option char)
    (r d b : str) :
  oblock p s = Some (MState pe r [(2, b); (1, d)]) ->
  oscan p s = oitem d b ++ oscan pe r.
Proof.
  intros M.
  rewrite (block_scan_eq multi org_pattern org_marker [gt; nl] org_stop
             org_match_at ltac:(discriminate)).
  rewrite M. cbn [org_loop]. unfold group. cbn [snd caps lookup Nat.eqb].
  unfold restart. cbn [prev rest].
  destruct (nonempty (strip b)); reflexivity.
Qed.

Lemma oscan_none (p : option char) (s : str) :
  oblock p s = None ->
  oscan p s = match s with
              | [] => []
              | c :: s' => oscan (Some c) s'
              end.
Proof.
  intros M.
  rewrite (block_scan_eq multi org_pattern org_marker [gt; nl] org_stop
             org_match_at ltac:(discriminate)).
  rewrite M. cbn [rest]. destruct s; reflexivity.
Qed.

Lemma oscan_nil (p : option char) : oscan p [] = [].
Proof.
  rewrite oscan_none; [reflexivity|].
  unfold block_match. cbn [rest].
  replace (starts_with org_marker []) with false by reflexivity.
  rewrite andb_false_r. reflexivity.
Qed.

Lemma starts_with_snoc_nl (w : str) :
  ~ In nl w ->
  forall x, starts_with w x = false -> starts_with w (x ++ [nl]) = false.
Proof.
  induction w as [|a w IH]; intros H x; [discriminate|].
  destruct x as [|c x]; cbn [starts_with app].
  - intros _. destruct (char_eqb a nl) eqn:E; [|reflexivity].
    apply char_eqb_eq in E. exfalso. apply H. left. exact E.
  - destruct (char_eqb a c); [|reflexivity]. cbn [andb].
    apply IH. intros I. apply H. right. exact I.
Qed.

(** Inside a plain body no newline is followed by the stop. *)
Lemma plain_body_no_stop (b x : str) :
  occurs (nl :: org_stop) b = false ->
  forall b1 c b2, b = b1 ++ c :: b2 ->
    starts_with (nl :: org_stop) (c :: b2 ++ nl :: x) = false.
Proof.
  intros Ho b1 c b2 E.
  pose proof (occurs_false _ _ Ho b1 (c :: b2) E) as H.
  cbn [starts_with] in *. destruct (char_eqb nl c); [|reflexivity].
  cbn [andb] in *.
  rewrite (starts_with_cut org_stop b2 x [])
    by (intros [F | [F | [F | []]]]; discriminate).
  apply starts_with_snoc_nl; [|exact H].
  intros [F | [F | [F | []]]]; discriminate.
Qed.

Lemma occurs_snoc_nl (b : str) :
  occurs (nl :: org_stop) b = false ->
  occurs (nl :: org_stop) (b ++ [nl]) = false.
Proof.
  induction b as [|c b IH]; [reflexivity|].
  cbn [occurs app]. intros H. apply orb_false_iff in H.
  destruct H as (H1 & H2). rewrite (IH H2), orb_false_r.
  cbn [starts_with] in *. destruct (char_eqb nl c); [|reflexivity].
  cbn [andb] in *. apply starts_with_snoc_nl; [|exact H1].
  intros [F | [F | [F | []]]]; discriminate.
Qed.

Lemma split_at_date (d t : str) :
  ~ In nl d -> split_at [gt; nl] (d ++ [gt; nl] ++ t) = Some (d, t).
Proof.
  intros H. apply split_at_first. intros a1 c a2 E.
  cbn [starts_with]. destruct (char_eqb gt c); [|reflexivity].
  cbn [andb]. destruct a2 as [|x a2]; [reflexivity|]. cbn [app].
  destruct (char_eqb nl x) eqn:C; [|reflexivity].
  apply char_eqb_eq in C. exfalso. apply H. subst d x.
  apply in_or_app. right. right. left. reflexivity.
Qed.

Lemma render_outline_cons (blk : str * str) (more : list (str * str)) :
  render_outline (blk :: more)
  = org_marker ++ fst blk ++ [gt; nl] ++ snd blk ++ nl :: render_outline more.
Proof.
  unfold render_outline. cbn [map concat]. unfold render_block.
  rewrite <- !app_assoc. reflexivity.
Qed.

Lemma render_outline_starts (blk : str * str) (more : list (str * str)) :
  starts_with org_stop (render_outline (blk :: more)) = true.
Proof. rewrite render_outline_cons. reflexivity. Qed.

(** The parser reads a rendered outline back, block by block. *)
Lemma oscan_outline :
  forall blocks p,
    p = None \/ p = Some nl ->
    Forall plain_block blocks ->
    oscan p (render_outline blocks)
    = concat (map (fun blk => oitem (fst blk) (snd blk)) blocks).
Proof.
  induction blocks as [|[d b] more IH]; intros p Hp Hb.
  - apply oscan_nil.
  - inversion Hb as [|? ? [Hd Ho] Hmore]; subst. cbn [fst snd] in *.
    cbn [map concat fst snd].
    assert (B : at_bol multi (MState p (render_outline ((d, b) :: more)) [])
                = true).
    { destruct Hp as [-> | ->]; reflexivity. }
    destruct more as [|blk more'].
    + assert (M : oblock p (render_outline [(d, b)])
                  = Some (MState
                            (last_char (org_marker ++ d ++ [gt; nl] ++ b ++ [nl]) p)
                            [] [(2, b ++ [nl]); (1, d)])).
      { unfold block_match. rewrite B. cbn [rest prev caps andb].
        rewrite render_outline_cons. cbn [fst snd].
        rewrite starts_with_app, skipn_exact.
        rewrite split_at_date by exact Hd.
        change (b ++ nl :: render_outline []) with (b ++ [nl]).
        rewrite <- (app_nil_r (b ++ [nl])) at 1.
        rewrite until_stop_first.
        - reflexivity.
        - reflexivity.
        - intros b1 c b2 E. rewrite app_nil_r. cbn [stops].
          exact (occurs_false _ _ (occurs_snoc_nl b Ho) b1 (c :: b2) E). }
      rewrite (oscan_some _ _ _ _ _ _ M).
      rewrite strip_snoc_space by reflexivity.
      rewrite oscan_nil. cbn [map concat]. reflexivity.
    + assert (M : oblock p (render_outline ((d, b) :: blk :: more'))
                  = Some (MState
                            (last_char (org_marker ++ d ++ [gt; nl] ++ b) p)
                            (nl :: render_outline (blk :: more'))
                            [(2, b); (1, d)])).
      { unfold block_match. rewrite B. cbn [rest prev caps andb].
        rewrite render_outline_cons. cbn [fst snd].
        rewrite starts_with_app, skipn_exact.
        rewrite split_at_date by exact Hd.
        rewrite until_stop_first.
        - reflexivity.
        - cbn [stops starts_with]. rewrite char_eqb_refl.
          apply render_outline_starts.
        - intros b1 c b2 E. cbn [stops].
          exact (plain_body_no_stop b _ Ho b1 c b2 E). }
      rewrite (oscan_some _ _ _ _ _ _ M).
      f_equal.
      rewrite oscan_none.
      * apply IH; [right; reflexivity | exact Hmore].
      * unfold block_match. cbn [rest].
        replace (starts_with org_marker (nl :: render_outline (blk :: more')))
          with false by reflexivity.
        rewrite andb_false_r. reflexivity.
Qed.



(** ** Every entry of the outline parser is a block of the document *)


Lemma last_char_snoc (w : str) (c : char) (p : option char) :
  last_char (w ++ [c]) p = Some c.
Proof. rewrite last_char_app. reflexivity. Qed.

Lemma bol_line_closed (pre : str) (st : mstate) :
  at_bol multi st = true -> prev st = last_char pre None ->
  line_closed pre.
Proof.
  intros B P. destruct pre as [|x pre] using rev_ind; [left; reflexivity|].
  right. exists pre. rewrite last_char_snoc in P.
  unfold at_bol in B. rewrite P in B. cbn [multiline multi andb] in B.
  apply char_eqb_eq in B. subst x. reflexivity.
Qed.


End OrgFacts.

(* ================================================================== *)
(** * Runs of the program *)
(* ================================================================== *)

Module RunFacts.
Import Text Re Direct Journal Shapes.
Import TextFacts StripFacts ReFacts DirectFacts ParseFacts SummaryFacts.

Lemma bind_run {A B : Type} (m : M A) (f : A -> M B) (s : sys) :
  bind m f s = let (x, s') := m s in f x s'.
Proof. reflexivity. Qed.

Lemma print_run (m : message) (s : sys) :
  print m s = (tt, Sys (files s) (posts s) (Print m :: trace s)).
Proof. reflexivity. Qed.

Lemma emit_run (ev : event) (s : sys) :
  emit ev s = (tt, Sys (files s) (posts s) (ev :: trace s)).
Proof. reflexivity. Qed.

Lemma read_text_run (path : str) (s : sys) :
  read_text path s
  = (match files s path with
     | File c _ => ReadOk c
     | Missing => ReadNotFound
     | Denied => ReadFails
     end, Sys (files s) (posts s) (OpenRead path :: trace s)).
Proof. reflexivity. Qed.

Ltac run_print := rewrite bind_run, print_run; cbv beta iota.
Ltac run_emit := rewrite bind_run, emit_run; cbv beta iota.

Lemma quiet_refl (s : sys) : quiet s s.
Proof. split; reflexivity. Qed.

Lemma quiet_trans (a b c : sys) : quiet a b -> quiet b c -> quiet a c.
Proof. intros (F1 & P1) (F2 & P2). split; congruence. Qed.

Lemma parse_summary_file_run (path : str) (s : sys) :
  exists s',
    parse_journal_summary_file path s
    = (summary_entries (file_text (files s path)), s') /\ quiet s s'.
Proof.
  unfold parse_journal_summary_file, read_and_parse, read_text, bind, print,
    emit, ret. cbn [files posts trace].
  destruct (files s path) as [| |c w]; cbn [file_text];
    eexists; (split; [reflexivity | split; reflexivity]).
Qed.

Lemma read_entries_run :
  forall paths s,
    Forall (fun p => exists c w, files s p = File c w) paths ->
    exists s',
      read_entries paths s = (map (entry_of (files s)) paths, s') /\
      quiet s s'.
Proof.
  induction paths as [|p more IH]; intros s H.
  - exists s. split; [reflexivity | apply quiet_refl].
  - inversion H as [|? ? (c & w & Hp) Hmore]; subst.
    cbn [read_entries]. run_print.
    rewrite bind_run, read_text_run. cbn [files posts trace]. rewrite Hp.
    cbv beta iota.
    set (s2 := Sys (files s) (posts s)
                 (OpenRead p :: Print (MsgReading p) :: trace s)).
    destruct (IH s2 Hmore) as (s' & R & Q).
    rewrite bind_run, R. cbv beta iota. unfold ret. exists s'. split.
    + cbn [map]. unfold entry_of at 2. rewrite Hp. reflexivity.
    + apply quiet_trans with (b := s2); [split; reflexivity | exact Q].
Qed.

Lemma list_entries_run :
  forall entries s, exists s', list_entries entries s = (tt, s') /\ quiet s s'.
Proof.
  induction entries as [|e more IH]; intros s.
  - exists s. split; [reflexivity | apply quiet_refl].
  - cbn [list_entries]. rewrite bind_run.
    assert (H : exists s2,
               (if truthy (filename e)
                then print (MsgItem match filename e with
                                    | Some f => f ++ md_suffix
                                    | None => []
                                    end)
                else match heading e with
                     | Some (c :: h) => print (MsgItem (c :: h))
                     | _ => print MsgItemNone
                     end) s = (tt, s2) /\ quiet s s2).
    { destruct (truthy (filename e)); [|destruct (heading e) as [[|c h]|]];
        rewrite print_run; eexists; (split; [reflexivity | split; reflexivity]). }
    destruct H as (s2 & -> & Q2). cbv beta iota.
    destruct (IH s2) as (s' & R & Q). rewrite R.
    exists s'. split; [reflexivity | eapply quiet_trans; eassumption].
Qed.

(** ** [main] in per-file mode *)

Lemma main_per_file (E : env) (a : args) (paths : list str) (s : sys) :
  input_journal_org a = None ->
  input_entry_md a = Some paths ->
  let todo := files_to_summarize paths (completion_set s (output_md a)) in
  let entries := map (entry_of (files s)) todo in
  Forall (fun p => exists c w, files s p = File c w) todo ->
  exists s_mid,
    quiet s s_mid /\
    ((entries = [] /\ main E a s = (NothingToDo, s_mid)) \/
     (entries <> [] /\ affirmative (operator E) = false /\
      main E a s = (Declined, s_mid)) \/
     (entries <> [] /\ affirmative (operator E) = true /\
      probe E (url a) = false /\ main E a s = (Unreachable, s_mid)) \/
     (entries <> [] /\ affirmative (operator E) = true /\
      probe E (url a) = true /\
      main E a s = process E a (length entries) 0 0 entries s_mid)).
Proof.
  intros Horg Hmd todo entries Hread.
  unfold main. rewrite Horg, Hmd. cbn [truthy andb].
  do 4 run_print.
  set (s1 := Sys _ _ _).
  assert (Q1 : quiet s s1) by (split; reflexivity).
  destruct (parse_summary_file_run (output_md a) s1) as (s2 & P & Q2).
  rewrite bind_run, P. cbv beta iota.
  change (files s1) with (files s).
  fold (completion_set s (output_md a)).
  assert (Q12 : quiet s s2) by exact (quiet_trans _ _ _ Q1 Q2).
  assert (Hent : exists s3,
             (if given (Some paths)
              then read_entries
                     (files_to_summarize (paths_of (Some paths))
                        (completion_set s (output_md a)))
              else ret []) s2 = (entries, s3) /\ quiet s s3).
  { destruct (given (Some paths)) eqn:G.
    - cbn [paths_of]. fold todo.
      assert (Hread2 : Forall (fun p => exists c w, files s2 p = File c w) todo).
      { destruct Q12 as (F2 & _). rewrite F2. exact Hread. }
      destruct (read_entries_run todo s2 Hread2) as (s3 & R & Q3).
      exists s3. split.
      + rewrite R. destruct Q12 as (F2 & _). rewrite F2. reflexivity.
      + exact (quiet_trans _ _ _ Q12 Q3).
    - exists s2. split; [|exact Q12].
      unfold entries, todo. destruct paths; [reflexivity | discriminate]. }
  destruct Hent as (s3 & R & Q3).
  rewrite bind_run, R. cbv beta iota.
  destruct entries as [|e more] eqn:Ee.
  - run_print. unfold ret. eexists.
    split; [|left; split; reflexivity].
    eapply quiet_trans; [exact Q3 | split; reflexivity].
  - do 2 run_print. rewrite bind_run.
    match goal with
    | |- context [list_entries (e :: more) ?s4] =>
        destruct (list_entries_run (e :: more) s4) as (s5 & L & Q5);
        assert (Q4 : quiet s s4)
          by (eapply quiet_trans; [exact Q3 | split; reflexivity])
    end.
    rewrite L. cbv beta iota. run_emit.
    assert (Q : quiet s s5) by exact (quiet_trans _ _ _ Q4 Q5).
    destruct (affirmative (operator E)) eqn:A; cbn [negb].
    + unfold test_ollama_connection. rewrite bind_run, bind_run, emit_run.
      cbv beta iota.
      destruct (probe E (url a)) eqn:Pr.
      * unfold ret at 1. cbn [negb].
        eexists. split; [|right; right; right].
        2:{ split; [discriminate|]. split; [reflexivity|].
            split; [reflexivity|]. reflexivity. }
        eapply quiet_trans; [exact Q | split; reflexivity].
      * do 2 run_print. unfold ret. cbn [negb].
        eexists. split; [|right; right; left].
        2:{ split; [discriminate|]. split; [reflexivity|].
            split; [reflexivity|]. reflexivity. }
        eapply quiet_trans; [exact Q | split; reflexivity].
    + run_print. unfold ret.
      eexists. split; [|right; left].
      2:{ split; [discriminate|]. split; reflexivity. }
      eapply quiet_trans; [exact Q | split; reflexivity].
Qed.

End RunFacts.

Module ProcessFacts.
Import Text Re Direct Journal Shapes.
Import TextFacts StripFacts ReFacts DirectFacts ParseFacts SummaryFacts RunFacts.

Lemma print_all_run (ms : list message) :
  forall s,
    print_all ms s
    = (tt, Sys (files s) (posts s) (rev (map Print ms) ++ trace s)).
Proof.
  induction ms as [|m ms IH]; intros s; [destruct s; reflexivity|].
  cbn [print_all]. run_print. rewrite IH. cbn [files posts trace map rev].
  rewrite <- app_assoc. reflexivity.
Qed.

Lemma requests_prints (ms : list message) (tr : list event) :
  requests (rev (map Print ms) ++ tr) = requests tr.
Proof.
  induction ms as [|m ms IH] using rev_ind; [reflexivity|].
  rewrite map_app, rev_app_distr. cbn [map rev app requests]. exact IH.
Qed.

Lemma reports_handler (u : str) (e : exn) (tr : list event) :
  reports (rev (map Print (handler u e)) ++ tr) = reports tr.
Proof.
  unfold handler.
  destruct (is_ConnectionError e); [reflexivity|].
  destruct (is_Timeout e); [reflexivity|].
  destruct (is_RequestException e); [reflexivity|].
  destruct (is_JSONDecodeError e); reflexivity.
Qed.

Lemma opened_prints (ms : list message) (tr : list event) :
  opened (rev (map Print ms) ++ tr) = opened tr.
Proof.
  induction ms as [|m ms IH] using rev_ind; [reflexivity|].
  rewrite map_app, rev_app_distr. cbn [map rev app opened]. exact IH.
Qed.

(** ** The client *)

Lemma summarize_run (E : env) (text m u tpl p : str) (s : sys) :
  format E tpl text = inr p ->
  summarize_with_ollama E text m u tpl s
  = (Returned (match generated_summary
                       (service E (posts s) (u ++ api_generate) m p) with
               | inr x => Some x
               | inl _ => None
               end),
     Sys (files s) (S (posts s))
       (match generated_summary
                (service E (posts s) (u ++ api_generate) m p) with
        | inr _ => [Print MsgSummaryReceived]
        | inl e => rev (map Print (handler u e))
        end ++ HttpPost (u ++ api_generate) m p
              :: Print (MsgSending m) :: trace s)).
Proof.
  intros F. unfold summarize_with_ollama. rewrite F. run_print.
  unfold http_post. rewrite !bind_run, emit_run. cbv beta iota.
  cbn [files posts trace].
  destruct (generated_summary (service E (posts s) (u ++ api_generate) m p))
    as [e|x].
  - rewrite bind_run, print_all_run. reflexivity.
  - run_print. reflexivity.
Qed.

Lemma summarize_raise (E : env) (text m u tpl : str) (e : exn) (s : sys) :
  format E tpl text = inl e ->
  summarize_with_ollama E text m u tpl s = (Raised e, s).
Proof. intros F. unfold summarize_with_ollama. rewrite F. reflexivity. Qed.

Lemma append_summary_run (out h summ : str) (s : sys) :
  append_summary_to_markdown out h summ s
  = (tt,
     Sys (if can_append (files s out)
          then write_to (files s) out (record_text h summ)
          else files s)
       (posts s)
       (Print (if can_append (files s out)
               then MsgAppended out else MsgWriteError out)
          :: OpenAppend out :: trace s)).
Proof.
  unfold append_summary_to_markdown, append_text.
  rewrite !bind_run, emit_run. cbv beta iota. cbn [files posts trace].
  destruct (can_append (files s out)); reflexivity.
Qed.

(** ** One round of the processing loop *)

Lemma process_nil (E : env) (a : args) (total i k : nat) (s : sys) :
  process E a total i k [] s
  = (Complete k total,
     Sys (files s) (posts s)
       (Print (MsgAppendedTo (output_md a))
          :: Print (MsgComplete k total) :: trace s)).
Proof. cbn [process]. do 2 run_print. reflexivity. Qed.

Lemma process_skip (E : env) (a : args) (total i k : nat)
    (e : JournalEntry) (more : list JournalEntry) (s : sys) :
  content e = [] ->
  process E a total i k (e :: more) s
  = process E a total (S i) k more
      (Sys (files s) (posts s)
         (Print MsgSkipEmpty
            :: Print (MsgProcessing (i + 1) total (entry_heading e))
            :: trace s)).
Proof.
  intros C. cbn [process]. rewrite C. cbn [nonempty negb].
  do 2 run_print. reflexivity.
Qed.

Lemma process_cons (E : env) (a : args) (total i k : nat)
    (e : JournalEntry) (more : list JournalEntry) (s : sys) :
  content e <> [] ->
  match format E (prompt a) (content e) with
  | inl x =>
      process E a total i k (e :: more) s
      = (Crashed x,
         Sys (files s) (posts s)
           (Print (MsgProcessing (i + 1) total (entry_heading e))
              :: trace s))
  | inr p =>
      let req := (url a ++ api_generate, model a, p) in
      match generated_summary
              (service E (posts s) (url a ++ api_generate) (model a) p) with
      | inr (c :: summ) =>
          exists s1,
            process E a total i k (e :: more) s
            = process E a total (S i) (S k) more s1 /\
            files s1
            = (if can_append (files s (output_md a))
               then write_to (files s) (output_md a)
                      (record_text (fstr (entry_heading e)) (c :: summ))
               else files s) /\
            posts s1 = S (posts s) /\
            requests (trace s1) = requests (trace s) ++ [req] /\
            reports (trace s1) = reports (trace s) /\
            opened (trace s1) = opened (trace s) ++ [output_md a]
      | _ =>
          exists s1,
            process E a total i k (e :: more) s = (Aborted k total, s1) /\
            files s1 = files s /\
            posts s1 = S (posts s) /\
            requests (trace s1) = requests (trace s) ++ [req] /\
            reports (trace s1) = reports (trace s) /\
            opened (trace s1) = opened (trace s)
      end
  end.
Proof.
  intros C. cbn [process].
  replace (negb (nonempty (content e))) with false
    by (destruct (content e); [congruence | reflexivity]).
  destruct (format E (prompt a) (content e)) as [x|p] eqn:F.
  - run_print. rewrite bind_run, (summarize_raise _ _ _ _ _ _ _ F).
    reflexivity.
  - run_print. rewrite bind_run, (summarize_run _ _ _ _ _ _ _ F).
    cbv beta iota zeta. cbn [files posts trace].
    destruct (generated_summary
                (service E (posts s) (url a ++ api_generate) (model a) p))
      as [x|[|c summ]].
    + run_print. unfold ret. eexists. split; [reflexivity|].
      cbn [files posts trace requests reports opened].
      rewrite requests_prints, reports_handler, opened_prints.
      repeat split; reflexivity.
    + run_print. unfold ret. eexists. split; [reflexivity|].
      repeat split; reflexivity.
    + rewrite bind_run, append_summary_run. cbv beta iota.
      eexists. split; [reflexivity|].
      cbn [files posts trace requests reports opened].
      repeat split; try reflexivity.
      destruct (can_append (files s (output_md a))); reflexivity.
Qed.


(** ** The whole loop *)

Lemma write_to_same (fs : str -> file) (out data : str) :
  can_append (fs out) = true ->
  file_text (write_to fs out data out) = file_text (fs out) ++ data /\
  can_append (write_to fs out data out) = true.
Proof.
  unfold write_to. rewrite str_eqb_refl.
  destruct (fs out) as [| |c w]; cbn [can_append file_text];
    intros H; try discriminate; split; auto.
Qed.

Lemma write_to_other (fs : str -> file) (out data q : str) :
  q <> out -> write_to fs out data q = fs q.
Proof.
  intros H. unfold write_to. destruct (str_eqb q out) eqn:E; [|reflexivity].
  apply str_eqb_eq in E. congruence.
Qed.

(** What a run that reaches the end of the loop has done: one request and
    one record for every entry, in their order. *)
Lemma process_complete (E : env) (a : args) :
  forall entries total i k s k' t s',
    Forall (fun e => content e <> []) entries ->
    can_append (files s (output_md a)) = true ->
    process E a total i k entries s = (Complete k' t, s') ->
    exists summaries,
      Forall2 (fun e summ =>
                 exists n u m p,
                   generated_summary (service E n u m p) = inr summ /\
                   summ <> [])
        entries summaries /\
      file_text (files s' (output_md a))
      = file_text (files s (output_md a))
        ++ concat (map (fun es => record_text (fstr (entry_heading (fst es)))
                                    (snd es))
                     (combine entries summaries)) /\
      can_append (files s' (output_md a)) = true /\
      (forall q, q <> output_md a -> files s' q = files s q) /\
      k' = k + length entries /\ t = total /\
      posts s' = posts s + length entries.
Proof.
  induction entries as [|e more IH]; intros total i k s k' t s' Hc Hw H.
  - rewrite process_nil in H. injection H as <- <- <-.
    exists []. cbn [combine map concat length files posts].
    rewrite app_nil_r, !Nat.add_0_r. repeat split; auto.
  - inversion Hc as [|? ? He Hmore]; subst.
    pose proof (process_cons E a total i k e more s He) as Step.
    destruct (format E (prompt a) (content e)) as [x|p];
      [rewrite Step in H; discriminate|].
    cbv zeta in Step.
    destruct (generated_summary
                (service E (posts s) (url a ++ api_generate) (model a) p))
      as [x|[|c summ]] eqn:G.
    + destruct Step as (s1 & Step & _). rewrite Step in H. discriminate.
    + destruct Step as (s1 & Step & _). rewrite Step in H. discriminate.
    + destruct Step as (s1 & Step & F1 & P1 & _). rewrite Step in H.
      rewrite Hw in F1.
      destruct (write_to_same (files s) (output_md a)
                  (record_text (fstr (entry_heading e)) (c :: summ)) Hw)
        as (T1 & W1).
      rewrite <- F1 in T1, W1.
      destruct (IH total (S i) (S k) s1 k' t s' Hmore W1 H)
        as (summaries & F2 & T & W & O & K & Tt & P).
      exists ((c :: summ) :: summaries).
      split; [|split; [|split; [|split; [|split; [|split]]]]].
      * constructor; [|exact F2].
        exists (posts s), (url a ++ api_generate), (model a), p.
        split; [exact G | discriminate].
      * rewrite T, T1. cbn [combine map concat fst snd].
        rewrite <- app_assoc. reflexivity.
      * exact W.
      * intros q Hq. rewrite (O q Hq), F1. apply write_to_other. exact Hq.
      * cbn [length]. lia.
      * exact Tt.
      * cbn [length]. lia.
Qed.

(** With a service that always answers with a non-empty summary the loop
    reaches its end. *)
Lemma process_succeeds (E : env) (a : args) :
  (forall n u m p, exists c r,
      generated_summary (service E n u m p) = inr (c :: r)) ->
  forall entries total i k s,
    Forall (fun e => content e <> [] /\
                     exists p, format E (prompt a) (content e) = inr p)
      entries ->
    exists s',
      process E a total i k entries s
      = (Complete (k + length entries) total, s').
Proof.
  intros Hs. induction entries as [|e more IH]; intros total i k s H.
  - rewrite process_nil. cbn [length]. rewrite Nat.add_0_r.
    eexists. reflexivity.
  - inversion H as [|? ? (He & p & F) Hmore]; subst.
    pose proof (process_cons E a total i k e more s He) as Step.
    rewrite F in Step. cbv zeta in Step.
    destruct (Hs (posts s) (url a ++ api_generate) (model a) p)
      as (c & r & G).
    rewrite G in Step. destruct Step as (s1 & Step & _).
    destruct (IH total (S i) (S k) s1 Hmore) as (s' & R).
    exists s'. rewrite Step, R. cbn [length]. f_equal. f_equal. lia.
Qed.

End ProcessFacts.

Module RoundTripFacts.
Import Text Re Direct Journal Shapes.
Import TextFacts StripFacts ReFacts DirectFacts ParseFacts SummaryFacts.
Import FilenameFacts RunFacts ProcessFacts.

Lemma fas_app (l1 l2 : list JournalEntry) :
  files_already_summarized (l1 ++ l2)
  = files_already_summarized l1 ++ files_already_summarized l2.
Proof.
  induction l1 as [|e l1 IH]; [reflexivity|].
  cbn [app files_already_summarized].
  destruct (filename e) as [[|c f]|]; rewrite IH; reflexivity.
Qed.

Lemma record_blank (d h s : str) : blank_terminated (d ++ record_text h s).
Proof.
  right. exists (d ++ md_marker ++ h ++ [nl; nl] ++ s).
  unfold record_text. rewrite <- !app_assoc. reflexivity.
Qed.

Lemma record_starts (h s x : str) :
  starts_with md_marker (record_text h s ++ x) = true.
Proof. unfold record_text. rewrite <- app_assoc. apply starts_with_app. Qed.

(** The entries of a document followed by records are the entries of the
    document followed by those of every record. *)
Lemma summary_entries_records :
  forall (recs : list (str * str)) (d : str),
    blank_terminated d ->
    summary_entries
      (d ++ concat (map (fun hs => record_text (fst hs) (snd hs)) recs))
    = summary_entries d
      ++ concat (map (fun hs => summary_entries
                                  (record_text (fst hs) (snd hs))) recs).
Proof.
  induction recs as [|[h s] recs IH]; intros d Hd.
  - cbn [map concat]. rewrite !app_nil_r. reflexivity.
  - cbn [map concat fst snd]. rewrite app_assoc.
    rewrite IH by apply record_blank.
    rewrite (summary_entries_app d (record_text h s) Hd).
    + rewrite <- app_assoc. reflexivity.
    + right. rewrite <- (app_nil_r (record_text h s)). apply record_starts.
Qed.

(** ** Base names *)

Lemma rsplit_at_none (c : char) (b : str) :
  ~ In c b -> rsplit_at c b = None.
Proof.
  induction b as [|x b IH]; intros H; [reflexivity|].
  cbn [rsplit_at]. rewrite IH by (intros I; apply H; right; exact I).
  destruct (char_eqb x c) eqn:E; [|reflexivity].
  apply char_eqb_eq in E. exfalso. apply H. left. exact E.
Qed.

Lemma rsplit_at_last (c : char) (a b : str) :
  ~ In c b -> rsplit_at c (a ++ c :: b) = Some (a, c :: b).
Proof.
  intros H. induction a as [|x a IH].
  - cbn [app rsplit_at]. rewrite (rsplit_at_none c b H), char_eqb_refl.
    reflexivity.
  - cbn [app rsplit_at]. rewrite IH. reflexivity.
Qed.

Lemma splitext_root_md (stem : str) :
  forallb (fun c => char_eqb c dot) stem = false ->
  splitext_root (stem ++ md_suffix) = stem.
Proof.
  intros H. unfold splitext_root.
  change md_suffix with (dot :: lit "md").
  rewrite rsplit_at_last by (intros [E | [E | []]]; discriminate).
  rewrite H. reflexivity.
Qed.


(** ** The client's summaries *)


(** ** A record of a per-file entry puts its base name into the
    completion set *)


End RoundTripFacts.
(* ================================================================== *)
(** * Whole runs: the batch, the loop, and what is read back *)
(* ================================================================== *)

Module BatchFacts.
Import Text Re Direct Journal Shapes.
Import TextFacts StripFacts ReFacts DirectFacts ParseFacts SummaryFacts.
Import RunFacts ProcessFacts.

Lemma reads_refl (s : sys) : reads [] s s.
Proof. unfold reads. rewrite app_nil_r. repeat split. Qed.

Lemma reads_trans (p1 p2 : list str) (a b c : sys) :
  reads p1 a b -> reads p2 b c -> reads (p1 ++ p2) a c.
Proof.
  intros (F1 & P1 & O1 & R1) (F2 & P2 & O2 & R2).
  unfold reads. rewrite F2, P2, O2, R2, O1, app_assoc.
  repeat split; assumption.
Qed.

Lemma reads_quiet (ps : list str) (s s' : sys) : reads ps s s' -> quiet s s'.
Proof. intros (F & P & _). split; assumption. Qed.

Lemma reads_print (m : message) (s : sys) :
  reads [] s (Sys (files s) (posts s) (Print m :: trace s)).
Proof. unfold reads. cbn. rewrite app_nil_r. repeat split. Qed.

(** Reading a file and parsing it. *)
Lemma read_and_parse_run (parse : str -> list JournalEntry) (path : str)
    (s : sys) :
  parse [] = [] ->
  exists s',
    read_and_parse parse path s = (parse (file_text (files s path)), s') /\
    reads [path] s s'.
Proof.
  intros Hnil. unfold read_and_parse.
  rewrite bind_run, read_text_run.
  destruct (files s path) as [| |c w]; cbn [file_text]; cbv beta iota.
  - run_print. unfold ret. rewrite Hnil. eexists. split; [reflexivity|].
    unfold reads. cbn. repeat split.
  - run_print. unfold ret. rewrite Hnil. eexists. split; [reflexivity|].
    unfold reads. cbn. repeat split.
  - unfold ret. eexists. split; [reflexivity|].
    unfold reads. cbn. repeat split.
Qed.

(** The per-file reader opens every path it is given and keeps the
    readable ones. *)
Lemma read_entries_reads (paths : list str) :
  forall s, exists s',
    read_entries paths s
    = (map (entry_of (files s))
         (filter (fun p => readable (files s p)) paths), s')
    /\ reads paths s s'.
Proof.
  induction paths as [|p more IH]; intros s.
  - exists s. split; [reflexivity | apply reads_refl].
  - cbn [read_entries filter]. run_print.
    rewrite bind_run, read_text_run. cbn [files posts trace].
    set (s2 := Sys (files s) (posts s)
                 (OpenRead p :: Print (MsgReading p) :: trace s)).
    assert (R2 : reads [p] s s2) by (unfold reads; cbn; repeat split).
    destruct (files s p) as [| |c w] eqn:Hp; cbn [readable]; cbv beta iota.
    + run_print.
      match goal with
      | |- context [read_entries more ?s3] =>
          destruct (IH s3) as (s' & R & Q); rewrite R;
          assert (R3 : reads [p] s s3) by (unfold reads; cbn; repeat split)
      end.
      exists s'. split; [reflexivity|].
      exact (reads_trans [p] more _ _ _ R3 Q).
    + run_print.
      match goal with
      | |- context [read_entries more ?s3] =>
          destruct (IH s3) as (s' & R & Q); rewrite R;
          assert (R3 : reads [p] s s3) by (unfold reads; cbn; repeat split)
      end.
      exists s'. split; [reflexivity|].
      exact (reads_trans [p] more _ _ _ R3 Q).
    + destruct (IH s2) as (s' & R & Q).
      rewrite bind_run, R. cbv beta iota. unfold ret. exists s'. split.
      * cbn [map]. unfold entry_of at 2. rewrite Hp. reflexivity.
      * exact (reads_trans [p] more _ _ _ R2 Q).
Qed.

Lemma list_entries_reads :
  forall entries s,
    exists s', list_entries entries s = (tt, s') /\ reads [] s s'.
Proof.
  induction entries as [|e more IH]; intros s.
  - exists s. split; [reflexivity | apply reads_refl].
  - cbn [list_entries]. rewrite bind_run.
    assert (H : exists s2,
               (if truthy (filename e)
                then print (MsgItem match filename e with
                                    | Some f => f ++ md_suffix
                                    | None => []
                                    end)
                else match heading e with
                     | Some (c :: h) => print (MsgItem (c :: h))
                     | _ => print MsgItemNone
                     end) s = (tt, s2) /\ reads [] s s2).
    { destruct (truthy (filename e)); [|destruct (heading e) as [[|c h]|]];
        rewrite print_run; eexists; (split; [reflexivity | apply reads_print]). }
    destruct H as (s2 & -> & Q2). cbv beta iota.
    destruct (IH s2) as (s' & R & Q). rewrite R.
    exists s'. split; [reflexivity|].
    exact (reads_trans [] [] _ _ _ Q2 Q).
Qed.

(** ** [main] up to the processing loop *)

Lemma main_cases (E : env) (a : args) (s : sys) :
  exists s_mid,
    main E a s
    = (if both_given a then (ConfigError, s_mid)
       else match batch a s with
            | [] => (NothingToDo, s_mid)
            | _ :: _ =>
                if negb (affirmative (operator E)) then (Declined, s_mid)
                else if negb (probe E (url a)) then (Unreachable, s_mid)
                else process E a (length (batch a s)) 0 0 (batch a s) s_mid
            end) /\
    reads (if both_given a then [] else output_md a :: inputs a s) s s_mid.
Proof.
  unfold main, both_given. do 4 run_print.
  set (s1 := Sys _ _ _).
  assert (Q1 : reads [] s s1) by (unfold reads; cbn; rewrite app_nil_r; repeat split).
  destruct (truthy (input_journal_org a) && given (input_entry_md a)) eqn:B.
  { run_print. unfold ret. eexists. split; [reflexivity|].
    unfold reads. cbn. rewrite app_nil_r. repeat split. }
  destruct (read_and_parse_run summary_entries (output_md a) s1 eq_refl)
    as (s2 & P & Q2).
  unfold parse_journal_summary_file. rewrite bind_run, P. cbv beta iota.
  change (files s1) with (files s).
  fold (completion_set s (output_md a)).
  assert (Q12 : reads [output_md a] s s2)
    by exact (reads_trans [] _ _ _ _ Q1 Q2).
  assert (F2 : files s2 = files s) by apply Q12.
  assert (Hent : exists s3,
             (if given (input_entry_md a)
              then read_entries
                     (files_to_summarize (paths_of (input_entry_md a))
                        (completion_set s (output_md a)))
              else match input_journal_org a with
                   | Some (c :: p) => parse_org_journal (c :: p)
                   | _ => ret []
                   end) s2 = (batch a s, s3) /\ reads (inputs a s) s2 s3).
  { unfold batch, inputs, selected.
    destruct (given (input_entry_md a)) eqn:G.
    - destruct (read_entries_reads
                  (files_to_summarize (paths_of (input_entry_md a))
                     (completion_set s (output_md a))) s2) as (s3 & R & Q3).
      exists s3. split; [|exact Q3]. rewrite R, F2. reflexivity.
    - destruct (input_journal_org a) as [[|c p]|].
      + exists s2. split; [reflexivity | apply reads_refl].
      + destruct (read_and_parse_run org_entries (c :: p) s2 eq_refl)
          as (s3 & R & Q3).
        exists s3. split; [|exact Q3].
        unfold parse_org_journal. rewrite R, F2. reflexivity.
      + exists s2. split; [reflexivity | apply reads_refl]. }
  destruct Hent as (s3 & R & Q3).
  rewrite bind_run, R. cbv beta iota.
  assert (Q13 : reads (output_md a :: inputs a s) s s3)
    by exact (reads_trans [output_md a] _ _ _ _ Q12 Q3).
  destruct (batch a s) as [|e more] eqn:Ee.
  - run_print. unfold ret. eexists. split; [reflexivity|].
    rewrite <- (app_nil_r (output_md a :: inputs a s)).
    exact (reads_trans _ [] _ _ _ Q13 (reads_print _ _)).
  - do 2 run_print. rewrite bind_run.
    match goal with
    | |- context [list_entries (e :: more) ?s4] =>
        destruct (list_entries_reads (e :: more) s4) as (s5 & L & Q5);
        assert (Q4 : reads [] s3 s4)
          by (unfold reads; cbn; rewrite app_nil_r; repeat split)
    end.
    rewrite L. cbv beta iota. run_emit.
    assert (Q : reads (output_md a :: inputs a s) s s5).
    { rewrite <- (app_nil_r (output_md a :: inputs a s)).
      apply (reads_trans _ [] _ _ _ Q13).
      exact (reads_trans [] [] _ _ _ Q4 Q5). }
    destruct (affirmative (operator E)) eqn:A; cbn [negb].
    + unfold test_ollama_connection. rewrite bind_run, bind_run, emit_run.
      cbv beta iota.
      destruct (probe E (url a)) eqn:Pr.
      * unfold ret at 1. cbn [negb].
        eexists. split; [reflexivity|].
        rewrite <- (app_nil_r (output_md a :: inputs a s)).
        apply (reads_trans _ [] _ _ _ Q).
        unfold reads. cbn. rewrite app_nil_r. repeat split.
      * do 2 run_print. unfold ret. cbn [negb].
        eexists. split; [reflexivity|].
        rewrite <- (app_nil_r (output_md a :: inputs a s)).
        apply (reads_trans _ [] _ _ _ Q).
        unfold reads. cbn. rewrite app_nil_r. repeat split.
    + run_print. unfold ret.
      eexists. split; [reflexivity|].
      rewrite <- (app_nil_r (output_md a :: inputs a s)).
      apply (reads_trans _ [] _ _ _ Q).
      unfold reads. cbn. rewrite app_nil_r. repeat split.
Qed.

End BatchFacts.

Module LoopFacts.
Import Text Re Direct Journal Shapes.
Import TextFacts StripFacts ReFacts DirectFacts ParseFacts SummaryFacts.
Import RunFacts ProcessFacts BatchFacts.

Lemma with_content_skip (e : JournalEntry) (more : list JournalEntry) :
  content e = [] -> with_content (e :: more) = with_content more.
Proof. intros C. unfold with_content. cbn [filter]. rewrite C. reflexivity. Qed.

Lemma with_content_keep (e : JournalEntry) (more : list JournalEntry) :
  content e <> [] -> with_content (e :: more) = e :: with_content more.
Proof.
  intros C. unfold with_content. cbn [filter].
  destruct (content e); [congruence | reflexivity].
Qed.

Lemma with_content_all (entries : list JournalEntry) :
  Forall (fun e => content e <> []) entries -> with_content entries = entries.
Proof.
  induction 1 as [|e more He _ IH]; [reflexivity|].
  rewrite with_content_keep by exact He. rewrite IH. reflexivity.
Qed.

Lemma with_content_length (entries : list JournalEntry) :
  length (with_content entries) <= length entries.
Proof. apply filter_length_le. Qed.

(** What the loop has done when it ends, however it ends: it has a
    non-empty summary for the first entries with content, one request
    each, and their records are what it appended. *)
Lemma process_run (E : env) (a : args) :
  forall entries total i k s o s',
    process E a total i k entries s = (o, s') ->
    exists summaries : list str,
      Forall2 (summary_of E a)
        (firstn (length summaries) (with_content entries)) summaries /\
      (forall q, q <> output_md a -> files s' q = files s q) /\
      (can_append (files s (output_md a)) = true ->
       file_text (files s' (output_md a))
       = file_text (files s (output_md a))
         ++ records (combine (with_content entries) summaries)) /\
      (can_append (files s (output_md a)) = false -> files s' = files s) /\
      (summaries = [] -> files s' = files s) /\
      opened (trace s')
      = opened (trace s) ++ repeat (output_md a) (length summaries) /\
      match o with
      | Complete k' t =>
          k' = k + length summaries /\ t = total /\
          length summaries = length (with_content entries) /\
          posts s' = posts s + length summaries
      | Aborted k' t =>
          k' = k + length summaries /\ t = total /\
          length summaries < length (with_content entries) /\
          posts s' = posts s + length summaries + 1
      | Crashed _ =>
          length summaries < length (with_content entries) /\
          posts s' = posts s + length summaries
      | _ => False
      end.
Proof.
  induction entries as [|e more IH]; intros total i k s o s' H.
  - rewrite process_nil in H. injection H as <- <-.
    exists []. cbn [length combine records map concat files posts trace
                      opened repeat with_content filter firstn].
    rewrite !app_nil_r, !Nat.add_0_r. repeat split; auto.
  - destruct (content e) as [|c0 body] eqn:C.
    + rewrite (process_skip E a total i k e more s C) in H.
      destruct (IH _ _ _ _ _ _ H)
        as (summaries & Hs & Ho & Ha & Hd & Hn & Hop & Hk).
      exists summaries. rewrite (with_content_skip e more C).
      cbn [files posts trace opened] in *.
      repeat split; assumption.
    + assert (He : content e <> []) by (rewrite C; discriminate).
      pose proof (process_cons E a total i k e more s He) as Step.
      rewrite (with_content_keep e more He).
      destruct (format E (prompt a) (content e)) as [x|p] eqn:F.
      { rewrite Step in H. injection H as <- <-.
        exists []. cbn [length combine records map concat files posts trace
                          opened repeat firstn].
        rewrite !app_nil_r, !Nat.add_0_r.
        repeat split; auto. lia. }
      cbv zeta in Step.
      destruct (generated_summary
                  (service E (posts s) (url a ++ api_generate) (model a) p))
        as [x|[|c summ]] eqn:G.
      * destruct Step as (s1 & Step & F1 & P1 & _ & _ & O1).
        rewrite Step in H. injection H as <- <-.
        exists []. cbn [length combine records map concat repeat firstn].
        rewrite !app_nil_r, !Nat.add_0_r.
        repeat split; auto; try (rewrite F1; reflexivity); lia.
      * destruct Step as (s1 & Step & F1 & P1 & _ & _ & O1).
        rewrite Step in H. injection H as <- <-.
        exists []. cbn [length combine records map concat repeat firstn].
        rewrite !app_nil_r, !Nat.add_0_r.
        repeat split; auto; try (rewrite F1; reflexivity); lia.
      * destruct Step as (s1 & Step & F1 & P1 & _ & _ & O1).
        rewrite Step in H.
        destruct (IH _ _ _ _ _ _ H)
          as (summaries & Hs & Ho & Ha & Hd & Hn & Hop & Hk).
        exists ((c :: summ) :: summaries).
        split; [|split; [|split; [|split; [|split; [|split]]]]].
        -- cbn [length firstn]. constructor; [|exact Hs].
           split; [discriminate|].
           exists (posts s), p. split; [exact F | exact G].
        -- intros q Hq. rewrite (Ho q Hq), F1.
           destruct (can_append (files s (output_md a))); [|reflexivity].
           apply write_to_other. exact Hq.
        -- intros Hw. rewrite Hw in F1.
           destruct (write_to_same (files s) (output_md a)
                       (record_text (fstr (entry_heading e)) (c :: summ)) Hw)
             as (T1 & W1).
           rewrite <- F1 in T1, W1. rewrite (Ha W1), T1.
           cbn [combine records map concat fst snd].
           rewrite <- app_assoc. reflexivity.
        -- intros Hw. rewrite Hw in F1.
           assert (Hw1 : can_append (files s1 (output_md a)) = false)
             by (rewrite F1; exact Hw).
           rewrite (Hd Hw1). exact F1.
        -- discriminate.
        -- rewrite Hop, O1. cbn [length repeat]. rewrite <- app_assoc.
           reflexivity.
        -- cbn [length]. destruct o; try exact Hk;
             destruct Hk as (K1 & K2); repeat split; try lia; try apply K2.
Qed.

(** The requests of the loop: one for each of the first entries with
    content, with the prompt built from that entry. *)
Lemma process_requests (E : env) (a : args) :
  forall entries total i k s,
    exists prompts : list str,
      length prompts <= length (with_content entries) /\
      Forall2 (fun e p => format E (prompt a) (content e) = inr p)
        (firstn (length prompts) (with_content entries)) prompts /\
      requests (trace (snd (process E a total i k entries s)))
      = requests (trace s) ++ map (request_for a) prompts.
Proof.
  induction entries as [|e more IH]; intros total i k s.
  - rewrite process_nil. exists []. cbn. rewrite app_nil_r.
    repeat split; constructor.
  - destruct (content e) as [|c0 body] eqn:C.
    + rewrite (process_skip E a total i k e more s C).
      rewrite (with_content_skip e more C).
      destruct (IH total (S i) k
                  (Sys (files s) (posts s)
                     (Print MsgSkipEmpty
                        :: Print (MsgProcessing (i + 1) total (entry_heading e))
                        :: trace s)))
        as (prompts & L & F2 & R).
      exists prompts. split; [exact L|]. split; [exact F2 | exact R].
    + assert (He : content e <> []) by (rewrite C; discriminate).
      pose proof (process_cons E a total i k e more s He) as Step.
      rewrite (with_content_keep e more He).
      destruct (format E (prompt a) (content e)) as [x|p] eqn:F.
      { rewrite Step. exists []. cbn. rewrite app_nil_r.
        repeat split; [apply Nat.le_0_l | constructor]. }
      cbv zeta in Step.
      destruct (generated_summary
                  (service E (posts s) (url a ++ api_generate) (model a) p))
        as [x|[|c summ]].
      * destruct Step as (s1 & -> & _ & _ & Rq & _).
        exists [p]. cbn [length firstn map snd].
        split; [apply le_n_S, Nat.le_0_l|].
        split; [constructor; [exact F | constructor] | exact Rq].
      * destruct Step as (s1 & -> & _ & _ & Rq & _).
        exists [p]. cbn [length firstn map snd].
        split; [apply le_n_S, Nat.le_0_l|].
        split; [constructor; [exact F | constructor] | exact Rq].
      * destruct Step as (s1 & -> & _ & _ & Rq & _).
        destruct (IH total (S i) (S k) s1) as (prompts & L & F2 & R).
        exists (p :: prompts). cbn [length firstn map].
        split; [apply le_n_S; exact L|].
        split; [constructor; [exact F | exact F2]|].
        rewrite R, Rq, <- app_assoc. reflexivity.
Qed.

(** A whole run: what [main] has done when it returns. *)
Lemma main_run (E : env) (a : args) (s : sys) :
  exists summaries : list str,
    Forall2 (summary_of E a)
      (firstn (length summaries) (with_content (batch a s))) summaries /\
    (forall q, q <> output_md a ->
       files (snd (main E a s)) q = files s q) /\
    (can_append (files s (output_md a)) = true ->
     file_text (files (snd (main E a s)) (output_md a))
     = file_text (files s (output_md a))
       ++ records (combine (with_content (batch a s)) summaries)) /\
    (can_append (files s (output_md a)) = false ->
     files (snd (main E a s)) = files s) /\
    (summaries = [] -> files (snd (main E a s)) = files s) /\
    opened (trace (snd (main E a s)))
    = opened (trace s)
      ++ (if both_given a then [] else output_md a :: inputs a s)
      ++ repeat (output_md a) (length summaries) /\
    match fst (main E a s) with
    | ConfigError =>
        both_given a = true /\ summaries = [] /\
        posts (snd (main E a s)) = posts s
    | NothingToDo =>
        both_given a = false /\ batch a s = [] /\ summaries = [] /\
        posts (snd (main E a s)) = posts s
    | Declined =>
        both_given a = false /\ batch a s <> [] /\
        affirmative (operator E) = false /\ summaries = [] /\
        posts (snd (main E a s)) = posts s
    | Unreachable =>
        both_given a = false /\ batch a s <> [] /\
        affirmative (operator E) = true /\ probe E (url a) = false /\
        summaries = [] /\ posts (snd (main E a s)) = posts s
    | Complete k t =>
        (both_given a = false /\ affirmative (operator E) = true /\
         probe E (url a) = true) /\
        k = length summaries /\ t = length (batch a s) /\
        length summaries = length (with_content (batch a s)) /\
        posts (snd (main E a s)) = posts s + length summaries
    | Aborted k t =>
        (both_given a = false /\ affirmative (operator E) = true /\
         probe E (url a) = true) /\
        k = length summaries /\ t = length (batch a s) /\
        length summaries < length (with_content (batch a s)) /\
        posts (snd (main E a s)) = posts s + length summaries + 1
    | Crashed _ =>
        (both_given a = false /\ affirmative (operator E) = true /\
         probe E (url a) = true) /\
        length summaries < length (with_content (batch a s)) /\
        posts (snd (main E a s)) = posts s + length summaries
    end.
Proof.
  destruct (main_cases E a s) as (s_mid & R & (F & P & O & _)).
  assert (Quiet : forall o,
             main E a s = (o, s_mid) ->
             Forall2 (summary_of E a)
               (firstn (length (@nil str)) (with_content (batch a s))) [] /\
             (forall q, q <> output_md a ->
                files (snd (main E a s)) q = files s q) /\
             (can_append (files s (output_md a)) = true ->
              file_text (files (snd (main E a s)) (output_md a))
              = file_text (files s (output_md a))
                ++ records (combine (with_content (batch a s)) [])) /\
             (can_append (files s (output_md a)) = false ->
              files (snd (main E a s)) = files s) /\
             (@nil str = [] -> files (snd (main E a s)) = files s) /\
             opened (trace (snd (main E a s)))
             = opened (trace s)
               ++ (if both_given a then [] else output_md a :: inputs a s)
               ++ repeat (output_md a) (length (@nil str)) /\
             posts (snd (main E a s)) = posts s).
  { intros o Ho. rewrite Ho. cbn [snd length repeat].
    rewrite F, P, O, app_nil_r.
    destruct (with_content (batch a s)); cbn [combine records map concat];
      rewrite app_nil_r; repeat split; auto. }
  destruct (both_given a) eqn:B.
  { exists []. destruct (Quiet _ R) as (Q1 & Q2 & Q3 & Q4 & Q4' & Q5 & Q6).
    replace (fst (main E a s)) with ConfigError by (rewrite R; reflexivity).
    repeat split; try assumption; reflexivity. }
  destruct (batch a s) as [|e more] eqn:Eb.
  { exists []. destruct (Quiet _ R) as (Q1 & Q2 & Q3 & Q4 & Q4' & Q5 & Q6).
    replace (fst (main E a s)) with NothingToDo by (rewrite R; reflexivity).
    repeat split; try assumption; reflexivity. }
  destruct (affirmative (operator E)) eqn:A; cbn [negb] in R.
  2:{ exists []. destruct (Quiet _ R) as (Q1 & Q2 & Q3 & Q4 & Q4' & Q5 & Q6).
      replace (fst (main E a s)) with Declined by (rewrite R; reflexivity).
      repeat split; try assumption; try reflexivity. discriminate. }
  destruct (probe E (url a)) eqn:Pr; cbn [negb] in R.
  2:{ exists []. destruct (Quiet _ R) as (Q1 & Q2 & Q3 & Q4 & Q4' & Q5 & Q6).
      replace (fst (main E a s)) with Unreachable by (rewrite R; reflexivity).
      repeat split; try assumption; try reflexivity. discriminate. }
  clear Quiet.
  destruct (process E a (length (e :: more)) 0 0 (e :: more) s_mid)
    as [o s'] eqn:H.
  rewrite R. cbn [fst snd].
  destruct (process_run E a _ _ _ _ _ _ _ H)
    as (summaries & Hs & Ho & Ha & Hd & Hn & Hop & Hk).
  rewrite F, P, O in *. exists summaries.
  split; [exact Hs|]. split; [exact Ho|]. split; [exact Ha|].
  split; [exact Hd|]. split; [exact Hn|].
  split; [rewrite Hop, <- app_assoc; reflexivity|].
  destruct o; try contradiction.
  - destruct Hk as (K1 & K2 & K3 & K4). repeat split; assumption.
  - destruct Hk as (K1 & K2 & K3 & K4). repeat split; assumption.
  - destruct Hk as (K1 & K2). repeat split; assumption.
Qed.

End LoopFacts.

Module EntryFacts.
Import Text Re Direct Journal Shapes.
Import TextFacts StripFacts ReFacts DirectFacts ParseFacts SummaryFacts.
Import RunFacts ProcessFacts BatchFacts LoopFacts.

(** ** Stripped texts *)

(** The stripped text ends with a character that is not whitespace. *)
Lemma strip_last (s m : str) (z : char) :
  strip s = m ++ [z] -> is_space z = false.
Proof.
  unfold strip, rstrip. intros H.
  apply (f_equal (@rev char)) in H.
  rewrite rev_involutive, rev_app_distr in H. cbn [rev app] in H.
  exact (lstrip_head _ _ _ H).
Qed.

(** Stripping twice is stripping once. *)
Lemma strip_idem (s : str) : strip (strip s) = strip s.
Proof.
  destruct (strip s) as [|c t] eqn:E; [reflexivity|].
  pose proof (strip_head _ _ _ E) as Hc.
  destruct (rev t) as [|z m] eqn:R.
  - apply (f_equal (@rev char)) in R. rewrite rev_involutive in R.
    cbn in R. subst t. unfold strip, rstrip. cbn [lstrip rev app].
    rewrite Hc. cbn [lstrip rev app]. rewrite Hc. reflexivity.
  - apply (f_equal (@rev char)) in R. rewrite rev_involutive in R.
    cbn [rev] in R. subst t.
    apply strip_fixed; [exact Hc|].
    apply (strip_last s (c :: rev m) z). exact E.
Qed.

(** ** What the parsers return *)

Lemma org_loop_inv (ms : list rematch) :
  Forall (fun e => content e <> [] /\ strip (content e) = content e /\
                   filename e = None /\
                   exists d, heading e = Some d /\ strip d = d)
    (org_loop ms).
Proof.
  induction ms as [|m ms IH]; [constructor|].
  cbn [org_loop]. destruct (strip (group 2 m)) as [|c b] eqn:S;
    cbn [nonempty]; [exact IH|].
  constructor; [|exact IH]. cbn [content filename heading].
  split; [discriminate|]. split; [rewrite <- S; apply strip_idem|].
  split; [reflexivity|]. eexists. split; [reflexivity | apply strip_idem].
Qed.

Lemma summary_loop_inv (ms : list rematch) :
  Forall (fun e => content e <> [] /\ strip (content e) = content e /\
                   exists h, heading e = Some h /\ strip h = h /\
                             filename e = heading_filename h)
    (summary_loop ms).
Proof.
  induction ms as [|m ms IH]; [constructor|].
  cbn [summary_loop]. destruct (strip (group 2 m)) as [|c b] eqn:S;
    cbn [nonempty]; [exact IH|].
  constructor; [|exact IH]. cbn [content filename heading].
  split; [discriminate|]. split; [rewrite <- S; apply strip_idem|].
  eexists. split; [reflexivity|]. split; [apply strip_idem | reflexivity].
Qed.

Lemma summary_loop_in (e : JournalEntry) :
  forall ms, In e (summary_loop ms) ->
    exists m, In m ms /\
      e = Entry (Some (strip (group 1 m)))
            (heading_filename (strip (group 1 m))) (strip (group 2 m)).
Proof.
  induction ms as [|m ms IH]; cbn [summary_loop]; [intros []|].
  destruct (nonempty (strip (group 2 m))).
  - intros [<- | H].
    + exists m. split; [left; reflexivity | reflexivity].
    + destruct (IH H) as (m' & I & E).
      exists m'. split; [right; exact I | exact E].
  - intros H. destruct (IH H) as (m' & I & E).
    exists m'. split; [right; exact I | exact E].
Qed.

Lemma org_entries_content (text : str) :
  with_content (org_entries text) = org_entries text.
Proof.
  apply with_content_all. unfold org_entries.
  eapply Forall_impl; [|apply org_loop_inv]. intros e H. apply H.
Qed.

(** ** The loop on a template that cannot be formatted, and on entries
    without content *)

Lemma process_bad_template (E : env) (a : args) :
  (forall text, exists x, format E (prompt a) text = inl x) ->
  forall entries total i k s,
    with_content entries <> [] ->
    exists x s',
      process E a total i k entries s = (Crashed x, s') /\ quiet s s'.
Proof.
  intros Hf. induction entries as [|e more IH]; intros total i k s Hne.
  - exfalso. apply Hne. reflexivity.
  - destruct (content e) as [|c0 body] eqn:C.
    + rewrite (process_skip E a total i k e more s C).
      rewrite (with_content_skip e more C) in Hne.
      destruct (IH total (S i) k
                  (Sys (files s) (posts s)
                     (Print MsgSkipEmpty
                        :: Print (MsgProcessing (i + 1) total (entry_heading e))
                        :: trace s)) Hne)
        as (x & s' & R & Q).
      exists x, s'. split; [exact R|].
      eapply quiet_trans; [|exact Q]. split; reflexivity.
    + assert (He : content e <> []) by (rewrite C; discriminate).
      pose proof (process_cons E a total i k e more s He) as Step.
      destruct (Hf (content e)) as (x & F). rewrite F in Step.
      exists x. eexists. split; [exact Step | split; reflexivity].
Qed.

Lemma process_no_content (E : env) (a : args) :
  forall entries total i k s,
    with_content entries = [] ->
    exists s',
      process E a total i k entries s = (Complete k total, s') /\ quiet s s'.
Proof.
  induction entries as [|e more IH]; intros total i k s Hn.
  - rewrite process_nil. eexists. split; [reflexivity | split; reflexivity].
  - destruct (content e) as [|c0 body] eqn:C.
    + rewrite (process_skip E a total i k e more s C).
      rewrite (with_content_skip e more C) in Hn.
      destruct (IH total (S i) k
                  (Sys (files s) (posts s)
                     (Print MsgSkipEmpty
                        :: Print (MsgProcessing (i + 1) total (entry_heading e))
                        :: trace s)) Hn)
        as (s' & R & Q).
      exists s'. split; [exact R|].
      eapply quiet_trans; [|exact Q]. split; reflexivity.
    + rewrite with_content_keep in Hn by (rewrite C; discriminate).
      discriminate.
Qed.

End EntryFacts.

Module PartFacts.
Import Text Re Direct Journal Shapes.
Import TextFacts StripFacts ReFacts DirectFacts ParseFacts SummaryFacts.
Import FilenameFacts OrgFacts EntryFacts.

(** ** Occurrences in a part of a text *)

Lemma starts_with_more (w s t : str) :
  starts_with w s = true -> starts_with w (s ++ t) = true.
Proof.
  revert s. induction w as [|a w IH]; intros s H; [reflexivity|].
  destruct s as [|c s]; [discriminate|]. cbn [starts_with app] in *.
  apply andb_true_iff in H. destruct H as (-> & H). exact (IH s H).
Qed.

Lemma occurs_intro (w s1 s2 : str) :
  starts_with w s2 = true -> occurs w (s1 ++ s2) = true.
Proof.
  intros H. induction s1 as [|c s1 IH].
  - destruct s2; cbn [app occurs]; rewrite H; reflexivity.
  - cbn [app occurs]. rewrite IH. apply orb_true_r.
Qed.

Lemma occurs_elim (w : str) :
  forall s, occurs w s = true ->
    exists s1 s2, s = s1 ++ s2 /\ starts_with w s2 = true.
Proof.
  induction s as [|c s IH]; cbn [occurs]; intros H.
  - exists [], []. split; [reflexivity|].
    apply orb_true_iff in H. destruct H as [H | H]; [exact H | discriminate].
  - apply orb_true_iff in H. destruct H as [H | H].
    + exists [], (c :: s). split; [reflexivity | exact H].
    + destruct (IH H) as (s1 & s2 & -> & H2).
      exists (c :: s1), s2. split; [reflexivity | exact H2].
Qed.

(** A word that does not occur in a text occurs in no part of it. *)
Lemma occurs_part (w a s b : str) :
  occurs w (a ++ s ++ b) = false -> occurs w s = false.
Proof.
  intros H. destruct (occurs w s) eqn:O; [|reflexivity].
  destruct (occurs_elim w s O) as (s1 & s2 & -> & S).
  rewrite <- H. symmetry.
  replace (a ++ (s1 ++ s2) ++ b) with ((a ++ s1) ++ (s2 ++ b))
    by (rewrite <- !app_assoc; reflexivity).
  apply occurs_intro. apply starts_with_more. exact S.
Qed.

Lemma occurs_suffix (w a s : str) :
  occurs w (a ++ s) = false -> occurs w s = false.
Proof.
  intros H. apply (occurs_part w a s []). rewrite app_nil_r. exact H.
Qed.

Lemma split_at_absent (w : str) :
  forall s, occurs w s = false -> split_at w s = None.
Proof.
  induction s as [|c s IH]; cbn [occurs]; intros H;
    apply orb_false_iff in H; destruct H as (H1 & H2).
  - cbn [split_at]. rewrite H1. reflexivity.
  - cbn [split_at]. rewrite H1, (IH H2). reflexivity.
Qed.

(** The stripped text is a part of the text. *)
Lemma lstrip_part (s : str) : exists a, s = a ++ lstrip s.
Proof.
  induction s as [|c s (a & IH)]; [exists []; reflexivity|].
  cbn [lstrip]. destruct (is_space c).
  - exists (c :: a). cbn [app]. rewrite <- IH. reflexivity.
  - exists []. reflexivity.
Qed.

Lemma strip_part (s : str) : exists a b, s = a ++ strip s ++ b.
Proof.
  destruct (lstrip_part s) as (a & Ha).
  destruct (lstrip_part (rev (lstrip s))) as (b & Hb).
  exists a, (rev b). unfold strip, rstrip.
  rewrite <- rev_app_distr, <- Hb, rev_involutive. exact Ha.
Qed.

Lemma occurs_strip (w s : str) :
  occurs w s = false -> occurs w (strip s) = false.
Proof.
  intros H. destruct (strip_part s) as (a & b & E).
  apply (occurs_part w a (strip s) b). rewrite <- E. exact H.
Qed.

(** A text between whitespace strips to what it strips to alone. *)
Lemma strip_framed (s : str) :
  strip (nl :: s ++ [nl; nl]) = strip s.
Proof.
  replace (nl :: s ++ [nl; nl]) with (((nl :: s) ++ [nl]) ++ [nl])
    by (cbn [app]; rewrite <- app_assoc; reflexivity).
  rewrite !strip_snoc_space by reflexivity.
  unfold strip. reflexivity.
Qed.

(** A newline followed by [w] does not come about by adding a newline. *)
Lemma occurs_nl_snoc (w b : str) :
  w <> [] -> ~ In nl w ->
  occurs (nl :: w) b = false -> occurs (nl :: w) (b ++ [nl]) = false.
Proof.
  intros Hw Hn. induction b as [|c b IH].
  - intros _. cbn [app occurs starts_with]. rewrite char_eqb_refl.
    destruct w; [congruence | reflexivity].
  - cbn [occurs app]. intros H. apply orb_false_iff in H.
    destruct H as (H1 & H2). rewrite (IH H2), orb_false_r.
    cbn [starts_with] in *. destruct (char_eqb nl c); [|reflexivity].
    cbn [andb] in *. apply starts_with_snoc_nl; assumption.
Qed.

Lemma filter_all {A : Type} (f : A -> bool) (l : list A) :
  (forall x, In x l -> f x = true) -> filter f l = l.
Proof.
  induction l as [|x l IH]; intros H; [reflexivity|].
  cbn [filter]. rewrite (H x (or_introl eq_refl)). f_equal.
  apply IH. intros y I. apply H. right. exact I.
Qed.

End PartFacts.

Module RecordFacts.
Import Text Re Direct Journal Shapes.
Import TextFacts StripFacts ReFacts DirectFacts ParseFacts SummaryFacts.
Import FilenameFacts OrgFacts RunFacts ProcessFacts RoundTripFacts.
Import EntryFacts PartFacts.

Local Abbreviation sblock p s :=
  (block_match multi md_marker [nl] md_marker (MState p s [])).
Local Abbreviation sscan p s :=
  (summary_loop (scan multi summary_pattern false (MState p s []))).
Local Abbreviation oscan p s :=
  (org_loop (scan multi org_pattern false (MState p s []))).

Lemma md_marker_plain : md_marker <> [] /\ ~ In nl md_marker.
Proof.
  split; [discriminate|]. intros [F | [F | []]]; discriminate.
Qed.

(** ** Texts without a marker *)

Lemma oscan_absent :
  forall s p, occurs org_marker s = false -> oscan p s = [].
Proof.
  induction s as [|c s IH]; intros p H; [apply oscan_nil|].
  cbn [occurs] in H. apply orb_false_iff in H. destruct H as (H1 & H2).
  rewrite oscan_none; [exact (IH (Some c) H2)|].
  unfold block_match. cbn [rest]. rewrite H1, andb_false_r. reflexivity.
Qed.

Lemma sscan_absent :
  forall s p, occurs md_marker s = false -> sscan p s = [].
Proof.
  induction s as [|c s IH]; intros p H; [apply sscan_nil|].
  cbn [occurs] in H. apply orb_false_iff in H. destruct H as (H1 & H2).
  rewrite sscan_none; [exact (IH (Some c) H2)|].
  unfold block_match. cbn [rest]. rewrite H1, andb_false_r. reflexivity.
Qed.

(** ** A record read back *)

Lemma summary_entries_record_exact (h summ : str) :
  plain_record (h, summ) ->
  summary_entries (record_text h summ) = [record_entry (h, summ)].
Proof.
  intros (Hh & Hs & Hne & Hss & Ho). cbn [fst snd] in *.
  change (summary_entries (record_text h summ))
    with (sscan None (record_text h summ)).
  destruct md_marker_plain as (M1 & M2).
  assert (O2 : occurs (nl :: md_marker) (nl :: summ ++ [nl; nl]) = false).
  { replace (nl :: summ ++ [nl; nl]) with (((nl :: summ) ++ [nl]) ++ [nl])
      by (cbn [app]; rewrite <- app_assoc; reflexivity).
    apply occurs_nl_snoc; [assumption..|].
    apply occurs_nl_snoc; assumption. }
  assert (U : until_stop md_marker (nl :: summ ++ [nl; nl])
              = (nl :: summ ++ [nl; nl], [])).
  { rewrite <- (app_nil_r (nl :: summ ++ [nl; nl])) at 1.
    apply until_stop_first; [reflexivity|].
    intros b1 c b2 E. rewrite app_nil_r.
    exact (occurs_false _ _ O2 b1 (c :: b2) E). }
  assert (M : sblock None (record_text h summ)
              = Some (MState (last_char (md_marker ++ h ++ [nl]
                                           ++ nl :: summ ++ [nl; nl]) None)
                        [] [(2, nl :: summ ++ [nl; nl]); (1, h)])).
  { unfold block_match, record_text. cbn [rest prev caps].
    rewrite starts_with_app, skipn_exact.
    replace (at_bol multi
               (MState None (md_marker ++ h ++ [nl; nl] ++ summ ++ [nl; nl]) []))
      with true by reflexivity.
    cbn [andb].
    change (h ++ [nl; nl] ++ summ ++ [nl; nl])
      with (h ++ nl :: (nl :: summ ++ [nl; nl])).
    rewrite split_at_nl by exact Hh.
    rewrite U. reflexivity. }
  rewrite (sscan_some _ _ _ _ _ _ M), sscan_nil, app_nil_r.
  rewrite strip_framed, Hss, Hs.
  destruct summ; [congruence | reflexivity].
Qed.

(** The entries of a document followed by plain records. *)
Lemma summary_entries_plain_records (recs : list (str * str)) (d : str) :
  blank_terminated d ->
  Forall plain_record recs ->
  summary_entries
    (d ++ concat (map (fun hs => record_text (fst hs) (snd hs)) recs))
  = summary_entries d ++ map record_entry recs.
Proof.
  intros Hd Hr. rewrite (summary_entries_records recs d Hd). f_equal.
  induction Hr as [|[h summ] recs Hp _ IH]; [reflexivity|].
  cbn [map concat fst snd]. rewrite IH.
  rewrite (summary_entries_record_exact h summ Hp). reflexivity.
Qed.

(** ** Headings without brackets *)

Lemma fscan_absent :
  forall s p,
    occurs [lbr; lbr] s = false ->
    scan no_flags filename_pattern false (MState p s []) = [].
Proof.
  induction s as [|c s IH]; intros p H; rewrite scan_eq.
  - reflexivity.
  - cbn [occurs] in H. apply orb_false_iff in H. destruct H as (H1 & H2).
    assert (M : match_at no_flags filename_pattern false (MState p (c :: s) [])
                = None).
    { unfold match_at, filename_pattern. cbn [rmatch rest step].
      cbn [starts_with] in H1.
      destruct (char_eqb c lbr) eqn:C; [|reflexivity].
      apply char_eqb_eq in C. subst c. rewrite char_eqb_refl in H1.
      cbn [andb] in H1. destruct s as [|x s]; [reflexivity|].
      cbn [starts_with] in H1. rewrite andb_true_r in H1.
      destruct (char_eqb x lbr) eqn:X; [|reflexivity].
      apply char_eqb_eq in X. subst x. rewrite char_eqb_refl in H1.
      discriminate. }
    rewrite M. cbn [rest]. exact (IH (Some c) H2).
Qed.

Lemma heading_filename_none (h : str) :
  occurs [lbr; lbr] h = false -> heading_filename h = None.
Proof.
  intros H. unfold heading_filename, search, finditer, start_of.
  rewrite (fscan_absent h None H). reflexivity.
Qed.

(** A document without ["[["] names no file. *)
Lemma sscan_untracked :
  forall n s p,
    length s <= n -> occurs [lbr; lbr] s = false ->
    files_already_summarized (sscan p s) = [].
Proof.
  induction n as [|n IH]; intros s p L H.
  - destruct s; [|cbn in L; lia]. rewrite sscan_nil. reflexivity.
  - destruct (sblock p s) as [e|] eqn:B.
    + destruct (block_match_inv _ _ _ _ _ _ B)
        as (h & b & _ & Er & _ & _ & _ & _ & Ec).
      destruct e as [pe r cs]. cbn [rest caps] in *. subst cs.
      rewrite (sscan_some _ _ _ _ _ _ B), fas_app.
      assert (Hh : occurs [lbr; lbr] h = false).
      { apply (occurs_part _ md_marker h ([nl] ++ b ++ r)).
        rewrite <- Er. exact H. }
      assert (Hr : occurs [lbr; lbr] r = false).
      { apply (occurs_suffix _ (md_marker ++ h ++ [nl] ++ b) r).
        rewrite <- !app_assoc. rewrite <- Er. exact H. }
      rewrite (IH r pe); [|rewrite Er, !length_app in L; cbn in L; lia|exact Hr].
      rewrite app_nil_r.
      destruct (nonempty (strip b)); [|reflexivity].
      cbn [files_already_summarized filename].
      rewrite (heading_filename_none _ (occurs_strip _ _ Hh)). reflexivity.
    + rewrite (sscan_none _ _ B). destruct s as [|c s]; [reflexivity|].
      apply IH; [cbn in L; lia|].
      cbn [occurs] in H. apply orb_false_iff in H. apply H.
Qed.

End RecordFacts.

Module ResumeFacts.
Import Text Re Direct Journal Shapes.
Import TextFacts StripFacts ReFacts DirectFacts ParseFacts SummaryFacts.
Import ThinkFacts FilenameFacts OrgFacts RunFacts ProcessFacts RoundTripFacts.
Import BatchFacts LoopFacts EntryFacts PartFacts RecordFacts.





(** ** Selecting again *)






End ResumeFacts.

Module BracketFacts.
Import Text Re Direct Journal Shapes.
Import TextFacts StripFacts ReFacts DirectFacts ParseFacts SummaryFacts.
Import FilenameFacts OrgFacts EntryFacts PartFacts RecordFacts.

Local Abbreviation fscan p s :=
  (scan no_flags filename_pattern false (MState p s [])).

Lemma split_at_none_occurs (w : str) :
  forall s, split_at w s = None -> occurs w s = false.
Proof.
  induction s as [|c s IH]; cbn [split_at occurs].
  - destruct (starts_with w []); [discriminate | reflexivity].
  - destruct (starts_with w (c :: s)); [discriminate|].
    destruct (split_at w s) as [[a b]|]; [discriminate|].
    intros _. exact (IH eq_refl).
Qed.

(** Where no ["[["] starts, the pattern does not match. *)
Lemma fmatch_no_open (p : option char) (s : str) :
  starts_with [lbr; lbr] s = false ->
  match_at no_flags filename_pattern false (MState p s []) = None.
Proof.
  intros H. unfold match_at, filename_pattern. cbn [rmatch rest step].
  destruct s as [|c s]; [reflexivity|].
  cbn [starts_with] in H.
  destruct (char_eqb c lbr) eqn:C; [|reflexivity].
  apply char_eqb_eq in C. subst c. rewrite char_eqb_refl in H.
  cbn [andb] in H. destruct s as [|x s]; [reflexivity|].
  cbn [starts_with] in H. rewrite andb_true_r in H.
  destruct (char_eqb x lbr) eqn:X; [|reflexivity].
  apply char_eqb_eq in X. subst x. rewrite char_eqb_refl in H.
  discriminate.
Qed.

(** After ["[["] the name runs to the first ["]]"]. *)
Lemma fmatch_open (p : option char) (r : str) :
  ~ In nl r ->
  match_at no_flags filename_pattern false (MState p ([lbr; lbr] ++ r) [])
  = match split_at [rbr; rbr] r with
    | Some (f, r2) =>
        Some (MState (last_char (f ++ [rbr; rbr]) (Some lbr)) r2 [(1, f)])
    | None => None
    end.
Proof.
  intros Hn.
  set (st := MState p ([lbr; lbr] ++ r) []).
  set (st1 := MState (Some lbr) r []).
  unfold match_at.
  change (rmatch no_flags filename_pattern (accept false st) st)
    with (lazy_dots (dotall no_flags)
            (fun st' => rmatch no_flags (word [rbr; rbr]) (accept false st)
                          (set_group 1 (consumed st1 st') st'))
            (Some lbr) r []).
  destruct (split_at [rbr; rbr] r) as [[f r2]|] eqn:S.
  - pose proof (split_at_some _ _ _ _ S) as (E & _).
    apply (lazy_dots_word_hit no_flags [rbr; rbr] (accept false st)
             (fun st' => set_group 1 (consumed st1 st') st'))
      with (h := f) (r := r2).
    + right. intros I. apply Hn. rewrite E. apply in_or_app. left. exact I.
    + intros x; split; reflexivity.
    + exact S.
    + cbn [set_group caps]. unfold consumed, st1. cbn [rest].
      replace (length r - length ([rbr; rbr] ++ r2)) with (length f)
        by (rewrite E, !length_app; lia).
      rewrite E at 1. rewrite firstn_exact. reflexivity.
  - apply (lazy_dots_word_none no_flags [rbr; rbr] (accept false st)
             (fun st' => set_group 1 (consumed st1 st') st')).
    + intros x; split; reflexivity.
    + exact S.
Qed.

(** The scanner passes over a text in which no ["[["] starts. *)
Lemma fscan_skip (x : str) :
  forall a p,
    (forall a1 c a2, a = a1 ++ c :: a2 ->
       starts_with [lbr; lbr] (c :: a2 ++ x) = false) ->
    fscan p (a ++ x) = fscan (last_char a p) x.
Proof.
  induction a as [|c a IH]; intros p H; [reflexivity|].
  cbn [app]. rewrite scan_eq.
  rewrite (fmatch_no_open p (c :: a ++ x) (H [] c a eq_refl)).
  cbn [rest]. rewrite (IH (Some c)); [reflexivity|].
  intros a1 c' a2 E. subst a. exact (H (c :: a1) c' a2 eq_refl).
Qed.

(** Without a ["]]"] ahead, nothing matches. *)
Lemma fscan_unclosed :
  forall s p,
    ~ In nl s -> occurs [rbr; rbr] s = false -> fscan p s = [].
Proof.
  induction s as [|c s IH]; intros p Hn Ho; rewrite scan_eq.
  - reflexivity.
  - assert (M : match_at no_flags filename_pattern false (MState p (c :: s) [])
                = None).
    { destruct (starts_with [lbr; lbr] (c :: s)) eqn:S;
        [|exact (fmatch_no_open p (c :: s) S)].
      apply starts_with_skipn in S. rewrite S.
      rewrite fmatch_open.
      - rewrite split_at_absent; [reflexivity|].
        apply (occurs_suffix _ [lbr; lbr]). rewrite <- S. exact Ho.
      - intros I. apply Hn. rewrite S. apply in_or_app. right. exact I. }
    rewrite M. cbn [rest]. apply IH.
    + intros I. apply Hn. right. exact I.
    + cbn [occurs] in Ho. apply orb_false_iff in Ho. apply Ho.
Qed.

Lemma heading_filename_read (h : str) :
  ~ In nl h -> heading_filename h = bracket_name h.
Proof.
  intros Hn. unfold bracket_name.
  destruct (split_at [lbr; lbr] h) as [[a r]|] eqn:S.
  - apply split_at_some in S. destruct S as (E & Ha).
    assert (Hr : ~ In nl r).
    { intros I. apply Hn. rewrite E. apply in_or_app. right.
      apply in_or_app. right. exact I. }
    unfold heading_filename, search, finditer, start_of.
    rewrite E, (fscan_skip _ a None Ha), scan_eq, (fmatch_open _ r Hr).
    destruct (split_at [rbr; rbr] r) as [[f r2]|] eqn:S2.
    + reflexivity.
    + cbn [rest app]. rewrite fscan_unclosed; [reflexivity| |].
      * intros [F | I]; [discriminate | exact (Hr I)].
      * cbn [occurs starts_with].
        rewrite (split_at_none_occurs _ _ S2). reflexivity.
  - apply heading_filename_none. apply split_at_none_occurs. exact S.
Qed.

End BracketFacts.


(* ================================================================== *)
(** * The claims of the specification *)
(* ================================================================== *)

Module Claims.
Import Text Re Direct Journal Shapes Stated Examples.
Import TextFacts StripFacts ReFacts DirectFacts ParseFacts SummaryFacts.
Import ThinkFacts FilenameFacts OrgFacts RunFacts ProcessFacts RoundTripFacts.

(** ** C5: the two input modes exclude each other *)

(** C5.  An invocation that supplies both an outline document path and
    per-file paths ends with the configuration error, and before that it
    has only printed: no file was opened, to read or to append, and no
    request was sent. *)
Theorem mutual_exclusivity (E : env) (a : args) (s : sys)
    (outline : str) (paths : list str) :
  input_journal_org a = Some outline -> outline <> [] ->
  input_entry_md a = Some paths -> paths <> [] ->
  main E a s
  = (ConfigError,
     Sys (files s) (posts s)
       (Print MsgBothInputs :: Print (MsgUrl (url a))
          :: Print (MsgModel (model a)) :: Print (MsgOutputFile (output_md a))
          :: Print MsgStarting :: trace s))
  /\ opened (trace (snd (main E a s))) = opened (trace s)
  /\ requests (trace (snd (main E a s))) = requests (trace s).
Proof.
  intros Ho Hne Hp Hpe.
  assert (R : main E a s
              = (ConfigError,
                 Sys (files s) (posts s)
                   (Print MsgBothInputs :: Print (MsgUrl (url a))
                      :: Print (MsgModel (model a))
                      :: Print (MsgOutputFile (output_md a))
                      :: Print MsgStarting :: trace s))).
  { unfold main. rewrite Ho, Hp.
    destruct outline as [|c o]; [congruence|].
    destruct paths as [|p ps]; [congruence|].
    cbn [truthy given andb]. do 5 run_print. reflexivity. }
  rewrite R. repeat split.
Qed.

Lemma mutual_exclusivity_witness :
  fst (main env_ok both_modes (boot notes_fs)) = ConfigError
  /\ opened (trace (snd (main env_ok both_modes (boot notes_fs)))) = [].
Proof.
  destruct (mutual_exclusivity env_ok both_modes (boot notes_fs)
              journal_org [note1])
    as (R & O & _).
  - reflexivity.
  - discriminate.
  - reflexivity.
  - discriminate.
  - split; [rewrite R; reflexivity | exact O].
Defined.

(** ** C4: the failures of the request *)

(** C4.  Whatever the entry text, the model, the service address and the
    prompt template: once the request is issued, each of the failure modes
    (connection refused or host unreachable, timeout, any other transport
    failure, an error status, a body that is not JSON) makes the client
    return the failure signal [None] after it has logged the error; no
    exception leaves the call. *)
Theorem client_failure_totality (E : env) (text m u tpl p : str) (s : sys) :
  format E tpl text = inr p ->
  failure_mode (service E (posts s) (u ++ api_generate) m p) ->
  exists e,
    handler u e <> [] /\
    summarize_with_ollama E text m u tpl s
    = (Returned None,
       Sys (files s) (S (posts s))
         (rev (map Print (handler u e))
            ++ HttpPost (u ++ api_generate) m p
            :: Print (MsgSending m) :: trace s)).
Proof.
  intros F Hf. rewrite (summarize_run E text m u tpl p s F).
  assert (G : exists e,
             generated_summary (service E (posts s) (u ++ api_generate) m p)
             = inl e).
  { inversion Hf as [e He Ho|e He Ho|e He Ho|b Ho|e Ho];
      cbn [generated_summary]; eexists; reflexivity. }
  destruct G as (e & ->). exists e. split; [|reflexivity].
  unfold handler.
  destruct (is_ConnectionError e); [discriminate|].
  destruct (is_Timeout e); [discriminate|].
  destruct (is_RequestException e); [discriminate|].
  destruct (is_JSONDecodeError e); discriminate.
Qed.

Lemma client_failure_totality_witness :
  fst (summarize_with_ollama (env_of (fun _ _ _ _ => PostRaises ReadTimeout))
         (lit "Went hiking.") default_model default_url default_prompt
         (boot notes_fs))
  = Returned None.
Proof.
  edestruct (client_failure_totality
               (env_of (fun _ _ _ _ => PostRaises ReadTimeout))
               (lit "Went hiking.") default_model default_url default_prompt)
    as (e & _ & R).
  - reflexivity.
  - apply RequestTimeout. reflexivity.
  - rewrite R. reflexivity.
Defined.


(** ** C7: reasoning spans *)

(** C7.  On every well-formed response the client returns the generated
    text with its surrounding whitespace stripped and with every
    [<think>...</think>] span removed, tags and contents, wherever it
    stands: each span runs from an opening tag to the nearest closing tag
    after it, as [drop_spans] removes them.  In particular
    ["<think>internal</think>Final answer."] becomes ["Final answer."]. *)
Theorem reasoning_spans_removed (generated : str) :
  generated_summary (well_formed generated)
  = inr (strip (drop_spans think_open think_close 0 (strip generated)))
  /\ generated_summary
       (well_formed (lit "<think>internal</think>Final answer."))
     = inr (lit "Final answer.").
Proof.
  split; [|reflexivity].
  cbn [generated_summary well_formed]. unfold clean.
  rewrite sub_think. reflexivity.
Qed.

(** ** C9: a summary that is empty after cleaning *)

(** C9.  When the generated text of a well-formed response is empty after
    stripping and span removal, the client returns the empty string, not
    the failure signal; the Batch Runner nevertheless treats the entry as
    failed: it appends nothing, sends no further request and aborts the
    rest of the batch. *)
Theorem empty_summary_aborts (E : env) (a : args) (total i k : nat)
    (e : JournalEntry) (more : list JournalEntry) (s : sys)
    (p generated : str) :
  content e <> [] ->
  format E (prompt a) (content e) = inr p ->
  service E (posts s) (url a ++ api_generate) (model a) p
  = well_formed generated ->
  clean generated = [] ->
  fst (summarize_with_ollama E (content e) (model a) (url a) (prompt a) s)
  = Returned (Some [])
  /\ exists s1,
       process E a total i k (e :: more) s = (Aborted k total, s1) /\
       files s1 = files s /\
       opened (trace s1) = opened (trace s) /\
       requests (trace s1)
       = requests (trace s) ++ [(url a ++ api_generate, model a, p)].
Proof.
  intros He F Hs Hc. split.
  - rewrite (summarize_run E _ _ _ _ p s F), Hs.
    cbn [generated_summary well_formed fst]. rewrite Hc. reflexivity.
  - pose proof (process_cons E a total i k e more s He) as Step.
    rewrite F in Step. cbv zeta in Step. rewrite Hs in Step.
    cbn [generated_summary well_formed] in Step. rewrite Hc in Step.
    destruct Step as (s1 & R & Fs & _ & Rq & _ & Op).
    exists s1. repeat split; assumption.
Qed.

Lemma empty_summary_aborts_witness :
  fst (process (env_of (answering (lit "<think>hm</think>")))
         (per_file [note1; note2]) 2 0 0
         [entry_of notes_fs note1; entry_of notes_fs note2] (boot notes_fs))
  = Aborted 0 2.
Proof.
  edestruct (empty_summary_aborts (env_of (answering (lit "<think>hm</think>")))
               (per_file [note1; note2]) 2 0 0
               (entry_of notes_fs note1) [entry_of notes_fs note2]
               (boot notes_fs))
    as (_ & s1 & R & _).
  - discriminate.
  - reflexivity.
  - reflexivity.
  - reflexivity.
  - rewrite R. reflexivity.
Defined.

(** ** C2: the first failure ends the batch *)





(** ** C3: a written record is read back *)




(** ** C6, C8: the outline parser *)









(** ** C10, C1: the completion set within a run and across runs *)

Lemma count_occ_filter (f : str -> bool) (x : str) :
  f x = true ->
  forall l, count_occ str_eq_dec (filter f l) x = count_occ str_eq_dec l x.
Proof.
  intros Hx. induction l as [|y l IH]; [reflexivity|].
  cbn [filter count_occ]. destruct (f y) eqn:Fy.
  - cbn [count_occ]. destruct (str_eq_dec y x); rewrite IH; reflexivity.
  - destruct (str_eq_dec y x) as [-> | N]; [congruence | exact IH].
Qed.

Lemma combine_map_l {A B C : Type} (f : A -> B) :
  forall (l : list A) (l2 : list C),
    combine (map f l) l2
    = map (fun ps => (f (fst ps), snd ps)) (combine l l2).
Proof.
  induction l as [|x l IH]; intros [|y l2]; cbn [map combine fst snd];
    try reflexivity.
  rewrite IH. reflexivity.
Qed.

Lemma todo_readable (fs : str -> file) (todo : list str) :
  Forall (readable_nonempty fs) todo ->
  Forall (fun p => exists c w, fs p = File c w) todo /\
  Forall (fun e => content e <> []) (map (entry_of fs) todo).
Proof.
  induction 1 as [|p todo (c & w & Hp & Hc) _ (IH1 & IH2)];
    split; constructor; try assumption.
  - exists c, w. exact Hp.
  - unfold entry_of. cbn [content]. rewrite Hp. exact Hc.
Qed.

(** C10.  The completion set is computed once, from the output document
    as it stands before processing: the batch is the input list filtered
    by that set, so a path listed more than once (or two paths with one
    base name) that is not in it stays in the batch once per occurrence,
    and a run in which every entry is summarized sends one request and
    appends one record for every occurrence. *)
Theorem completion_set_fixed (E : env) (a : args) (paths : list str)
    (s : sys) :
  let todo := files_to_summarize paths (completion_set s (output_md a)) in
  input_journal_org a = None ->
  input_entry_md a = Some paths ->
  todo <> [] ->
  Forall (readable_nonempty (files s)) todo ->
  Forall (fun p => exists q,
            format E (prompt a) (file_text (files s p)) = inr q) todo ->
  (forall n u m p, exists c r,
      generated_summary (service E n u m p) = inr (c :: r)) ->
  affirmative (operator E) = true ->
  probe E (url a) = true ->
  can_append (files s (output_md a)) = true ->
  (forall p,
      mem (basename p) (completion_set s (output_md a)) = false ->
      count_occ str_eq_dec todo p = count_occ str_eq_dec paths p)
  /\ exists s' summaries,
       main E a s = (Complete (length todo) (length todo), s') /\
       length summaries = length todo /\
       Forall (fun summ => summ <> []) summaries /\
       posts s' = posts s + length todo /\
       file_text (files s' (output_md a))
       = file_text (files s (output_md a))
         ++ concat
              (map (fun ps =>
                      record_text
                        (fstr (entry_heading (entry_of (files s) (fst ps))))
                        (snd ps))
                 (combine todo summaries)).
Proof.
  intros todo Horg Hmd Hne Hread Hfmt Hsvc Haff Hprobe Hw. split.
  - intros p Hp. unfold todo, files_to_summarize.
    apply count_occ_filter. rewrite Hp. reflexivity.
  - destruct (todo_readable (files s) todo Hread) as (Hr & Hc).
    destruct (main_per_file E a paths s Horg Hmd Hr)
      as (s_mid & (Fm & Pm) & Cases).
    fold todo in Cases.
    assert (Hmain : main E a s
                    = process E a (length (map (entry_of (files s)) todo)) 0 0
                        (map (entry_of (files s)) todo) s_mid).
    { destruct Cases as [(En & _) | [(_ & A & _) | [(_ & _ & P & _) | (_ & _ & _ & R)]]].
      - destruct todo; [congruence | discriminate].
      - congruence.
      - congruence.
      - exact R. }
    assert (Hgo : Forall (fun e => content e <> [] /\
                            exists q, format E (prompt a) (content e) = inr q)
                    (map (entry_of (files s)) todo)).
    { apply Forall_forall. intros e He. apply in_map_iff in He.
      destruct He as (p & <- & Ip). split.
      - rewrite Forall_forall in Hc. apply Hc. apply in_map. exact Ip.
      - rewrite Forall_forall in Hfmt. exact (Hfmt p Ip). }
    destruct (process_succeeds E a Hsvc (map (entry_of (files s)) todo)
                (length (map (entry_of (files s)) todo)) 0 0 s_mid Hgo)
      as (s' & R).
    assert (Hw' : can_append (files s_mid (output_md a)) = true)
      by (rewrite Fm; exact Hw).
    destruct (process_complete E a _ _ _ _ _ _ _ _ Hc Hw' R)
      as (summaries & F2 & T & _ & _ & _ & _ & P).
    exists s', summaries. rewrite length_map in *.
    split; [rewrite Hmain, R; reflexivity|].
    split; [apply Forall2_length in F2; rewrite length_map in F2;
            symmetry; exact F2|].
    split.
    { clear - F2. induction F2 as [|e summ es ss (_ & _ & _ & _ & _ & H) _ IH];
        constructor; assumption. }
    split; [rewrite P, Pm; reflexivity|].
    rewrite T, Fm, combine_map_l, map_map. reflexivity.
Qed.

Lemma completion_set_fixed_witness :
  fst (main env_ok (per_file [note1; note1]) (boot notes_fs)) = Complete 2 2.
Proof.
  destruct (completion_set_fixed env_ok (per_file [note1; note1])
              [note1; note1] (boot notes_fs))
    as (_ & s' & summaries & R & _).
  - reflexivity.
  - reflexivity.
  - discriminate.
  - repeat constructor; eexists _, _; (split; [reflexivity | discriminate]).
  - repeat constructor; eexists; reflexivity.
  - intros n u m p. eexists _, _. reflexivity.
  - reflexivity.
  - reflexivity.
  - reflexivity.
  - rewrite R. reflexivity.
Defined.








End Claims.

(* ================================================================== *)
(** * Further properties of the program *)
(* ================================================================== *)

Module Further.
Import Text Re Direct Journal Shapes Stated Examples.
Import TextFacts StripFacts ReFacts DirectFacts ParseFacts SummaryFacts.
Import ThinkFacts FilenameFacts OrgFacts RunFacts ProcessFacts RoundTripFacts.
Import BatchFacts LoopFacts EntryFacts PartFacts RecordFacts ResumeFacts.
Import BracketFacts.

(** X1.  Empty-body filtering: in an outline of plain blocks, the blocks
    whose body is only whitespace produce no entry; the others produce
    theirs, in order. *)
Theorem blank_bodies_dropped (blocks : list (str * str)) :
  Forall plain_block blocks ->
  org_entries (render_outline blocks)
  = map block_entry
      (filter (fun blk => nonempty (strip (snd blk))) blocks).
Proof.
  intros Hb. unfold org_entries, finditer, start_of.
  rewrite (oscan_outline blocks None (or_introl eq_refl) Hb).
  clear Hb. induction blocks as [|[d b] more IH]; [reflexivity|].
  cbn [map concat filter fst snd]. rewrite IH.
  destruct (nonempty (strip b)); reflexivity.
Qed.

Lemma blank_bodies_dropped_witness :
  map heading (org_entries (render_outline blank_middle))
  = [Some (lit "A"); Some (lit "C")].
Proof.
  rewrite (blank_bodies_dropped blank_middle).
  - reflexivity.
  - repeat constructor; cbn; intros I;
      repeat (destruct I as [I | I]; [discriminate|]); exact I.
Defined.

(** X2.  The two block patterns match exactly what their direct readings
    say: at the start of a line, the marker, the heading up to the first
    terminator, and the shortest body that is followed by the end of the
    text or by a newline and the stop. *)
Theorem block_patterns_read (ma : bool) (st : mstate) :
  match_at multi org_pattern ma st
  = block_match multi org_marker [gt; nl] org_stop st
  /\ match_at multi summary_pattern ma st
     = block_match multi md_marker [nl] md_marker st.
Proof. split; [apply org_match_at | apply summary_match_at]. Qed.

(** X3.  The Output Writer is append-only: it leaves every other file as
    it is, extends the output document by exactly one record when the
    document can be appended to, changes nothing when it cannot, and
    sends no request. *)
Theorem writer_appends_only (out h summary : str) (s : sys) :
  let s' := snd (append_summary_to_markdown out h summary s) in
  (forall q, q <> out -> files s' q = files s q)
  /\ (can_append (files s out) = true ->
      file_text (files s' out)
      = file_text (files s out) ++ record_text h summary)
  /\ (can_append (files s out) = false -> files s' = files s)
  /\ posts s' = posts s.
Proof.
  cbv zeta. rewrite append_summary_run. cbn [snd files posts].
  repeat split.
  - intros q Hq. destruct (can_append (files s out)); [|reflexivity].
    apply write_to_other. exact Hq.
  - intros Hw. rewrite Hw. apply write_to_same. exact Hw.
  - intros Hw. rewrite Hw. reflexivity.
Qed.

(** X4.  A failure to write does not end the batch: when the output
    document cannot be appended to, an entry with a non-empty summary is
    still counted as processed and the loop goes on with the next entry,
    the files left as they were. *)
Theorem write_failure_goes_on (E : env) (a : args) (total i k : nat)
    (e : JournalEntry) (more : list JournalEntry) (s : sys)
    (p : str) (c : char) (summ : str) :
  content e <> [] ->
  format E (prompt a) (content e) = inr p ->
  generated_summary
    (service E (posts s) (url a ++ api_generate) (model a) p)
  = inr (c :: summ) ->
  can_append (files s (output_md a)) = false ->
  exists s1,
    process E a total i k (e :: more) s
    = process E a total (S i) (S k) more s1
    /\ files s1 = files s.
Proof.
  intros He F G Hw.
  pose proof (process_cons E a total i k e more s He) as Step.
  rewrite F in Step. cbv zeta in Step. rewrite G, Hw in Step.
  destruct Step as (s1 & R & Fs & _). exists s1. split; assumption.
Qed.

Lemma write_failure_goes_on_witness :
  fst (process env_ok (per_file [note1]) 1 0 0 [entry_of notes_fs note1]
         (boot (fun path => if str_eqb path out_md then Denied
                            else notes_fs path)))
  = Complete 1 1.
Proof.
  edestruct (write_failure_goes_on env_ok (per_file [note1]) 1 0 0
               (entry_of notes_fs note1) []
               (boot (fun path => if str_eqb path out_md then Denied
                                  else notes_fs path)))
    as (s1 & R & _).
  - discriminate.
  - reflexivity.
  - reflexivity.
  - reflexivity.
  - rewrite R. reflexivity.
Defined.

(** X5.  The per-file reader skips what it cannot read: the entries are
    those of the readable paths, in their order, and reading changes
    neither a file nor the request counter. *)
Theorem unreadable_inputs_skipped (paths : list str) :
  forall s, exists s',
    read_entries paths s
    = (map (entry_of (files s))
         (filter (fun p => readable (files s p)) paths), s')
    /\ quiet s s'.
Proof.
  induction paths as [|p more IH]; intros s.
  - exists s. split; [reflexivity | apply quiet_refl].
  - cbn [read_entries filter]. run_print.
    rewrite bind_run, read_text_run. cbn [files posts trace].
    set (s2 := Sys (files s) (posts s)
                 (OpenRead p :: Print (MsgReading p) :: trace s)).
    destruct (files s p) as [| |c w] eqn:Hp; cbn [readable]; cbv beta iota.
    + run_print.
      match goal with
      | |- context [read_entries more ?s3] =>
          destruct (IH s3) as (s' & R & Q); rewrite R
      end.
      exists s'. split; [reflexivity|].
      eapply quiet_trans; [|exact Q]. split; reflexivity.
    + run_print.
      match goal with
      | |- context [read_entries more ?s3] =>
          destruct (IH s3) as (s' & R & Q); rewrite R
      end.
      exists s'. split; [reflexivity|].
      eapply quiet_trans; [|exact Q]. split; reflexivity.
    + destruct (IH s2) as (s' & R & Q).
      rewrite bind_run, R. cbv beta iota. unfold ret. exists s'. split.
      * cbn [map]. unfold entry_of at 2. rewrite Hp. reflexivity.
      * eapply quiet_trans; [|exact Q]. split; reflexivity.
Qed.

(** X6.  Appending a record to a document of the Output Writer keeps
    every entry the Completion Tracker read from the document before, and
    adds what it reads from the record. *)
Theorem earlier_entries_kept (d h summary : str) :
  blank_terminated d ->
  summary_entries (d ++ record_text h summary)
  = summary_entries d ++ summary_entries (record_text h summary).
Proof.
  intros Hd. apply summary_entries_app; [exact Hd|].
  right. rewrite <- (app_nil_r (record_text h summary)). apply record_starts.
Qed.

Lemma earlier_entries_kept_witness :
  map filename
    (summary_entries (record_text (lit "[[note1]]") fine_day
                        ++ record_text (lit "[[note2]]") fine_day))
  = [Some (lit "note1"); Some (lit "note2")].
Proof.
  rewrite (earlier_entries_kept (record_text (lit "[[note1]]") fine_day)
             (lit "[[note2]]") fine_day).
  - reflexivity.
  - apply (record_blank [] (lit "[[note1]]") fine_day).
Defined.




Lemma parse_org_file_run (path text : str) (w : bool) (s : sys) :
  files s path = File text w ->
  exists s', parse_org_journal path s = (org_entries text, s') /\ quiet s s'.
Proof.
  intros H. unfold parse_org_journal, read_and_parse.
  rewrite bind_run, read_text_run, H. cbv beta iota. unfold ret.
  eexists. split; [reflexivity | split; reflexivity].
Qed.

(** X8.  Outline mode is not filtered by the completion set: whatever the
    output document holds, a confirmed run with the service up processes
    every entry of the outline document. *)
Theorem outline_batch_not_filtered (E : env) (a : args) (path text : str)
    (w : bool) (s : sys) :
  input_entry_md a = None ->
  input_journal_org a = Some path -> path <> [] ->
  files s path = File text w ->
  org_entries text <> [] ->
  affirmative (operator E) = true ->
  probe E (url a) = true ->
  exists s_mid,
    quiet s s_mid /\
    main E a s
    = process E a (length (org_entries text)) 0 0 (org_entries text) s_mid.
Proof.
  intros Hmd Horg Hp Hf Hne Haff Hprobe.
  unfold main. rewrite Horg, Hmd.
  destruct path as [|c0 path']; [congruence|].
  cbn [truthy given andb].
  do 4 run_print.
  set (s1 := Sys _ _ _).
  assert (Q1 : quiet s s1) by (split; reflexivity).
  destruct (parse_summary_file_run (output_md a) s1) as (s2 & P & Q2).
  rewrite bind_run, P. cbv beta iota.
  assert (Q12 : quiet s s2) by exact (quiet_trans _ _ _ Q1 Q2).
  assert (Hf2 : files s2 (c0 :: path') = File text w).
  { destruct Q12 as (F2 & _). rewrite F2. exact Hf. }
  destruct (parse_org_file_run (c0 :: path') text w s2 Hf2) as (s3 & R & Q3).
  rewrite bind_run, R. cbv beta iota.
  assert (Q13 : quiet s s3) by exact (quiet_trans _ _ _ Q12 Q3).
  destruct (org_entries text) as [|e more] eqn:Ee; [congruence|].
  do 2 run_print. rewrite bind_run.
  match goal with
  | |- context [list_entries (e :: more) ?s4] =>
      destruct (list_entries_run (e :: more) s4) as (s5 & L & Q5);
      assert (Q4 : quiet s s4)
        by (eapply quiet_trans; [exact Q13 | split; reflexivity])
  end.
  rewrite L. cbv beta iota. run_emit.
  assert (Q : quiet s s5) by exact (quiet_trans _ _ _ Q4 Q5).
  rewrite Haff. cbn [negb].
  unfold test_ollama_connection. rewrite bind_run, bind_run, emit_run.
  cbv beta iota. rewrite Hprobe. unfold ret at 1. cbn [negb].
  eexists. split; [|reflexivity].
  eapply quiet_trans; [exact Q | split; reflexivity].
Qed.

Lemma outline_batch_not_filtered_witness :
  exists s_mid,
    quiet (boot (fun path =>
                   if str_eqb path journal_org
                   then File (render_outline abc_blocks) true
                   else if str_eqb path out_md
                   then File (record_text (lit "A") fine_day) true
                   else Missing)) s_mid /\
    main env_ok
      (Args (Some journal_org) None out_md default_model default_url
         default_prompt)
      (boot (fun path =>
               if str_eqb path journal_org
               then File (render_outline abc_blocks) true
               else if str_eqb path out_md
               then File (record_text (lit "A") fine_day) true
               else Missing))
    = process env_ok
        (Args (Some journal_org) None out_md default_model default_url
           default_prompt)
        (length (org_entries (render_outline abc_blocks))) 0 0
        (org_entries (render_outline abc_blocks)) s_mid.
Proof.
  apply (outline_batch_not_filtered env_ok
           (Args (Some journal_org) None out_md default_model default_url
              default_prompt)
           journal_org (render_outline abc_blocks) true).
  - reflexivity.
  - reflexivity.
  - discriminate.
  - reflexivity.
  - vm_compute. discriminate.
  - reflexivity.
  - reflexivity.
Defined.

(** X9.  A run writes to the output document only, and only by appending:
    every other file is left as it is, an output document that cannot be
    appended to is left as it is, and one that can grows by the records
    of the first entries with content, in their order, each under the
    heading of its entry and with the summary the client made for that
    entry, which is not empty. *)
Theorem run_only_appends (E : env) (a : args) (s : sys) :
  (forall q, q <> output_md a -> files (snd (main E a s)) q = files s q)
  /\ (can_append (files s (output_md a)) = false ->
      files (snd (main E a s)) = files s)
  /\ exists summaries,
       Forall2 (summary_of E a)
         (firstn (length summaries) (with_content (batch a s))) summaries /\
       length summaries <= length (with_content (batch a s)) /\
       (can_append (files s (output_md a)) = true ->
        file_text (files (snd (main E a s)) (output_md a))
        = file_text (files s (output_md a))
          ++ records (combine (with_content (batch a s)) summaries)).
Proof.
  destruct (main_run E a s) as (summaries & Hs & Ho & Ha & Hd & _ & _ & Hk).
  split; [exact Ho|]. split; [exact Hd|].
  exists summaries. split; [exact Hs|]. split; [|exact Ha].
  - destruct (fst (main E a s)).
    + destruct Hk as (_ & -> & _). apply Nat.le_0_l.
    + destruct Hk as (_ & _ & -> & _). apply Nat.le_0_l.
    + destruct Hk as (_ & _ & _ & -> & _). apply Nat.le_0_l.
    + destruct Hk as (_ & _ & _ & _ & -> & _). apply Nat.le_0_l.
    + destruct Hk as (_ & _ & _ & K & _). apply Nat.lt_le_incl. exact K.
    + destruct Hk as (_ & _ & _ & K & _). exact (Nat.eq_le_incl _ _ K).
    + destruct Hk as (_ & K & _). apply Nat.lt_le_incl. exact K.
Qed.

(** X10.  The counters of a run.  When the loop reaches its end, the
    reported total is the number of entries of the batch and the
    processed count is the number of entries with content, each of which
    took one request; when the run aborts, the processed count is below
    the number of entries with content and one more request was sent than
    entries were processed; no other way to end sends a request, but for
    an exception that leaves the loop, and then fewer requests were sent
    than there are entries with content. *)
Theorem report_counts (E : env) (a : args) (s : sys) :
  match fst (main E a s) with
  | Complete k t =>
      t = length (batch a s) /\ k = length (with_content (batch a s)) /\
      k <= t /\ posts (snd (main E a s)) = posts s + k
  | Aborted k t =>
      t = length (batch a s) /\ k < length (with_content (batch a s)) /\
      k < t /\ posts (snd (main E a s)) = posts s + k + 1
  | Crashed _ =>
      posts (snd (main E a s)) < posts s + length (with_content (batch a s))
  | _ => posts (snd (main E a s)) = posts s
  end.
Proof.
  destruct (main_run E a s) as (summaries & _ & _ & _ & _ & _ & _ & Hk).
  pose proof (with_content_length (batch a s)) as L.
  destruct (fst (main E a s)).
  - apply Hk.
  - apply Hk.
  - apply Hk.
  - apply Hk.
  - destruct Hk as (_ & -> & -> & K & P). repeat split; try assumption; lia.
  - destruct Hk as (_ & -> & -> & K & P). rewrite <- K.
    repeat split; try assumption; lia.
  - destruct Hk as (_ & K & P). lia.
Qed.

(** X11.  Nothing happens without the operator's consent and a service
    that answers the probe: when the reply is not [y] or the probe fails,
    the run changes no file and sends no generation request; it ends as
    declined or as unreachable when there was a batch, in this order of
    the checks. *)
Theorem run_needs_consent_and_service (E : env) (a : args) (s : sys) :
  affirmative (operator E) = false \/ probe E (url a) = false ->
  quiet s (snd (main E a s))
  /\ fst (main E a s)
     = (if both_given a then ConfigError
        else match batch a s with
             | [] => NothingToDo
             | _ :: _ =>
                 if affirmative (operator E) then Unreachable else Declined
             end).
Proof.
  intros H. destruct (main_cases E a s) as (s_mid & R & Q).
  apply reads_quiet in Q.
  destruct (both_given a); [rewrite R; split; [exact Q | reflexivity]|].
  destruct (batch a s); [rewrite R; split; [exact Q | reflexivity]|].
  destruct (affirmative (operator E)); cbn [negb] in R.
  - destruct H as [H | H]; [discriminate|]. rewrite H in R. cbn [negb] in R.
    rewrite R. split; [exact Q | reflexivity].
  - rewrite R. split; [exact Q | reflexivity].
Qed.

Lemma run_needs_consent_and_service_witness :
  quiet (boot notes_fs)
    (snd (main env_down (per_file [note1; note2]) (boot notes_fs)))
  /\ fst (main env_down (per_file [note1; note2]) (boot notes_fs))
     = Unreachable.
Proof.
  apply (run_needs_consent_and_service env_down (per_file [note1; note2])
           (boot notes_fs)).
  right. reflexivity.
Defined.

(** X12.  Neither parser returns an entry without content: the content
    of every entry is its block's body stripped and is not empty, and the
    heading is stripped as well; an outline entry has no file name, and a
    summary entry has the file name its heading holds. *)
Theorem parsed_entries_have_content (text : str) :
  Forall (fun e => content e <> [] /\ strip (content e) = content e /\
                   filename e = None /\
                   exists d, heading e = Some d /\ strip d = d)
    (org_entries text)
  /\ Forall (fun e => content e <> [] /\ strip (content e) = content e /\
                      exists h, heading e = Some h /\ strip h = h /\
                                filename e = heading_filename h)
       (summary_entries text).
Proof. split; [apply org_loop_inv | apply summary_loop_inv]. Qed.

(** X13.  In outline mode a run that reaches the end of the loop has
    processed every entry: the skip for entries without content is never
    taken there, and the report reads [t/t]. *)
Theorem outline_run_counts_all (E : env) (a : args) (s : sys) (k t : nat) :
  given (input_entry_md a) = false ->
  fst (main E a s) = Complete k t ->
  k = t.
Proof.
  intros G H.
  destruct (main_run E a s) as (summaries & _ & _ & _ & _ & _ & _ & Hk).
  rewrite H in Hk. destruct Hk as (_ & -> & -> & K & _). rewrite K.
  unfold batch. rewrite G.
  destruct (input_journal_org a) as [[|c p]|]; try reflexivity.
  rewrite org_entries_content. reflexivity.
Qed.

Lemma outline_run_counts_all_witness :
  fst (main env_ok outline_mode (boot outline_fs)) = Complete 3 3.
Proof.
  assert (H : exists k t, fst (main env_ok outline_mode (boot outline_fs))
                          = Complete k t /\ t = 3).
  { exists 3, 3. split; [vm_compute; reflexivity | reflexivity]. }
  destruct H as (k & t & H & ->).
  rewrite H. f_equal.
  exact (outline_run_counts_all env_ok outline_mode (boot outline_fs) k 3
           eq_refl H).
Defined.

(** X14.  An outline document in which the marker
    ["** Journal Entry <"] does not occur (a missing or unreadable
    document among them) gives no entry: the run ends with nothing to do,
    without a request and without a change to a file. *)
Theorem outline_without_marker (E : env) (a : args) (s : sys) (path : str) :
  given (input_entry_md a) = false ->
  input_journal_org a = Some path ->
  occurs org_marker (file_text (files s path)) = false ->
  org_entries (file_text (files s path)) = []
  /\ fst (main E a s) = NothingToDo
  /\ quiet s (snd (main E a s)).
Proof.
  intros G Ho Hm.
  assert (En : org_entries (file_text (files s path)) = []).
  { unfold org_entries, finditer, start_of. apply oscan_absent. exact Hm. }
  split; [exact En|].
  destruct (main_cases E a s) as (s_mid & R & Q).
  apply reads_quiet in Q.
  assert (B : both_given a = false).
  { unfold both_given. rewrite G. apply andb_false_r. }
  assert (Eb : batch a s = []).
  { unfold batch. rewrite G, Ho. destruct path; [reflexivity | exact En]. }
  rewrite B, Eb in R. rewrite R. split; [reflexivity | exact Q].
Qed.

Lemma outline_without_marker_witness :
  org_entries (file_text (files (boot notes_fs) note1)) = []
  /\ fst (main env_ok
            (Args (Some note1) None out_md default_model default_url
               default_prompt) (boot notes_fs)) = NothingToDo
  /\ quiet (boot notes_fs)
       (snd (main env_ok
               (Args (Some note1) None out_md default_model default_url
                  default_prompt) (boot notes_fs))).
Proof.
  apply (outline_without_marker env_ok
           (Args (Some note1) None out_md default_model default_url
              default_prompt) (boot notes_fs) note1).
  - reflexivity.
  - reflexivity.
  - vm_compute. reflexivity.
Defined.

(** X15.  A prompt template that [str.format] rejects ends the run with
    the exception at the first entry with content: the prompt is built
    before the [try] block, so no handler of the client sees the error.
    No request has been sent by then and no file was changed. *)
Theorem bad_template_crashes (E : env) (a : args) (s : sys) :
  (forall text, exists x, format E (prompt a) text = inl x) ->
  both_given a = false ->
  with_content (batch a s) <> [] ->
  affirmative (operator E) = true ->
  probe E (url a) = true ->
  (exists x, fst (main E a s) = Crashed x) /\ quiet s (snd (main E a s)).
Proof.
  intros Hf B Hne A Pr.
  destruct (main_cases E a s) as (s_mid & R & Q).
  apply reads_quiet in Q. rewrite B, A, Pr in R. cbn [negb] in R.
  destruct (batch a s) as [|e more] eqn:Eb; [exfalso; apply Hne; reflexivity|].
  destruct (process_bad_template E a Hf (e :: more) (length (e :: more)) 0 0
              s_mid Hne)
    as (x & s' & P & Q').
  rewrite R, P. split; [exists x; reflexivity|].
  exact (quiet_trans _ _ _ Q Q').
Qed.

Lemma bad_template_crashes_witness :
  (exists x,
     fst (main env_ok
            (Args None (Some [note1]) out_md default_model default_url
               dated_prompt) (boot notes_fs)) = Crashed x)
  /\ quiet (boot notes_fs)
       (snd (main env_ok
               (Args None (Some [note1]) out_md default_model default_url
                  dated_prompt) (boot notes_fs))).
Proof.
  apply (bad_template_crashes env_ok
           (Args None (Some [note1]) out_md default_model default_url
              dated_prompt) (boot notes_fs)).
  - intros text. exists FormatError. reflexivity.
  - reflexivity.
  - vm_compute. discriminate.
  - reflexivity.
  - reflexivity.
Defined.

(** X16.  Entries without content are skipped, not summarized: a
    confirmed run whose batch holds only such entries (empty input files)
    reaches the end of the loop with nothing processed, no request sent
    and no file changed, so the same files are selected again by the next
    run. *)
Theorem empty_entries_skipped (E : env) (a : args) (s : sys) :
  both_given a = false ->
  batch a s <> [] ->
  with_content (batch a s) = [] ->
  affirmative (operator E) = true ->
  probe E (url a) = true ->
  fst (main E a s) = Complete 0 (length (batch a s))
  /\ quiet s (snd (main E a s))
  /\ selected a (snd (main E a s)) = selected a s.
Proof.
  intros B Hne Hn A Pr.
  destruct (main_cases E a s) as (s_mid & R & Q).
  apply reads_quiet in Q. rewrite B, A, Pr in R. cbn [negb] in R.
  destruct (batch a s) as [|e more] eqn:Eb; [congruence|].
  destruct (process_no_content E a (e :: more) (length (e :: more)) 0 0
              s_mid Hn)
    as (s' & P & Q').
  rewrite R, P. cbn [fst snd].
  pose proof (quiet_trans _ _ _ Q Q') as (F & Ps).
  split; [reflexivity|]. split; [split; assumption|].
  unfold selected, completion_set. rewrite F. reflexivity.
Qed.

Lemma empty_entries_skipped_witness :
  fst (main env_ok (per_file [empty_md]) (boot notes_and_empty))
  = Complete 0 1
  /\ quiet (boot notes_and_empty)
       (snd (main env_ok (per_file [empty_md]) (boot notes_and_empty)))
  /\ selected (per_file [empty_md])
       (snd (main env_ok (per_file [empty_md]) (boot notes_and_empty)))
     = [empty_md].
Proof.
  apply (empty_entries_skipped env_ok (per_file [empty_md])
           (boot notes_and_empty)).
  - reflexivity.
  - vm_compute. discriminate.
  - vm_compute. reflexivity.
  - reflexivity.
  - reflexivity.
Defined.

(** X17.  The files a run opens, in order: nothing when both input modes
    are given; otherwise the output document to read it, then the input
    files (in per-file mode the selected paths, every one of them and no
    path whose base name is in the completion set; in outline mode the
    outline document), and after that the output document only, once for
    every summary to append. *)
Theorem files_opened_in_order (E : env) (a : args) (s : sys) :
  exists n,
    n <= length (with_content (batch a s)) /\
    opened (trace (snd (main E a s)))
    = opened (trace s)
      ++ (if both_given a then []
          else output_md a :: inputs a s ++ repeat (output_md a) n).
Proof.
  destruct (main_run E a s) as (summaries & _ & _ & _ & _ & _ & Hop & Hk).
  exists (length summaries). split.
  - destruct (fst (main E a s)).
    + destruct Hk as (_ & -> & _). apply Nat.le_0_l.
    + destruct Hk as (_ & _ & -> & _). apply Nat.le_0_l.
    + destruct Hk as (_ & _ & _ & -> & _). apply Nat.le_0_l.
    + destruct Hk as (_ & _ & _ & _ & -> & _). apply Nat.le_0_l.
    + destruct Hk as (_ & _ & _ & K & _). apply Nat.lt_le_incl. exact K.
    + destruct Hk as (_ & _ & _ & K & _). exact (Nat.eq_le_incl _ _ K).
    + destruct Hk as (_ & K & _). apply Nat.lt_le_incl. exact K.
  - rewrite Hop. destruct (both_given a) eqn:B; [|reflexivity].
    destruct (fst (main E a s)); try (destruct Hk as (K & _); discriminate);
      try (destruct Hk as ((K & _) & _); discriminate).
    destruct Hk as (_ & -> & _). reflexivity.
Qed.

(** X18.  An output document that is missing, unreadable or empty, or in
    which no ["# "] occurs, or in which no ["[["] occurs (as after runs
    in outline mode only, whose headings are dates), has an empty
    completion set: every listed path is selected. *)
Theorem untracked_output_selects_all (a : args) (s : sys) :
  occurs md_marker (file_text (files s (output_md a))) = false
  \/ occurs [lbr; lbr] (file_text (files s (output_md a))) = false ->
  completion_set s (output_md a) = []
  /\ selected a s = paths_of (input_entry_md a).
Proof.
  intros H.
  assert (C : completion_set s (output_md a) = []).
  { unfold completion_set, summary_entries, finditer, start_of.
    destruct H as [H | H].
    - rewrite (sscan_absent _ None H). reflexivity.
    - exact (sscan_untracked _ _ None (le_n _) H). }
  split; [exact C|].
  unfold selected, files_to_summarize. rewrite C. apply filter_all.
  reflexivity.
Qed.

Lemma untracked_output_selects_all_witness :
  completion_set (boot notes_fs) out_md = []
  /\ selected (per_file [note1; note2]) (boot notes_fs) = [note1; note2].
Proof.
  apply (untracked_output_selects_all (per_file [note1; note2])
           (boot notes_fs)).
  left. reflexivity.
Defined.

(** X19.  What the Output Writer writes, the Completion Tracker reads
    back: a document of the writer followed by plain records (heading on
    one line and stripped; summary stripped, not empty and without a line
    that starts with ["# "]) is parsed into the entries of the document
    followed by one entry per record, with the heading and the summary of
    the record, in their order. *)
Theorem written_records_read_back (d : str) (recs : list (str * str)) :
  blank_terminated d ->
  Forall plain_record recs ->
  summary_entries
    (d ++ concat (map (fun hs => record_text (fst hs) (snd hs)) recs))
  = summary_entries d ++ map record_entry recs.
Proof. apply summary_entries_plain_records. Qed.

Lemma written_records_read_back_witness :
  summary_entries
    (record_text (lit "[[note1]]") fine_day
       ++ record_text (lit "2024-01-01 Mon") fine_day)
  = [Entry (Some (lit "[[note1]]")) (Some (lit "note1")) fine_day;
     Entry (Some (lit "2024-01-01 Mon")) None fine_day].
Proof.
  transitivity
    (summary_entries
       ([] ++ concat (map (fun hs => record_text (fst hs) (snd hs))
                        [(lit "[[note1]]", fine_day);
                         (lit "2024-01-01 Mon", fine_day)]))).
  - cbn [map concat fst snd app]. rewrite app_nil_r. reflexivity.
  - rewrite (written_records_read_back []
               [(lit "[[note1]]", fine_day); (lit "2024-01-01 Mon", fine_day)]).
    + vm_compute. reflexivity.
    + left. reflexivity.
    + repeat constructor; cbn [fst snd]; try discriminate;
        try (vm_compute; reflexivity);
        intros I; vm_compute in I;
        repeat (destruct I as [I | I]; [discriminate|]); exact I.
Defined.



(** X21.  The name a record carries gives back the base name of its file
    exactly for Markdown files: [splitext(basename(p))[0] + ".md"] is the
    base name of [p] if and only if the base name ends in [".md"] after a
    stem that is not made of dots only.  Files with another extension, or
    none, are summarized but never found in the completion set. *)
Theorem only_md_names_tracked (p : str) :
  splitext_root (basename p) ++ md_suffix = basename p
  <-> exists stem,
        basename p = stem ++ md_suffix /\
        forallb (fun c => char_eqb c dot) stem = false.
Proof.
  split.
  - intros H. exists (splitext_root (basename p)).
    split; [symmetry; exact H|].
    destruct (forallb (fun c => char_eqb c dot) (splitext_root (basename p)))
      eqn:D; [|reflexivity].
    exfalso. set (r := splitext_root (basename p)) in *.
    assert (R : splitext_root (r ++ md_suffix) = r ++ md_suffix).
    { unfold splitext_root. change md_suffix with (dot :: lit "md").
      rewrite rsplit_at_last by (intros [E | [E | []]]; discriminate).
      rewrite D. reflexivity. }
    rewrite H in R. fold r in R. rewrite <- R in H.
    apply (f_equal (@length char)) in H. rewrite length_app in H.
    cbn in H. lia.
  - intros (stem & -> & D). rewrite (splitext_root_md stem D). reflexivity.
Qed.

(** X22.  A reasoning span needs both its tags: when the generated text
    holds no opening tag or no closing tag, the client removes nothing
    and returns the text stripped, so a span that was opened and never
    closed stays in the summary. *)
Theorem unclosed_think_kept (generated : str) :
  occurs think_open generated = false
  \/ occurs think_close generated = false ->
  generated_summary (well_formed generated) = inr (strip generated).
Proof.
  intros H. cbn [generated_summary well_formed]. unfold clean.
  rewrite sub_think. f_equal.
  assert (D : forall s,
             occurs think_open s = false \/ occurs think_close s = false ->
             drop_spans think_open think_close 0 s = s).
  { induction s as [|c s IH]; intros Hs; [reflexivity|].
    cbn [drop_spans].
    assert (Hs' : occurs think_open s = false
                  \/ occurs think_close s = false).
    { destruct Hs as [Hs | Hs]; [left | right];
        cbn [occurs] in Hs; apply orb_false_iff in Hs; apply Hs. }
    rewrite (IH Hs').
    destruct Hs as [Hs | Hs].
    - cbn [occurs] in Hs. apply orb_false_iff in Hs.
      destruct Hs as (-> & _). reflexivity.
    - rewrite (split_at_absent think_close
                 (skipn (length think_open) (c :: s)))
        by (apply (occurs_suffix _ (firstn (length think_open) (c :: s)));
            rewrite firstn_skipn; exact Hs).
      destruct (starts_with think_open (c :: s)); reflexivity. }
  rewrite D; [apply strip_idem|].
  destruct H as [H | H]; [left | right]; apply occurs_strip; exact H.
Qed.

Lemma unclosed_think_kept_witness :
  generated_summary (well_formed (lit " <think>so far"))
  = inr (lit "<think>so far").
Proof.
  rewrite (unclosed_think_kept (lit " <think>so far"));
    [reflexivity | right; reflexivity].
Defined.

(** X23.  A reply that is JSON but carries no text under ["response"]
    ends the batch: for an object without the key the client returns the
    empty string (the default of [.get]), for a value that is not a
    string or a body that is not an object it returns the failure signal
    through the catch-all handler, and the loop aborts at this entry
    without appending. *)
Theorem reply_without_text_aborts (E : env) (a : args) (total i k : nat)
    (e : JournalEntry) (more : list JournalEntry) (s : sys) (p : str)
    (j : json) :
  content e <> [] ->
  format E (prompt a) (content e) = inr p ->
  service E (posts s) (url a ++ api_generate) (model a) p
  = PostResponse true (BodyJson j) ->
  (forall generated, j <> JObject (Some (FStr generated))) ->
  fst (summarize_with_ollama E (content e) (model a) (url a) (prompt a) s)
  = Returned (match j with JObject None => Some [] | _ => None end)
  /\ exists s1,
       process E a total i k (e :: more) s = (Aborted k total, s1) /\
       files s1 = files s /\ posts s1 = S (posts s).
Proof.
  intros He F Hs Hj. split.
  - rewrite (summarize_run E _ _ _ _ p s F), Hs. cbn [fst].
    destruct j as [[[g|]|]|]; try reflexivity.
    exfalso. exact (Hj g eq_refl).
  - pose proof (process_cons E a total i k e more s He) as Step.
    rewrite F in Step. cbv zeta in Step. rewrite Hs in Step.
    destruct j as [[[g|]|]|]; [exfalso; exact (Hj g eq_refl)|..];
      cbn [generated_summary clean] in Step;
      destruct Step as (s1 & R & Fs & Ps & _);
      exists s1; repeat split; assumption.
Qed.

Lemma reply_without_text_aborts_witness :
  fst (process (env_of (fun _ _ _ _ =>
                          PostResponse true (BodyJson (JObject None))))
         (per_file [note1; note2]) 2 0 0
         [entry_of notes_fs note1; entry_of notes_fs note2] (boot notes_fs))
  = Aborted 0 2.
Proof.
  edestruct (reply_without_text_aborts
               (env_of (fun _ _ _ _ =>
                          PostResponse true (BodyJson (JObject None))))
               (per_file [note1; note2]) 2 0 0
               (entry_of notes_fs note1) [entry_of notes_fs note2]
               (boot notes_fs))
    as (_ & s1 & R & _).
  - discriminate.
  - reflexivity.
  - reflexivity.
  - discriminate.
  - rewrite R. reflexivity.
Defined.

(** X24.  What a run sends: every generation request goes to the
    configured address followed by ["/api/generate"], names the
    configured model, and carries the prompt built from the content of
    one entry of the batch; the requests follow the order of the entries
    with content, one for each of the first of them. *)
Theorem requests_carry_batch_entries (E : env) (a : args) (s : sys) :
  exists prompts,
    length prompts <= length (with_content (batch a s)) /\
    Forall2 (fun e p => format E (prompt a) (content e) = inr p)
      (firstn (length prompts) (with_content (batch a s))) prompts /\
    requests (trace (snd (main E a s)))
    = requests (trace s) ++ map (request_for a) prompts.
Proof.
  destruct (main_cases E a s) as (s_mid & R & (_ & _ & _ & Q)).
  assert (None_sent : forall o,
             main E a s = (o, s_mid) ->
             exists prompts : list str,
               length prompts <= length (with_content (batch a s)) /\
               Forall2 (fun e p => format E (prompt a) (content e) = inr p)
                 (firstn (length prompts) (with_content (batch a s)))
                 prompts /\
               requests (trace (snd (main E a s)))
               = requests (trace s) ++ map (request_for a) prompts).
  { intros o Ho. exists []. rewrite Ho. cbn [snd length firstn map].
    rewrite app_nil_r.
    split; [apply Nat.le_0_l|]. split; [constructor | exact Q]. }
  destruct (both_given a); [exact (None_sent _ R)|].
  destruct (batch a s) as [|e more] eqn:Eb; [exact (None_sent _ R)|].
  destruct (affirmative (operator E)); cbn [negb] in R;
    [|exact (None_sent _ R)].
  destruct (probe E (url a)); cbn [negb] in R; [|exact (None_sent _ R)].
  destruct (process_requests E a (e :: more) (length (e :: more)) 0 0 s_mid)
    as (prompts & L & F2 & Rq).
  exists prompts. split; [exact L|]. split; [exact F2|].
  rewrite R, Rq, Q. reflexivity.
Qed.

(** X25.  Every entry the Completion Tracker reads is a block of the
    output document: its marker ["# "] stands at the start of a line, the
    heading is the rest of that line (stripped), the file name is what
    the heading holds between ["[["] and ["]]"], and the content is the
    text (stripped) from the next line to just before the first newline
    that is followed by ["# "], or to the end of the document. *)
Theorem summary_block_extent (path text : str) (w : bool) (s : sys)
    (e : JournalEntry) :
  files s path = File text w ->
  In e (fst (parse_journal_summary_file path s)) ->
  exists h body,
    record_extent text h body /\
    e = Entry (Some (strip h)) (heading_filename (strip h)) (strip body).
Proof.
  intros Hf I.
  destruct (read_and_parse_run summary_entries path s eq_refl)
    as (s' & R & _).
  unfold parse_journal_summary_file in I. rewrite R, Hf in I.
  cbn [fst file_text] in I.
  apply summary_loop_in in I. destruct I as ([st en] & I & ->).
  apply scan_fuel_sound in I. cbn [fst snd] in I.
  destruct I as ((pre & Epre & Ppre) & ma & M).
  rewrite summary_match_at in M. apply block_match_inv in M.
  destruct M as (h & b & B & Er & Hh & T & Hb & _ & C).
  exists h, b. split.
  - exists pre, (rest en). cbn [rest start_of prev] in *.
    split; [rewrite Epre, Er; reflexivity|].
    split; [apply (bol_line_closed pre st B); exact Ppre|].
    split; [|split; [exact T | exact Hb]].
    intros In_h. apply in_split in In_h. destruct In_h as (a1 & a2 & E).
    specialize (Hh a1 nl a2 E). cbn [starts_with] in Hh.
    rewrite char_eqb_refl in Hh. discriminate.
  - unfold group. cbn [snd]. rewrite C. reflexivity.
Qed.

Lemma summary_block_extent_witness :
  exists h body,
    record_extent (record_text (lit "[[note1]]") fine_day) h body /\
    Entry (Some (lit "[[note1]]")) (Some (lit "note1")) fine_day
    = Entry (Some (strip h)) (heading_filename (strip h)) (strip body).
Proof.
  apply (summary_block_extent out_md
           (record_text (lit "[[note1]]") fine_day) true
           (boot (fun _ => File (record_text (lit "[[note1]]") fine_day) true))).
  - reflexivity.
  - left. reflexivity.
Defined.

(** X26.  The file name of a heading.  On a heading of one line the
    search for [[[...]]] finds the text between the first ["[["] and the
    first ["]]"] after it, and the file name is that text stripped; a
    heading without such a pair has no file name. *)
Theorem heading_name_read (h : str) :
  ~ In nl h -> heading_filename h = bracket_name h.
Proof.
  intros Hn. unfold bracket_name.
  destruct (split_at [lbr; lbr] h) as [[a r]|] eqn:S.
  - rewrite (heading_filename_read h Hn). unfold bracket_name.
    rewrite S. reflexivity.
  - apply heading_filename_none. apply split_at_none_occurs. exact S.
Qed.

Lemma heading_name_read_witness :
  heading_filename (lit "note [[ a ]] and [[b]]") = Some (lit "a").
Proof.
  rewrite (heading_name_read (lit "note [[ a ]] and [[b]]")).
  - reflexivity.
  - intros I. vm_compute in I.
    repeat (destruct I as [I | I]; [discriminate|]). exact I.
Defined.

End Further.
